(** * youdao-dic: deduplicator, splitter and audio fetcher

    A shallow embedding of the three batch utilities of the repository
    ([book/extract_unique_words.py], [book/split_words.py] and
    [download_audio.py]) and the properties their specification states
    about them.

    Conventions of the embedding.
    - Python [str] values are [string]s (sequences of bytes, the UTF-8
      encoding of the text); Python [int]s are [nat] or [Z].
    - [str.lower] and [str.strip], which Python defines by the tables of
      its Unicode database, are the members of the class [str_methods];
      the tools and their properties are stated for every member of the
      class, and the concrete inputs are evaluated with the member
      [latin1_methods].
    - A JSON object that the tools use as a record (a word entry, a
      [FileStatus], the checkpoint) is a [Record]; the members of a word
      entry that the tools never look at are kept as an association list.
    - The file system, the network and the clock are explicit arguments;
      a read that raises is [None]. *)

From stdpp Require Import base list gmap strings sorting pretty.
From Stdlib Require Import ZArith Lia Ascii.

#[local] Set Warnings "-clear-no-such-hyp".

Local Open Scope Z_scope.
Local Open Scope nat_scope.

(** ** Data model *)

(** JSON values, for the members of a word entry that stay opaque. *)
#[local] Unset Elimination Schemes.
Inductive json : Type :=
  | JNull
  | JBool (b : bool)
  | JNum (z : Z)
  | JStr (s : string)
  | JArr (l : list json)
  | JObj (l : list (string * json)).
#[local] Set Elimination Schemes.

(** A word entry.  [headWord] and [wordRank] are the two members the
    tools read or write, typed as the input format has them (a string,
    a number), [None] when the member is absent; [fields] holds every
    other member. *)
Record word_obj : Type := WordObj {
  headWord : option string;
  wordRank : option Z;
  fields : list (string * json)
}.

(** [word_obj['wordRank'] = i] *)
Definition set_wordRank (i : nat) (w : word_obj) : word_obj :=
  {| headWord := headWord w; wordRank := Some (Z.of_nat i); fields := fields w |}.

(** ** Strings *)

(** What [str.lower] does to ASCII text: the letters A-Z are folded. *)
Definition lower_ascii (c : ascii) : ascii :=
  let n := N_of_ascii c in
  if ((65 <=? n) && (n <=? 90))%N then ascii_of_N (n + 32) else c.

Fixpoint ascii_lower (s : string) : string :=
  match s with
  | EmptyString => EmptyString
  | String c s' => String (lower_ascii c) (ascii_lower s')
  end.

(** [s.endswith(suffix)] *)
Definition endswith (s suffix : string) : bool :=
  String.prefix (String.rev suffix) (String.rev s).

(** [c in s] for a one-character [c] *)
Fixpoint contains (c : ascii) (s : string) : bool :=
  match s with
  | EmptyString => false
  | String c' s' => if decide (c' = c) then true else contains c s'
  end.

(** What [str.strip()] does to ASCII text: the white space of the ASCII
    range is removed at both ends. *)
Definition is_whitespace (c : ascii) : bool :=
  let n := N_of_ascii c in
  ((9 <=? n) && (n <=? 13) || (28 <=? n) && (n <=? 32))%N.

Fixpoint ascii_lstrip (s : string) : string :=
  match s with
  | EmptyString => EmptyString
  | String c s' => if is_whitespace c then ascii_lstrip s' else s
  end.

Definition ascii_strip (s : string) : string :=
  String.rev (ascii_lstrip (String.rev (ascii_lstrip s))).

(** Text all of whose bytes are below 128. *)
Fixpoint is_ascii (s : string) : bool :=
  match s with
  | EmptyString => true
  | String c s' => (N_of_ascii c <? 128)%N && is_ascii s'
  end.

(** [str.lower] and [str.strip].  Python defines the two methods on
    every Unicode character, by the tables of the Unicode database that
    comes with the interpreter: [lower] folds every cased letter and
    [strip] removes every character that [str.isspace] accepts.  The
    tables are not fixed here: the two methods are the members of a
    class, of which it is stated what they do to ASCII text, and the
    tools are defined, and their properties proved, for every member of
    the class, the methods of the interpreter among them. *)
Class str_methods : Type := StrMethods {
  lower : string → string;
  strip : string → string;
  lower_ascii_text : ∀ s, is_ascii s = true → lower s = ascii_lower s;
  strip_ascii_text : ∀ s, is_ascii s = true → strip s = ascii_strip s
}.

(** *** A member of the class

    The concrete inputs of the development are evaluated with the
    member [latin1_methods]: its [lower] is [str.lower] on text whose
    cased letters are ASCII or of the Latin-1 supplement, its [strip] is
    [str.strip] on every text. *)

(** The capital letters of the Latin-1 supplement, U+00C0 to U+00DE
    without the multiplication sign U+00D7: in UTF-8 the byte 195 and a
    byte from 128 to 158 other than 151.  The small letter is 32 further
    on. *)
Definition is_latin1_upper (c d : ascii) : bool :=
  let n := N_of_ascii d in
  ((N_of_ascii c =? 195) && (128 <=? n) && (n <=? 158) && negb (n =? 151))%N.

Fixpoint latin1_lower (s : string) : string :=
  match s with
  | EmptyString => EmptyString
  | String c s' =>
      match s' with
      | String d s'' =>
          if is_latin1_upper c d
          then String c (String (ascii_of_N (N_of_ascii d + 32)) (latin1_lower s''))
          else String (lower_ascii c) (latin1_lower s')
      | EmptyString => String (lower_ascii c) EmptyString
      end
  end.

(** The white space outside ASCII, in UTF-8: U+0085 and U+00A0 (two
    bytes); U+1680, U+2000 to U+200A, U+2028, U+2029, U+202F, U+205F and
    U+3000 (three bytes). *)
Definition is_wide_space2 (c1 c2 : ascii) : bool :=
  let a := N_of_ascii c1 in
  let b := N_of_ascii c2 in
  ((a =? 194) && ((b =? 133) || (b =? 160)))%N.

Definition is_wide_space3 (c1 c2 c3 : ascii) : bool :=
  let a := N_of_ascii c1 in
  let b := N_of_ascii c2 in
  let c := N_of_ascii c3 in
  ((a =? 225) && (b =? 154) && (c =? 128)
   || (a =? 226) && (b =? 128)
      && ((128 <=? c) && (c <=? 138) || (c =? 168) || (c =? 169) || (c =? 175))
   || (a =? 226) && (b =? 129) && (c =? 159)
   || (a =? 227) && (b =? 128) && (c =? 128))%N.

(** White space removed at the left end; [backwards] is for a text that
    is read from its right end, where the bytes of a character come in
    the opposite order. *)
Fixpoint unicode_lstrip (backwards : bool) (s : string) : string :=
  match s with
  | EmptyString => EmptyString
  | String c1 s1 =>
      if is_whitespace c1 then unicode_lstrip backwards s1
      else
        match s1 with
        | String c2 s2 =>
            if (if backwards then is_wide_space2 c2 c1 else is_wide_space2 c1 c2)
            then unicode_lstrip backwards s2
            else
              match s2 with
              | String c3 s3 =>
                  if (if backwards then is_wide_space3 c3 c2 c1
                      else is_wide_space3 c1 c2 c3)
                  then unicode_lstrip backwards s3
                  else s
              | EmptyString => s
              end
        | EmptyString => s
        end
  end.

Definition unicode_strip (s : string) : string :=
  String.rev (unicode_lstrip true (String.rev (unicode_lstrip false s))).

Definition latin1_methods : str_methods.
Proof.
  assert (∀ c k, (N_of_ascii c <? 128)%N = true → (128 ≤ k)%N →
                 (N_of_ascii c =? k)%N = false) as Hbyte.
  { intros c k Hc%N.ltb_lt Hk. apply N.eqb_neq. lia. }
  assert (∀ b s, is_ascii s = true → unicode_lstrip b s = ascii_lstrip s)
    as Hlstrip.
  { intros b s. induction s as [|c1 s1 IH]; [done|].
    intros [H1 Hs1]%andb_true_iff.
    change (unicode_lstrip b (String c1 s1))
      with (if is_whitespace c1 then unicode_lstrip b s1
            else match s1 with
                 | String c2 s2 =>
                     if (if b then is_wide_space2 c2 c1 else is_wide_space2 c1 c2)
                     then unicode_lstrip b s2
                     else match s2 with
                          | String c3 s3 =>
                              if (if b then is_wide_space3 c3 c2 c1
                                  else is_wide_space3 c1 c2 c3)
                              then unicode_lstrip b s3
                              else String c1 s1
                          | EmptyString => String c1 s1
                          end
                 | EmptyString => String c1 s1
                 end).
    simpl ascii_lstrip. destruct (is_whitespace c1); [by apply IH|].
    destruct s1 as [|c2 s2]; [done|].
    apply andb_true_iff in Hs1 as [H2 Hs2].
    assert ((if b then is_wide_space2 c2 c1 else is_wide_space2 c1 c2) = false)
      as ->.
    { unfold is_wide_space2. destruct b; cbv zeta;
        rewrite (Hbyte _ 194%N) by done; done. }
    destruct s2 as [|c3 s3]; [done|].
    apply andb_true_iff in Hs2 as [H3 Hs3].
    assert ((if b then is_wide_space3 c3 c2 c1 else is_wide_space3 c1 c2 c3)
            = false) as ->; [|done].
    unfold is_wide_space3. destruct b; cbv zeta;
      rewrite (Hbyte _ 225%N), (Hbyte _ 226%N), (Hbyte _ 227%N) by done; done. }
  assert (∀ s1 s2, is_ascii (String.rev_app s1 s2) = is_ascii s1 && is_ascii s2)
    as Hrev.
  { induction s1 as [|c s1 IH]; intros s2; simpl; [done|].
    rewrite IH. simpl. by destruct (N_of_ascii c <? 128)%N, (is_ascii s1). }
  assert (∀ s, is_ascii s = true → is_ascii (ascii_lstrip s) = true) as Hkeep.
  { induction s as [|c s IH]; simpl; [done|].
    intros [Hc Hs]%andb_true_iff. destruct (is_whitespace c); [by apply IH|].
    simpl. by rewrite Hc, Hs. }
  refine {| lower := latin1_lower; strip := unicode_strip |}.
  - induction s as [|c s IH]; [done|].
    intros [Hc Hs]%andb_true_iff. destruct s as [|d s'']; [done|].
    change (latin1_lower (String c (String d s'')))
      with (if is_latin1_upper c d
            then String c (String (ascii_of_N (N_of_ascii d + 32))
                                  (latin1_lower s''))
            else String (lower_ascii c) (latin1_lower (String d s''))).
    unfold is_latin1_upper. cbv zeta. rewrite (Hbyte c 195%N) by done.
    simpl andb. cbv iota. by rewrite (IH Hs).
  - intros s Hs. unfold unicode_strip, ascii_strip.
    rewrite (Hlstrip false s Hs). f_equal. apply Hlstrip.
    unfold String.rev. rewrite Hrev. simpl. rewrite andb_true_r. by apply Hkeep.
Defined.

#[global] Existing Instance latin1_methods | 100.

(** ** Python's stable sort

    [list.sort(key=...)] is stable and compares keys with [<] only.  It
    is modelled by a stable insertion sort: an element is placed before
    the first element of the sorted rest whose key is not smaller. *)
Section sort.
Context {A K : Type} (lt : K → K → bool) (key : A → K).

Fixpoint insert_sorted (x : A) (l : list A) : list A :=
  match l with
  | [] => [x]
  | y :: l' =>
      if lt (key y) (key x) then y :: insert_sorted x l' else x :: y :: l'
  end.

Definition list_sort (l : list A) : list A := foldr insert_sorted [] l.
End sort.

(** ** Deduplicator ([extract_unique_words.py]) *)

(** One line of an input file, after [line.strip()] and [json.loads]. *)
Inductive line : Type :=
  | Blank                  (* nothing left after strip: not parsed *)
  | Malformed              (* json.loads raises JSONDecodeError *)
  | NonDict                (* a JSON value that is not an object *)
  | Dict (w : word_obj).

(** A parsed JSON value of a line. *)
Inductive py_value : Type :=
  | PyOther
  | PyDict (w : word_obj).

(** A directory entry: the name and, when the file can be opened and
    read, its lines. *)
Abbreviation dedup_dir := (list (string * option (list line))).

(** Line 13: the [.json] files of the directory, in listing order. *)
Definition json_files (dir : dedup_dir) : dedup_dir :=
  filter (λ f, endswith f.1 ".json" = true) dir.

(** Lines 35-43: the values of the lines that parse. *)
Definition words_data_of (lines : list line) : list py_value :=
  omap (λ l, match l with
             | Blank | Malformed => None
             | NonDict => Some PyOther
             | Dict w => Some (PyDict w)
             end) lines.

(** [d[k] = v] on an insertion-ordered dict. *)
Fixpoint dict_set {V : Type} (k : string) (v : V) (d : list (string * V))
  : list (string * V) :=
  match d with
  | [] => [(k, v)]
  | (k', v') :: d' =>
      if decide (k' = k) then (k, v) :: d' else (k', v') :: dict_set k v d'
  end.

Record dedup_state : Type := DedupState {
  unique_words : list (string * word_obj);
  seen_words : gset string;
  total_processed : nat
}.

Definition dedup_init : dedup_state :=
  {| unique_words := []; seen_words := ∅; total_processed := 0 |}.

(** Line 53: the key of an entry. *)
Definition head_word_key {M : str_methods} (w : word_obj) : string :=
  lower (default "" (headWord w)).

(** Lines 50-60: the body of the loop over [words_data]. *)
Definition visit_word {M : str_methods} (st : dedup_state) (v : py_value)
  : dedup_state :=
  match v with
  | PyOther => st
  | PyDict w =>
      let head_word := head_word_key w in
      let st' :=
        if bool_decide (head_word ≠ "") && bool_decide (head_word ∉ seen_words st)
        then {| unique_words := dict_set head_word w (unique_words st);
                seen_words := {[head_word]} ∪ seen_words st;
                total_processed := total_processed st |}
        else st in
      {| unique_words := unique_words st';
         seen_words := seen_words st';
         total_processed := S (total_processed st') |}
  end.

(** Lines 31-73: one file; a file that cannot be read changes nothing. *)
Definition visit_file {M : str_methods} (st : dedup_state)
    (f : string * option (list line))
  : dedup_state :=
  match f.2 with
  | None => st
  | Some lines => foldl visit_word st (words_data_of lines)
  end.

(** Line 82: the sort key, [None] standing for [float('inf')]. *)
Definition rank_lt (a b : option Z) : bool :=
  match a, b with
  | Some x, Some y => bool_decide (x < y)%Z
  | Some _, None => true
  | None, _ => false
  end.

(** Lines 87-88: [wordRank] becomes the 1-based position. *)
Definition renumber (l : list word_obj) : list word_obj :=
  imap (λ i w, set_wordRank (S i) w) l.

(** Lines 13-95.  The result is the list handed to [json.dump], [None]
    when the directory has no [.json] file and nothing is written. *)
Definition extract_unique_words {M : str_methods} (dir : dedup_dir)
  : option (list word_obj) :=
  let json_files := json_files dir in
  if bool_decide (json_files = []) then None
  else
    let st := foldl visit_file dedup_init json_files in
    let unique_words_list := (unique_words st).*2 in
    let unique_words_list := list_sort rank_lt wordRank unique_words_list in
    Some (renumber unique_words_list).

(** ** Splitter ([split_words.py]) *)

Definition words_per_file : nat := 1000.

(** [math.ceil(a / b)] *)
Definition ceil_div (a b : nat) : nat := (a + (b - 1)) / b.

(** [l[start:stop]] for indices that are not negative. *)
Definition slice {A : Type} (start stop : nat) (l : list A) : list A :=
  take (stop - start) (drop start l).

(** [f"{n:03d}"]: decimal, padded with zeros to three characters. *)
Fixpoint zeros (n : nat) : string :=
  match n with
  | 0 => ""
  | S n' => String "0" (zeros n')
  end.

Definition format_03d (n : nat) : string :=
  let s := pretty n in zeros (3 - String.length s) +:+ s.

(** Line 48 *)
Definition output_filename (file_index : nat) : string :=
  "words_" +:+ format_03d (file_index + 1) +:+ ".json".

(** The state of the loop of lines 36-53: the loaded array, whose
    objects the loop renumbers in place, and the output directory. *)
Record split_state : Type := SplitState {
  words_data : list word_obj;
  out_dir : gmap string (list word_obj)
}.

(** Lines 37-53: one iteration.  [current_batch] is a new list of the
    same objects, so renumbering it shows in [words_data] too. *)
Definition write_batch (total_words : nat) (st : split_state) (file_index : nat)
  : split_state :=
  let start_index := file_index * words_per_file in
  let end_index := ((file_index + 1) * words_per_file) `min` total_words in
  let current_batch := renumber (slice start_index end_index (words_data st)) in
  {| words_data := take start_index (words_data st) ++ current_batch
                   ++ drop end_index (words_data st);
     out_dir := <[output_filename file_index := current_batch]> (out_dir st) |}.

(** Lines 26-53, from the loaded array and the output directory as it
    is to the directory as the loop leaves it. *)
Definition split_unique_words (input : list word_obj)
    (dir : gmap string (list word_obj)) : gmap string (list word_obj) :=
  let total_words := length input in
  let total_files := ceil_div total_words words_per_file in
  out_dir (foldl (write_batch total_words)
                 {| words_data := input; out_dir := dir |}
                 (seq 0 total_files)).

(** Lines 68-74: the partition files read back as the verification
    reads them, in the order of their index. *)
Definition read_back (total_files : nat) (dir : gmap string (list word_obj))
  : list (list word_obj) :=
  omap (λ file_index, dir !! output_filename file_index) (seq 0 total_files).

(** ** Audio fetcher ([download_audio.py]) *)

Inductive status_t : Type := pending | processing | completed | failed.

#[global] Instance status_eq_dec : EqDecision status_t.
Proof. solve_decision. Defined.

(** A [FileStatus] record, one per partition file. *)
Record file_info : Type := FileInfo {
  filename : string;
  word_count : nat;
  status : status_t;
  completed_words : nat;
  failed_words : nat;
  last_updated : option string
}.

(** [todos["statistics"]].  The member [completed_files] of the
    statistics is [n_completed_files] here, the checkpoint having a list
    of the same name. *)
Record statistics_t : Type := Statistics {
  total_files : nat;
  n_completed_files : nat;
  total_words : nat;
  downloaded_audios : nat;
  failed_downloads : nat;
  skipped_phrases : nat
}.

(** The checkpoint, [self.todos]. *)
Record todos_t : Type := Todos {
  files : list file_info;
  completed_files : list string;
  statistics : statistics_t
}.

(** *** The outside world *)

(** What [requests.get] gives: an exception of the [requests] library,
    or a response, of which the code looks at the status, the
    [content-type] header ([""] when absent) and the length of the body. *)
Inductive response : Type :=
  | RequestException
  | Response (status_code : nat) (content_type : string) (content_length : nat).

(** What the program cannot decide: the answer of the remote service to
    the [n]-th request of the run, whether a file of the audio directory
    can be created, and the [n]-th reading of the clock. *)
Record outside : Type := Outside {
  http_get : nat → string → response;
  can_write : string → bool;
  strftime : nat → string
}.

(** What the program changes outside its memory, with two logs kept for
    the statements: the names in the audio directory, the URLs requested
    so far and the calls of [download_audio] so far. *)
Record world_t : Type := World {
  audio_files : gset string;
  requests : list string;
  attempts : list (string * nat)
}.

(** The partition directory: a name is bound to [None] when the file is
    there but is not a readable JSON array. *)
Abbreviation split_dir := (gmap string (option (list word_obj))).

(** [json.load(open(path))]: [None] when it raises. *)
Definition read_words (dir : split_dir) (name : string) : option (list word_obj) :=
  dir !! name ≫= id.

(** The state of a run: the checkpoint in memory, the checkpoints
    written to [todo_file] so far (the last one is the content of the
    file), the world, the number of clock readings, and a log of every
    value assigned to a [FileStatus] record, with its index in [files]. *)
Record state : Type := State {
  todos : todos_t;
  saved : list todos_t;
  world : world_t;
  ticks : nat;
  file_log : list (nat * file_info)
}.

(** *** Field updates *)

Definition set_statistics (s : statistics_t) (t : todos_t) : todos_t :=
  {| files := files t; completed_files := completed_files t; statistics := s |}.

Definition set_files (l : list file_info) (t : todos_t) : todos_t :=
  {| files := l; completed_files := completed_files t; statistics := statistics t |}.

Definition set_todos (t : todos_t) (st : state) : state :=
  {| todos := t; saved := saved st; world := world st; ticks := ticks st;
     file_log := file_log st |}.

Definition set_world (w : world_t) (st : state) : state :=
  {| todos := todos st; saved := saved st; world := w; ticks := ticks st;
     file_log := file_log st |}.

Definition set_status (s : status_t) (f : file_info) : file_info :=
  {| filename := filename f; word_count := word_count f; status := s;
     completed_words := completed_words f; failed_words := failed_words f;
     last_updated := last_updated f |}.

Definition set_last_updated (t : string) (f : file_info) : file_info :=
  {| filename := filename f; word_count := word_count f; status := status f;
     completed_words := completed_words f; failed_words := failed_words f;
     last_updated := Some t |}.

Definition set_counts (ok ko : nat) (f : file_info) : file_info :=
  {| filename := filename f; word_count := word_count f; status := status f;
     completed_words := ok; failed_words := ko;
     last_updated := last_updated f |}.

(** [file_info[...] = ...]: [file_info] is the record at index [idx] of
    [self.todos["files"]], so the assignment changes the checkpoint. *)
Definition update_file (idx : nat) (f : file_info → file_info) (st : state) : state :=
  match files (todos st) !! idx with
  | None => st
  | Some r =>
      {| todos := set_files (<[idx := f r]> (files (todos st))) (todos st);
         saved := saved st; world := world st; ticks := ticks st;
         file_log := file_log st ++ [(idx, f r)] |}
  end.

Definition update_statistics (f : statistics_t → statistics_t) (st : state) : state :=
  set_todos (set_statistics (f (statistics (todos st))) (todos st)) st.

(** [time.strftime(...)] *)
Definition read_clock (o : outside) (st : state) : string * state :=
  (strftime o (ticks st),
   {| todos := todos st; saved := saved st; world := world st;
      ticks := S (ticks st); file_log := file_log st |}).

(** Lines 113-116 *)
Definition save_todos (st : state) : state :=
  {| todos := todos st; saved := saved st ++ [todos st]; world := world st;
     ticks := ticks st; file_log := file_log st |}.

(** Lines 66-69 *)
Definition is_phrase (word : string) : bool :=
  contains " " word || contains "-" word.

(** [urllib.parse.quote]: letters, digits and [_.-~/] stay, every other
    byte becomes [%XX]. *)
Definition is_unreserved (c : ascii) : bool :=
  let n := N_of_ascii c in
  ((48 <=? n) && (n <=? 57) || (65 <=? n) && (n <=? 90)
   || (97 <=? n) && (n <=? 122))%N
  || bool_decide (c ∈ ["_"; "."; "-"; "~"; "/"]%char).

Definition hex_digit (n : N) : ascii :=
  if (n <? 10)%N then ascii_of_N (48 + n) else ascii_of_N (55 + n).

Fixpoint quote (s : string) : string :=
  match s with
  | EmptyString => EmptyString
  | String c s' =>
      if is_unreserved c then String c (quote s')
      else
        let n := N_of_ascii c in
        String "%" (String (hex_digit (n / 16)) (String (hex_digit (n mod 16)) (quote s')))
  end.

(** Line 22 with line 127 *)
Definition audio_url {M : str_methods} (word : string) (audio_type : nat) : string :=
  "https://dict.youdao.com/dictvoice?audio=" +:+ quote (lower word)
  +:+ "&type=" +:+ pretty audio_type.

(** Lines 130-131 *)
Definition audio_filename (word : string) (audio_type : nat) : string :=
  let type_name := if decide (audio_type = 1) then "uk" else "us" in
  word +:+ "_" +:+ type_name +:+ ".mp3".

(** The second component of what [download_audio] returns. *)
Inductive message : Type :=
  | PhraseSkipped | AlreadyExists | Downloaded | InvalidAudio
  | NetworkError | UnknownError.

Definition log_attempt (word : string) (audio_type : nat) (w : world_t) : world_t :=
  {| audio_files := audio_files w; requests := requests w;
     attempts := attempts w ++ [(word, audio_type)] |}.

Definition log_request (url : string) (w : world_t) : world_t :=
  {| audio_files := audio_files w; requests := requests w ++ [url];
     attempts := attempts w |}.

Definition write_audio (name : string) (w : world_t) : world_t :=
  {| audio_files := {[name]} ∪ audio_files w; requests := requests w;
     attempts := attempts w |}.

(** Lines 118-153.  [raise_for_status] raises for the codes 400 to 599;
    the exception of a failed [open] is the "unknown error". *)
Definition download_audio {M : str_methods} (o : outside) (word : string)
    (audio_type : nat)
    (w : world_t) : bool * message * world_t :=
  let w := log_attempt word audio_type w in
  if is_phrase word then (false, PhraseSkipped, w)
  else
    let url := audio_url word audio_type in
    let name := audio_filename word audio_type in
    if bool_decide (name ∈ audio_files w) then (true, AlreadyExists, w)
    else
      match http_get o (length (requests w)) url with
      | RequestException => (false, NetworkError, log_request url w)
      | Response status_code content_type content_length =>
          let w := log_request url w in
          if (400 <=? status_code) && (status_code <? 600)
          then (false, NetworkError, w)
          else if String.prefix "audio" content_type || (1000 <? content_length)
          then
            if can_write o name then (true, Downloaded, write_audio name w)
            else (false, UnknownError, w)
          else (false, InvalidAudio, w)
      end.

(** [enumerate(l, start)] *)
Fixpoint enumerate {A : Type} (start : nat) (l : list A) : list (nat * A) :=
  match l with
  | [] => []
  | x :: l' => (start, x) :: enumerate (S start) l'
  end.

(** The local variables of [process_file] during the loop over the
    words, with the state of the run. *)
Record loop_state : Type := Loop {
  run_state : state;
  success_count : nat;
  fail_count : nat;
  skipped_count : nat
}.

Definition add_skipped_phrases (s : statistics_t) : statistics_t :=
  {| total_files := total_files s; n_completed_files := n_completed_files s;
     total_words := total_words s; downloaded_audios := downloaded_audios s;
     failed_downloads := failed_downloads s;
     skipped_phrases := skipped_phrases s + 1 |}.

Definition add_downloaded_audios (n : nat) (s : statistics_t) : statistics_t :=
  {| total_files := total_files s; n_completed_files := n_completed_files s;
     total_words := total_words s; downloaded_audios := downloaded_audios s + n;
     failed_downloads := failed_downloads s;
     skipped_phrases := skipped_phrases s |}.

Definition add_failed_downloads (s : statistics_t) : statistics_t :=
  {| total_files := total_files s; n_completed_files := n_completed_files s;
     total_words := total_words s; downloaded_audios := downloaded_audios s;
     failed_downloads := failed_downloads s + 1;
     skipped_phrases := skipped_phrases s |}.

Definition add_completed_files (s : statistics_t) : statistics_t :=
  {| total_files := total_files s; n_completed_files := n_completed_files s + 1;
     total_words := total_words s; downloaded_audios := downloaded_audios s;
     failed_downloads := failed_downloads s;
     skipped_phrases := skipped_phrases s |}.

Definition add_file (n : nat) (s : statistics_t) : statistics_t :=
  {| total_files := total_files s + 1; n_completed_files := n_completed_files s;
     total_words := total_words s + n; downloaded_audios := downloaded_audios s;
     failed_downloads := failed_downloads s;
     skipped_phrases := skipped_phrases s |}.

(** Lines 197-233: the body of the loop over the words of a file, for
    the word at position [i] (from 1); [idx] is where [file_info] lies
    in the checkpoint.  The two assignments of lines 231-232 are one
    update of the record; the two [time.sleep(0.5)] have no
    counterpart. *)
Definition process_word {M : str_methods} (o : outside) (idx : nat) (ls : loop_state)
    (iw : nat * word_obj) : loop_state :=
  let '(i, word_obj) := iw in
  let word := strip (default "" (headWord word_obj)) in
  if bool_decide (word = "") then ls
  else if is_phrase word then
    {| run_state := update_statistics add_skipped_phrases (run_state ls);
       success_count := success_count ls; fail_count := fail_count ls;
       skipped_count := skipped_count ls + 1 |}
  else
    let '(success_uk, msg_uk, w) := download_audio o word 1 (world (run_state ls)) in
    let '(success_us, msg_us, w) := download_audio o word 2 w in
    let st := set_world w (run_state ls) in
    let ls :=
      if success_uk && success_us
      then {| run_state := update_statistics (add_downloaded_audios 2) st;
              success_count := success_count ls + 1;
              fail_count := fail_count ls; skipped_count := skipped_count ls |}
      else {| run_state := update_statistics add_failed_downloads st;
              success_count := success_count ls;
              fail_count := fail_count ls + 1; skipped_count := skipped_count ls |} in
    if bool_decide (i `mod` 10 = 0)
    then {| run_state :=
              save_todos (update_file idx (set_counts (success_count ls) (fail_count ls))
                                      (run_state ls));
            success_count := success_count ls; fail_count := fail_count ls;
            skipped_count := skipped_count ls |}
    else ls.

(** Lines 242-244 *)
Definition mark_completed (name : string) (t : todos_t) : todos_t :=
  if bool_decide (name ∈ completed_files t) then t
  else {| files := files t; completed_files := completed_files t ++ [name];
          statistics := add_completed_files (statistics t) |}.

(** Lines 155-253.  The result is the returned flag, the state and the
    final values of the three local counters ([None] when the loop over
    the words was not reached). *)
Definition process_file {M : str_methods} (o : outside) (dir : split_dir)
    (name : string)
    (st : state) : bool * state * option (nat * nat * nat) :=
  match list_find (λ f, filename f = name) (files (todos st)) with
  | None => (false, st, None)
  | Some (idx, file_info) =>
      if bool_decide (status file_info = completed) then (true, st, None)
      else
        match read_words dir name with
        | None => (false, save_todos (update_file idx (set_status failed) st), None)
        | Some words_data =>
            let '(now, st) := read_clock o st in
            let st := update_file idx (λ f, set_last_updated now (set_status processing f)) st in
            let ls := foldl (process_word o idx)
                            {| run_state := st; success_count := 0;
                               fail_count := 0; skipped_count := 0 |}
                            (enumerate 1 words_data) in
            let '(now, st) := read_clock o (run_state ls) in
            let st := update_file idx
                        (λ f, set_last_updated now
                                (set_status completed
                                   (set_counts (success_count ls) (fail_count ls) f))) st in
            let st := set_todos (mark_completed name (todos st)) st in
            (true, save_todos st,
             Some (success_count ls, fail_count ls, skipped_count ls))
        end
  end.

(** Line 87 and line 363: the sorted [.json] names of the directory. *)
Definition split_files (dir : split_dir) : list string :=
  merge_sort String.le
    (filter (λ f, endswith f ".json" = true) (elements (dom dir))).

Definition new_file_info (name : string) (n : nat) : file_info :=
  {| filename := name; word_count := n; status := pending;
     completed_words := 0; failed_words := 0; last_updated := None |}.

Definition empty_statistics : statistics_t :=
  {| total_files := 0; n_completed_files := 0; total_words := 0;
     downloaded_audios := 0; failed_downloads := 0; skipped_phrases := 0 |}.

(** Lines 89-108: the body of the loop of [create_initial_todos]. *)
Definition scan_file (dir : split_dir) (t : todos_t) (name : string) : todos_t :=
  match read_words dir name with
  | None => t
  | Some words_data =>
      {| files := files t ++ [new_file_info name (length words_data)];
         completed_files := completed_files t;
         statistics :=
           {| total_files := total_files (statistics t);
              n_completed_files := n_completed_files (statistics t);
              total_words := total_words (statistics t) + length words_data;
              downloaded_audios := downloaded_audios (statistics t);
              failed_downloads := failed_downloads (statistics t);
              skipped_phrases := skipped_phrases (statistics t) |} |}
  end.

(** Lines 71-111 *)
Definition create_initial_todos (dir : split_dir) : todos_t :=
  let t := foldl (scan_file dir)
                 {| files := []; completed_files := [];
                    statistics := empty_statistics |}
                 (split_files dir) in
  set_statistics
    {| total_files := length (files t);
       n_completed_files := n_completed_files (statistics t);
       total_words := total_words (statistics t);
       downloaded_audios := downloaded_audios (statistics t);
       failed_downloads := failed_downloads (statistics t);
       skipped_phrases := skipped_phrases (statistics t) |} t.

(** Lines 367-390: the body of the loop of [rescan_files], on the
    checkpoint and [added_count]. *)
Definition rescan_file (dir : split_dir) (existing_files : list string)
    (acc : todos_t * nat) (name : string) : todos_t * nat :=
  let '(t, added_count) := acc in
  if bool_decide (name ∈ existing_files) then acc
  else
    match read_words dir name with
    | None => acc
    | Some words_data =>
        ({| files := files t ++ [new_file_info name (length words_data)];
            completed_files := completed_files t;
            statistics := add_file (length words_data) (statistics t) |},
         added_count + 1)
    end.

(** Lines 361-396 *)
Definition rescan_files (dir : split_dir) (st : state) : nat * state :=
  let existing_files := filename <$> files (todos st) in
  let '(t, added_count) :=
    foldl (rescan_file dir existing_files) (todos st, 0) (split_files dir) in
  let st := set_todos t st in
  (added_count, if bool_decide (0 < added_count) then save_todos st else st).

(** Lines 32-64 of [load_or_create_todos], for a process that starts
    with [disk] as the checkpoints written so far and [w] as the world:
    the last checkpoint is loaded and, its statistics being complete,
    written again as it is; without a checkpoint a new one is made. *)
Definition load_or_create_todos (dir : split_dir) (disk : list todos_t)
    (w : world_t) : state :=
  let t := match last disk with
           | Some t => t
           | None => create_initial_todos dir
           end in
  save_todos {| todos := t; saved := disk; world := w; ticks := 0; file_log := [] |}.

(** Lines 354-359 *)
Definition get_next_pending_file (t : todos_t) : option string :=
  filename <$>
    (snd <$> list_find (λ f, status f = pending ∨ status f = failed) (files t)).

(** The states of the fetcher: a process starts on the checkpoints some
    earlier process wrote, possibly killed before its last ones (the
    first process starts on none), then rescans and processes files. *)
Inductive reachable {M : str_methods} : state → Prop :=
  | reach_first dir w :
      reachable (load_or_create_todos dir [] w)
  | reach_restart st dir k w :
      reachable st → 0 < k →
      reachable (load_or_create_todos dir (take k (saved st)) w)
  | reach_rescan st dir :
      reachable st → reachable (rescan_files dir st).2
  | reach_process st o dir name :
      reachable st → reachable (process_file o dir name st).1.2.

(** ** The rest of the three tools *)

(** Lines 109-111 of [extract_unique_words.py]: the two counts of the
    final report, the entries processed and the unique words kept;
    [None] when the directory has no [.json] file. *)
Definition report_counts {M : str_methods} (dir : dedup_dir) : option (nat * nat) :=
  let json_files := json_files dir in
  if bool_decide (json_files = []) then None
  else
    let st := foldl visit_file dedup_init json_files in
    Some (total_processed st, length (unique_words st).*2).

(** Lines 67-74 of [split_words.py]: the number of entries found in the
    partition files read back; a file that is not there counts for 0. *)
Definition total_split_words (total_files : nat)
    (dir : gmap string (list word_obj)) : nat :=
  sum_list (length <$> read_back total_files dir).

(** Lines 78-81 of [split_words.py]: the verdict of the verification, on
    the directory the loop has left. *)
Definition verification (input : list word_obj)
    (dir : gmap string (list word_obj)) : bool :=
  let total_words := length input in
  let total_files := ceil_div total_words words_per_file in
  bool_decide (total_words
               = total_split_words total_files (split_unique_words input dir)).

(** Lines 51-58 of [download_audio.py] *)
Definition default_stats : list (string * json) :=
  [ ("total_files", JNum 0); ("completed_files", JNum 0);
    ("total_words", JNum 0); ("downloaded_audios", JNum 0);
    ("failed_downloads", JNum 0); ("skipped_phrases", JNum 0) ].

(** Lines 45-62, [_ensure_statistics_fields], on the checkpoint as
    [json.load] gives it: [stats] is the member ["statistics"], a dict
    from names to JSON values, [None] when the checkpoint has no such
    member.  The result is the member afterwards. *)
Definition ensure_statistics_fields (stats : option (gmap string json))
  : gmap string json :=
  foldl (λ m kd, if decide (is_Some (m !! kd.1)) then m else <[kd.1 := kd.2]> m)
        (default ∅ stats) default_stats.

(** Lines 420-429: the loop of [run] over the next pending files, for
    the network [o] and the partition directory [dir].  [not next_file]
    holds of [None] and of the empty name. *)
Fixpoint run_pending {M : str_methods} (o : outside) (dir : split_dir)
    (num_files : nat)
    (st : state) : state :=
  match num_files with
  | 0 => st
  | S n =>
      match get_next_pending_file (todos st) with
      | None => st
      | Some next_file =>
          if bool_decide (next_file = "") then st
          else run_pending o dir n (process_file o dir next_file st).1.2
      end
  end.

(** Lines 412-418: the loop of [run] over the files named on the
    command line. *)
Definition run_targets {M : str_methods} (o : outside) (dir : split_dir)
    (target_files : list string) (st : state) : state :=
  foldl (λ st name,
           if bool_decide (name ∈ filename <$> files (todos st))
           then (process_file o dir name st).1.2
           else st)
        st target_files.

(** Lines 398-432, [run], without the two status views; no file named
    is the empty [target_files]. *)
Definition run {M : str_methods} (o : outside) (dir : split_dir)
    (target_files : list string)
    (num_files : nat) (rescan : bool) (st : state) : state :=
  let st := if rescan then (rescan_files dir st).2 else st in
  match target_files with
  | [] => run_pending o dir num_files st
  | _ :: _ => run_targets o dir target_files st
  end.


(** * Vocabulary of the statements *)

(** ** Notions *)

(** The order of the sort keys: numbers ascending, then the entries
    without a rank. *)
Definition rank_le (a b : option Z) : Prop :=
  match a, b with
  | Some x, Some y => (x ≤ y)%Z
  | _, None => True
  | None, Some _ => False
  end.

(** The input entries: the objects on the lines of the readable [.json]
    files, in the order of the files and, in a file, of the lines. *)
Definition line_entry (l : line) : option word_obj :=
  match l with
  | Dict w => Some w
  | _ => None
  end.

Definition entries (dir : dedup_dir) : list word_obj :=
  f ← json_files dir; omap line_entry (default [] f.2).

(** The files of a directory in the order of their names, as [sorted]
    orders a listing. *)
Definition in_filename_order (dir : gmap string (list word_obj))
  : list (list word_obj) :=
  (λ name, default [] (dir !! name)) <$> merge_sort String.le (elements (dom dir)).

(** The [i]-th run of at most [words_per_file] consecutive entries. *)
Definition chunk (input : list word_obj) (i : nat) : list word_obj :=
  take words_per_file (drop (i * words_per_file) input).

Definition loop_start (st : state) : loop_state :=
  {| run_state := st; success_count := 0; fail_count := 0; skipped_count := 0 |}.

(** The statistics of a loop state. *)
Definition stats_of (ls : loop_state) : statistics_t :=
  statistics (todos (run_state ls)).

(** Neither counter of [a] exceeds that of [b]. *)
Definition counts_le (a b : file_info) : Prop :=
  completed_words a ≤ completed_words b ∧ failed_words a ≤ failed_words b.

(** The changes of status the code makes; [readable] tells whether the
    partition file could be read. *)
Inductive transition (readable : bool) : status_t → status_t → Prop :=
  | read_error s :
      readable = false → s ≠ completed → transition readable s failed
  | start s :
      readable = true → s ≠ completed → transition readable s processing
  | progress :
      readable = true → transition readable processing processing
  | finish :
      readable = true → transition readable processing completed.

(** The changes of status the specification allows. *)
Inductive claimed_transition : status_t → status_t → Prop :=
  | claimed_start_pending : claimed_transition pending processing
  | claimed_start_failed : claimed_transition failed processing
  | claimed_finish : claimed_transition processing completed
  | claimed_fail : claimed_transition processing failed.

(** ** Invariants and intermediate states *)

(** What the loops have done after the entries [p]. *)
Definition dedup_after {M : str_methods} (p : list word_obj) : dedup_state :=
  foldl (λ st w, visit_word st (PyDict w)) dedup_init p.

(** The invariant of the two loops. *)
Record dedup_inv {M : str_methods} (p : list word_obj) (st : dedup_state)
    (pos : list nat) : Prop := {
  inv_seen : ∀ k, k ∈ seen_words st ↔ k ∈ (unique_words st).*1;
  inv_nodup : NoDup (unique_words st).*1;
  inv_keys : (unique_words st).*1 = head_word_key <$> (unique_words st).*2;
  inv_dom : ∀ k, k ∈ (unique_words st).*1 ↔ k ≠ "" ∧ k ∈ head_word_key <$> p;
  inv_first :
    Forall2 (λ i w, list_find (λ x, head_word_key x = head_word_key w) p = Some (i, w))
            pos (unique_words st).*2;
  inv_order : StronglySorted lt pos;
  inv_count : total_processed st = length p;
  inv_size : length (unique_words st) ≤ length p
}.

(** The output directory after [k] iterations, from the loaded array. *)
Definition dir_after (input : list word_obj) (dir : gmap string (list word_obj))
    (k : nat) : gmap string (list word_obj) :=
  foldl (λ fs i, <[output_filename i := renumber (chunk input i)]> fs) dir (seq 0 k).

(** [downloaded_audios] is even in memory and in every checkpoint
    written so far. *)
Definition even_downloads (st : state) : Prop :=
  Nat.Even (downloaded_audios (statistics (todos st))) ∧
  Forall (λ t, Nat.Even (downloaded_audios (statistics t))) (saved st).

(** The statistics follow the local counters of [process_file]. *)
Definition counted (d f k : nat) (ls : loop_state) : Prop :=
  downloaded_audios (stats_of ls) = d + 2 * success_count ls ∧
  failed_downloads (stats_of ls) = f + fail_count ls ∧
  skipped_phrases (stats_of ls) = k + skipped_count ls.

(** The records a rescan makes from the names [names]: one for each
    name that is not among [existing] and whose file can be read. *)
Definition new_records (dir : split_dir) (existing names : list string)
  : list file_info :=
  omap (λ name,
          if bool_decide (name ∈ existing) then None
          else (λ ws, new_file_info name (length ws)) <$> read_words dir name)
       names.

(** The invariant of the loop over the words: [mids] are the values
    assigned so far to the record at [idx], which was [r1] in the state
    [st0] the loop started from. *)
Definition loop_inv (idx : nat) (st0 : state) (r1 : file_info)
    (mids : list file_info) (ls : loop_state) : Prop :=
  file_log (run_state ls) = file_log st0 ++ ((λ x, (idx, x)) <$> mids) ∧
  files (todos (run_state ls)) = <[idx := default r1 (last mids)]> (files (todos st0)) ∧
  Forall (λ m, status m = processing
               ∧ completed_words m ≤ success_count ls
               ∧ failed_words m ≤ fail_count ls) mids ∧
  StronglySorted counts_le mids.

(** ** Concrete inputs *)

Definition entry (s : string) (r : option Z) : word_obj :=
  {| headWord := Some s; wordRank := r; fields := [] |}.

(** The scenario of the specification: three files, two spellings of
    one word. *)
Definition scenario_dir : dedup_dir :=
  [ ("a.json", Some [Dict (entry "aardvark" (Some 5%Z))]);
    ("b.json", Some [Dict (entry "Aardvark" (Some 1%Z)); Malformed]);
    ("notes.txt", Some [Dict (entry "cherry" None)]);
    ("c.json", Some [Blank; Dict (entry "banana" (Some 2%Z))]) ].

Definition scenario_output : list word_obj :=
  [ entry "banana" (Some 1%Z); entry "aardvark" (Some 2%Z) ].

(** [n] times the letter a. *)
Fixpoint letters (n : nat) : string :=
  match n with
  | 0 => ""
  | S n' => String "a" (letters n')
  end.

(** 1001 distinct words without a rank, and one file of them. *)
Definition big_words : list word_obj :=
  (λ i, entry (letters (S i)) None) <$> seq 0 1001.

Definition big_dir : dedup_dir := [ ("big.json", Some (Dict <$> big_words)) ].

(** 1001 entries for the splitter. *)
Definition big_input : list word_obj := replicate 1001 (entry "word" None).

Definition empty_world : world_t :=
  {| audio_files := ∅; requests := []; attempts := [] |}.

(** No network: every request raises. *)
Definition offline : outside :=
  {| http_get := λ _ _, RequestException; can_write := λ _, true;
     strftime := pretty |}.

(** A service that answers every request with an audio body. *)
Definition online : outside :=
  {| http_get := λ _ _, Response 200 "audio/mpeg" 2048; can_write := λ _, true;
     strftime := pretty |}.

(** A service that answers the first request and then goes away. *)
Definition flaky : outside :=
  {| http_get := λ n _, if decide (n = 0) then Response 200 "audio/mpeg" 2048
                        else RequestException;
     can_write := λ _, true; strftime := pretty |}.

Definition one_file (words : list word_obj) : split_dir :=
  {[ "words_001.json" := Some words ]}.

(** Three word objects without a usable [headWord]. *)
Definition blank_words : list word_obj :=
  [ entry "" None; {| headWord := None; wordRank := None; fields := [] |};
    entry "  " None ].

Definition rescan_dir : split_dir :=
  {[ "words_001.json" := Some []; "readme.txt" := None;
     "words_002.json" := Some [entry "dog" None; entry "emu" None] ]}.

Definition unreadable_dir : split_dir := {[ "words_001.json" := None ]}.

(** The first file has become unreadable, the second one is fine. *)
Definition blocked_dir : split_dir :=
  {[ "words_001.json" := None;
     "words_002.json" := Some [entry "dog" None; entry "emu" None] ]}.

(** Twenty-five plain words. *)
Definition many_words : list word_obj :=
  (λ i, entry ("w" +:+ pretty i) None) <$> seq 0 25.

(** Eleven words, the tenth a phrase. *)
Definition eleven_words : list word_obj :=
  [ entry "one" None; entry "two" None; entry "three" None; entry "four" None;
    entry "five" None; entry "six" None; entry "seven" None; entry "eight" None;
    entry "nine" None; entry "ice-cream" None; entry "eleven" None ].

(** The same with a plain tenth word. *)
Definition eleven_plain_words : list word_obj :=
  <[9 := entry "ten" None]> eleven_words.

(** ** Notions of the further properties *)

(** What the bookkeeping of a checkpoint rests on: name, word count and
    status of every record, the list of completed files and the three
    totals. *)
Definition skeleton (t : todos_t)
  : list (string * nat * status_t) * list string * (nat * nat * nat) :=
  ((λ r, (filename r, word_count r, status r)) <$> files t,
   completed_files t,
   (total_files (statistics t), total_words (statistics t),
    n_completed_files (statistics t))).

(** A checkpoint whose totals agree with its records and whose list of
    completed files agrees with their statuses. *)
Record todos_ok (t : todos_t) : Prop := {
  ok_total_files : total_files (statistics t) = length (files t);
  ok_total_words : total_words (statistics t) = sum_list (word_count <$> files t);
  ok_names : NoDup (filename <$> files t);
  ok_n_completed : n_completed_files (statistics t) = length (completed_files t);
  ok_completed_nodup : NoDup (completed_files t);
  ok_completed :
    ∀ name, name ∈ completed_files t
            ↔ (name, completed) ∈ (λ r, (filename r, status r)) <$> files t
}.

(** A record the fetcher picks by itself. *)
Definition waiting (r : file_info) : Prop :=
  status r = pending ∨ status r = failed.

(** The records [get_next_pending_file] chooses from. *)
Definition waiting_files (t : todos_t) : list file_info :=
  filter (λ r, status r = pending ∨ status r = failed) (files t).

(** The bookkeeping holds of the checkpoint in memory and of every
    checkpoint written so far. *)
Definition state_ok (st : state) : Prop :=
  todos_ok (todos st) ∧ Forall todos_ok (saved st).


(** The statistics after [n] files with [k] words in all were added. *)
Definition add_file_totals (n k : nat) (s : statistics_t) : statistics_t :=
  {| total_files := total_files s + n; n_completed_files := n_completed_files s;
     total_words := total_words s + k; downloaded_audios := downloaded_audios s;
     failed_downloads := failed_downloads s;
     skipped_phrases := skipped_phrases s |}.


(** Lines 186-193 of [process_file]: the state in which the loop over
    the words starts. *)
Definition start_file (o : outside) (idx : nat) (st : state) : loop_state :=
  {| run_state :=
       update_file idx
         (λ f, set_last_updated (strftime o (ticks st)) (set_status processing f))
         (read_clock o st).2;
     success_count := 0; fail_count := 0; skipped_count := 0 |}.

(** Lines 235-246 of [process_file]: the state it returns, from the
    state in which the loop ends. *)
Definition finish_file (o : outside) (idx : nat) (name : string)
    (ls : loop_state) : state :=
  let st := update_file idx
              (λ f, set_last_updated (strftime o (ticks (run_state ls)))
                      (set_status completed
                         (set_counts (success_count ls) (fail_count ls) f)))
              (read_clock o (run_state ls)).2 in
  save_todos (set_todos (mark_completed name (todos st)) st).

(** The word [process_file] reads in a word object (line 198). *)
Definition word_of {M : str_methods} (w : word_obj) : string :=
  strip (default "" (headWord w)).

(** The words of a file that are sent to the service, and its phrases. *)
Definition spoken {M : str_methods} (words : list word_obj) : list string :=
  filter (λ s, s ≠ "" ∧ is_phrase s = false) (word_of <$> words).

Definition phrases {M : str_methods} (words : list word_obj) : list string :=
  filter (λ s, s ≠ "" ∧ is_phrase s = true) (word_of <$> words).

(** The two calls of [download_audio] for a word. *)
Definition both_variants (s : string) : list (string * nat) :=
  [(s, 1); (s, 2)].


(** * Properties *)

(** ** The stable sort *)

Section sort_facts.
Context {A : Type} (key : A → option Z).

Lemma rank_lt_le a b : rank_lt a b = true → rank_le a b.
Proof.
  destruct a, b; simpl; try done.
  intros ?%bool_decide_eq_true. lia.
Qed.

Lemma rank_lt_false_le a b : rank_lt a b = false → rank_le b a.
Proof.
  destruct a, b; simpl; try done.
  intros ?%bool_decide_eq_false. lia.
Qed.

Lemma rank_le_trans a b c : rank_le a b → rank_le b c → rank_le a c.
Proof. destruct a, b, c; simpl; try done. lia. Qed.

Lemma insert_sorted_perm x l : insert_sorted rank_lt key x l ≡ₚ x :: l.
Proof.
  induction l as [|y l IH]; simpl; [done|].
  destruct (rank_lt (key y) (key x)); [|done].
  rewrite IH. apply perm_swap.
Qed.

Lemma list_sort_perm l : list_sort rank_lt key l ≡ₚ l.
Proof.
  induction l as [|x l IH]; simpl; [done|].
  by rewrite insert_sorted_perm, IH.
Qed.

Lemma insert_sorted_sorted x l :
  StronglySorted (λ a b, rank_le (key a) (key b)) l →
  StronglySorted (λ a b, rank_le (key a) (key b)) (insert_sorted rank_lt key x l).
Proof.
  induction 1 as [|y l Hl IH Hy]; simpl.
  { repeat constructor. }
  destruct (rank_lt (key y) (key x)) eqn:Hlt.
  - constructor; [done|].
    rewrite insert_sorted_perm. constructor; [|done].
    by apply rank_lt_le.
  - apply rank_lt_false_le in Hlt.
    constructor; [by constructor|].
    constructor; [done|].
    eapply Forall_impl; [exact Hy|].
    intros z Hz. by eapply rank_le_trans.
Qed.

Lemma list_sort_sorted l :
  StronglySorted (λ a b, rank_le (key a) (key b)) (list_sort rank_lt key l).
Proof.
  induction l as [|x l IH]; simpl; [constructor|].
  by apply insert_sorted_sorted.
Qed.

(** Stability: the elements of one key keep their order. *)
Lemma insert_sorted_filter r x l :
  filter (λ a, key a = r) (insert_sorted rank_lt key x l)
  = filter (λ a, key a = r) (x :: l).
Proof.
  induction l as [|y l IH]; simpl; [done|].
  destruct (rank_lt (key y) (key x)) eqn:Hlt; [|done].
  rewrite filter_cons, IH, !filter_cons.
  destruct (decide (key x = r)) as [Hx|Hx]; [|done].
  destruct (decide (key y = r)) as [Hy|Hy]; [|done].
  rewrite Hx, Hy in Hlt. destruct r; simpl in Hlt; [|done].
  apply bool_decide_eq_true in Hlt. lia.
Qed.

Lemma list_sort_stable r l :
  filter (λ a, key a = r) (list_sort rank_lt key l)
  = filter (λ a, key a = r) l.
Proof.
  induction l as [|x l IH]; simpl; [done|].
  by rewrite insert_sorted_filter, !filter_cons, IH.
Qed.

(** The elements without a key end up last, in the order they had. *)
Lemma insert_sorted_unranked x l1 l2 :
  key x = None → Forall (λ a, is_Some (key a)) l1 →
  Forall (λ a, key a = None) l2 →
  insert_sorted rank_lt key x (l1 ++ l2) = l1 ++ x :: l2.
Proof.
  intros Hx H1 H2. induction H1 as [|y l1 [z Hy] _ IH]; simpl.
  - destruct H2 as [|y l2 Hy _]; simpl; [done|]. by rewrite Hy.
  - by rewrite Hy, Hx, IH.
Qed.

Lemma insert_sorted_ranked x l1 l2 :
  is_Some (key x) → Forall (λ a, key a = None) l2 →
  insert_sorted rank_lt key x (l1 ++ l2)
  = insert_sorted rank_lt key x l1 ++ l2.
Proof.
  intros [z Hx] H2. induction l1 as [|y l1 IH]; simpl.
  - destruct H2 as [|y l2 Hy _]; simpl; [done|]. by rewrite Hy.
  - destruct (rank_lt (key y) (key x)); [|done]. by rewrite IH.
Qed.

Lemma list_sort_unranked_last l :
  list_sort rank_lt key l
  = list_sort rank_lt key (filter (λ a, is_Some (key a)) l)
    ++ filter (λ a, key a = None) l.
Proof.
  induction l as [|x l IH]; simpl; [done|].
  rewrite !filter_cons, IH.
  assert (Forall (λ a, is_Some (key a))
            (list_sort rank_lt key (filter (λ a, is_Some (key a)) l))) as H1.
  { rewrite list_sort_perm. apply Forall_forall.
    by intros a [? _]%list_elem_of_filter. }
  assert (Forall (λ a, key a = None) (filter (λ a, key a = None) l)) as H2.
  { apply Forall_forall. by intros a [? _]%list_elem_of_filter. }
  destruct (key x) as [z|] eqn:Hx.
  - rewrite decide_True by eauto. rewrite decide_False by done.
    simpl. apply insert_sorted_ranked; [by rewrite Hx; eauto|done].
  - rewrite decide_False by (intros [? ?]; done).
    rewrite decide_True by done.
    by apply insert_sorted_unranked.
Qed.

Lemma filter_all (P : A → Prop) `{!∀ a, Decision (P a)} l :
  Forall P l → filter P l = l.
Proof.
  induction 1 as [|x l Hx _ IH]; [done|].
  by rewrite filter_cons, decide_True, IH.
Qed.

Lemma filter_none (P : A → Prop) `{!∀ a, Decision (P a)} l :
  Forall (λ a, ¬ P a) l → filter P l = [].
Proof.
  induction 1 as [|x l Hx _ IH]; [done|].
  by rewrite filter_cons, decide_False.
Qed.

Lemma list_sort_split l :
  list_sort rank_lt key l
  = filter (λ a, is_Some (key a)) (list_sort rank_lt key l)
    ++ filter (λ a, key a = None) l.
Proof.
  rewrite (list_sort_unranked_last l), filter_app.
  rewrite (filter_none _ (filter _ l)), app_nil_r.
  - rewrite (filter_all (λ a, is_Some (key a)) (list_sort _ _ _)); [done|].
    rewrite list_sort_perm. apply Forall_forall.
    by intros a [? _]%list_elem_of_filter.
  - apply Forall_forall. intros a [Ha _]%list_elem_of_filter [? ?]. congruence.
Qed.
End sort_facts.

(** ** Deduplicator *)

Lemma foldl_words_data {M : str_methods} st lines :
  foldl visit_word st (words_data_of lines)
  = foldl (λ st w, visit_word st (PyDict w)) st (omap line_entry lines).
Proof.
  revert st. induction lines as [|l lines IH]; intros st; [done|].
  destruct l; simpl; by rewrite ?IH.
Qed.

Lemma foldl_visit_file {M : str_methods} st (fs : dedup_dir) :
  foldl visit_file st fs
  = foldl (λ st w, visit_word st (PyDict w)) st
          (f ← fs; omap line_entry (default [] f.2)).
Proof.
  revert st. induction fs as [|[name [lines|]] fs IH]; intros st; simpl; [done|..].
  - rewrite foldl_app, <-IH. unfold visit_file at 2; simpl.
    by rewrite foldl_words_data.
  - by rewrite IH.
Qed.

(** On ASCII text any two members of the class give the same output. *)
Lemma visit_words_ascii_text {M M' : str_methods} (ws : list word_obj) :
  Forall (λ w, is_ascii (default "" (headWord w)) = true) ws →
  ∀ st, foldl (λ st w, visit_word (M := M) st (PyDict w)) st ws
        = foldl (λ st w, visit_word (M := M') st (PyDict w)) st ws.
Proof.
  induction 1 as [|w ws Hw _ IH]; intros st; [done|].
  cbn [foldl]. rewrite <-IH. f_equal.
  unfold visit_word, head_word_key.
  by rewrite (lower_ascii_text (str_methods := M) _ Hw),
    (lower_ascii_text (str_methods := M') _ Hw).
Qed.

Lemma extract_unique_words_ascii_text {M M' : str_methods} (dir : dedup_dir) :
  Forall (λ w, is_ascii (default "" (headWord w)) = true) (entries dir) →
  extract_unique_words (M := M) dir = extract_unique_words (M := M') dir.
Proof.
  intros Hascii. unfold extract_unique_words.
  case_bool_decide; [done|].
  rewrite (foldl_visit_file (M := M)), (foldl_visit_file (M := M')).
  fold (entries dir). by rewrite (visit_words_ascii_text (M' := M') _ Hascii).
Qed.

Lemma dict_set_fresh {V} k (v : V) d : k ∉ d.*1 → dict_set k v d = d ++ [(k, v)].
Proof.
  induction d as [|[k' v'] d IH]; simpl; [done|].
  rewrite not_elem_of_cons. intros [Hk Hd].
  rewrite decide_False by done. by rewrite IH.
Qed.

Lemma dedup_inv_step {M : str_methods} p st pos x :
  dedup_inv p st pos →
  ∃ pos', dedup_inv (p ++ [x]) (visit_word st (PyDict x)) pos'.
Proof.
  intros [Hseen Hnd Hkeys Hdom Hfirst Hord Hcnt Hsize].
  assert (Forall2 (λ i w, list_find (λ y, head_word_key y = head_word_key w) (p ++ [x])
                          = Some (i, w)) pos (unique_words st).*2) as Hfirst'.
  { eapply Forall2_impl; [exact Hfirst|]. intros i w Hi. by apply list_find_app_l. }
  unfold visit_word.
  destruct (bool_decide (head_word_key x ≠ "")
            && bool_decide (head_word_key x ∉ seen_words st)) eqn:Hnew; simpl.
  - apply andb_true_iff in Hnew as [Hne%bool_decide_eq_true Hfresh%bool_decide_eq_true].
    rewrite Hseen in Hfresh.
    rewrite (dict_set_fresh _ _ _ Hfresh).
    assert (list_find (λ y, head_word_key y = head_word_key x) p = None) as Hnone.
    { apply list_find_None, Forall_forall. intros y Hy Heq.
      apply Hfresh, Hdom. split; [done|].
      rewrite <-Heq. by apply list_elem_of_fmap_2. }
    exists (pos ++ [length p]). split; simpl.
    + intros k. rewrite fmap_app, elem_of_app, elem_of_union, Hseen. simpl.
      rewrite elem_of_singleton, list_elem_of_singleton. tauto.
    + rewrite fmap_app. apply NoDup_app. split_and!; [done| |apply NoDup_singleton].
      intros k Hk ->%list_elem_of_singleton. done.
    + rewrite !fmap_app, Hkeys. done.
    + intros k. rewrite !fmap_app, !elem_of_app, Hdom. simpl.
      rewrite !list_elem_of_singleton. split.
      * intros [[? ?]| ->]; auto.
      * intros [? [?| ->]]; auto.
    + rewrite fmap_app. apply Forall2_app; [done|].
      constructor; [|constructor].
      rewrite list_find_app_r by done. simpl.
      by rewrite decide_True by done.
    + apply StronglySorted_app_2; [|done|repeat constructor].
      intros i j Hi ->%list_elem_of_singleton.
      apply list_elem_of_lookup in Hi as [n Hn].
      destruct (Forall2_lookup_l _ _ _ _ _ Hfirst Hn) as (w & _ & Hw).
      apply list_find_Some in Hw as (Hw & _). by apply lookup_lt_Some in Hw.
    + rewrite length_app. simpl. lia.
    + rewrite !length_app. simpl. lia.
  - exists pos. split; simpl;
      try (destruct (bool_decide _ && bool_decide _); simpl; done).
    + intros k. rewrite fmap_app, elem_of_app, Hdom. simpl.
      rewrite list_elem_of_singleton. split; [tauto|].
      intros [Hk [?| ->]]; [done|]. split; [done|].
      apply andb_false_iff in Hnew as [Hn|Hn].
      * apply bool_decide_eq_false in Hn. by destruct Hn.
      * apply bool_decide_eq_false in Hn.
        apply dec_stable in Hn. apply Hseen, Hdom in Hn. tauto.
    + rewrite length_app. simpl. lia.
    + rewrite length_app. simpl. lia.
Qed.

Lemma dedup_inv_after {M : str_methods} p : ∃ pos, dedup_inv p (dedup_after p) pos.
Proof.
  induction p as [|x p IH] using rev_ind.
  - exists []. split; simpl;
      [|apply NoDup_nil_2|done| |constructor|constructor|done|done];
      intros k; rewrite ?elem_of_nil, ?elem_of_empty; tauto.
  - destruct IH as [pos IH]. unfold dedup_after. rewrite foldl_snoc.
    by eapply dedup_inv_step.
Qed.

Lemma renumber_ranks l :
  wordRank <$> renumber l = (λ i, Some (Z.of_nat i)) <$> seq 1 (length l).
Proof.
  unfold renumber. rewrite fmap_imap.
  rewrite <-fmap_S_seq, <-list_fmap_compose.
  by rewrite <-(imap_seq_0 l ((λ i, Some (Z.of_nat i)) ∘ S)).
Qed.

Lemma imap_keeps_rest (f : nat → word_obj → word_obj) l :
  (∀ i w, headWord (f i w) = headWord w ∧ fields (f i w) = fields w) →
  Forall2 (λ o w, headWord o = headWord w ∧ fields o = fields w) (imap f l) l.
Proof.
  revert f. induction l as [|x l IH]; intros f Hf; simpl; [constructor|].
  constructor; [done|]. apply IH. intros i w. apply Hf.
Qed.

Lemma renumber_keeps_rest l :
  Forall2 (λ o w, headWord o = headWord w ∧ fields o = fields w) (renumber l) l.
Proof. by apply imap_keeps_rest. Qed.

(** Text outside ASCII goes through the method of the interpreter: as
    [str.lower] folds [École] onto [école], the two spellings are one
    key and the first entry met is kept. *)
Example extract_unique_words_folds_accents {M : str_methods} :
  lower "École" = "école" → lower "école" = "école" →
  extract_unique_words
    [("a.json", Some [Dict (entry "École" (Some 2%Z));
                      Dict (entry "école" (Some 1%Z))])]
  = Some [entry "École" (Some 1%Z)].
Proof.
  intros Hupper Hlower. unfold extract_unique_words.
  rewrite foldl_visit_file.
  assert (json_files [("a.json", Some [Dict (entry "École" (Some 2%Z));
                                       Dict (entry "école" (Some 1%Z))])]
          = [("a.json", Some [Dict (entry "École" (Some 2%Z));
                              Dict (entry "école" (Some 1%Z))])]) as ->
    by reflexivity.
  cbn [bool_decide decide_rel]. csimpl.
  unfold visit_word, head_word_key. simpl. rewrite Hupper, Hlower.
  vm_compute. reflexivity.
Qed.


(** The same with the member [latin1_methods], by evaluation. *)
Example extract_unique_words_accents :
  lower "École" = "école" ∧ lower "école" = "école" ∧
  extract_unique_words
    [("a.json", Some [Dict (entry "École" (Some 2%Z));
                      Dict (entry "école" (Some 1%Z))])]
  = Some [entry "École" (Some 1%Z)].
Proof. vm_compute. by split_and!. Qed.

(** C1.  When the directory has a [.json] file, the deduplicator's
    output holds exactly one entry for each distinct lowercased
    [headWord] that is not empty ([key], the [headWord] through
    [str.lower], the empty string when the member is missing), namely
    the first entry met with that key in the order of the files and of
    their lines ([firsts], at the increasing positions [pos] of the
    input); lines that do not parse and entries without a key contribute
    nothing.  The retained entries
    are sorted ascending by their original [wordRank], those without a
    rank last, entries of one rank (and the rank-less ones) in
    first-seen order, and the output gives them the ranks 1..N in that
    order, leaving every other member as it was. *)
Theorem extract_unique_words_spec {M : str_methods} (dir : dedup_dir) :
  let key (w : word_obj) := lower (default "" (headWord w)) in
  json_files dir ≠ [] →
  ∃ (pos : list nat) (firsts sorted out : list word_obj),
    extract_unique_words dir = Some out ∧
    NoDup (key <$> firsts) ∧
    (∀ k, k ∈ key <$> firsts ↔ k ≠ "" ∧ k ∈ key <$> entries dir) ∧
    Forall2 (λ i w, list_find (λ x, key x = key w) (entries dir) = Some (i, w))
            pos firsts ∧
    StronglySorted lt pos ∧
    sorted ≡ₚ firsts ∧
    StronglySorted (λ a b, rank_le (wordRank a) (wordRank b)) sorted ∧
    (∀ r, filter (λ w, wordRank w = r) sorted = filter (λ w, wordRank w = r) firsts) ∧
    sorted = filter (λ w, is_Some (wordRank w)) sorted
             ++ filter (λ w, wordRank w = None) firsts ∧
    Forall2 (λ o w, headWord o = headWord w ∧ fields o = fields w) out sorted ∧
    wordRank <$> out = (λ i, Some (Z.of_nat i)) <$> seq 1 (length out) ∧
    length out ≤ length (entries dir).
Proof.
  intros key Hfiles. change key with head_word_key. clear key.
  unfold extract_unique_words.
  rewrite bool_decide_eq_false_2 by done.
  rewrite foldl_visit_file. fold (entries dir). fold (dedup_after (entries dir)).
  destruct (dedup_inv_after (entries dir)) as [pos [_ Hnd Hkeys Hdom Hfirst Hord _ Hsize]].
  set (firsts := (unique_words (dedup_after (entries dir))).*2) in *.
  exists pos, firsts, (list_sort rank_lt wordRank firsts),
    (renumber (list_sort rank_lt wordRank firsts)).
  split_and!; try done.
  - by rewrite <-Hkeys.
  - intros k. by rewrite <-Hkeys.
  - apply list_sort_perm.
  - apply list_sort_sorted.
  - intros r. apply list_sort_stable.
  - apply list_sort_split.
  - apply renumber_keeps_rest.
  - rewrite renumber_ranks. unfold renumber. by rewrite length_imap.
  - unfold renumber. rewrite length_imap, list_sort_perm.
    unfold firsts. by rewrite length_fmap.
Qed.

(** ** Splitter *)

(** *** The names of the partition files are distinct *)

Lemma string_app_cons c s t : String c s +:+ t = String c (s +:+ t).
Proof. reflexivity. Qed.

Lemma string_app_nil s : "" +:+ s = s.
Proof. reflexivity. Qed.

Lemma string_length_app s t :
  String.length (s +:+ t) = String.length s + String.length t.
Proof.
  induction s as [|c s IH]; [done|].
  rewrite string_app_cons. simpl. by rewrite IH.
Qed.

Lemma string_app_inv_tail s1 s2 t : s1 +:+ t = s2 +:+ t → s1 = s2.
Proof.
  revert s2. induction s1 as [|c s1 IH]; intros [|d s2] H; [done|..].
  - apply (f_equal String.length) in H.
    rewrite string_app_nil, string_app_cons in H. simpl in H.
    rewrite string_length_app in H. lia.
  - apply (f_equal String.length) in H.
    rewrite string_app_nil, string_app_cons in H. simpl in H.
    rewrite string_length_app in H. lia.
  - rewrite !string_app_cons in H. injection H as -> H. f_equal. by apply IH.
Qed.

(** The decimal form of a positive number does not start with a zero. *)
Lemma pretty_N_go_head (x : N) s :
  (0 < x)%N → ∃ c s', pretty_N_go x s = String c s' ∧ c ≠ "0"%char.
Proof.
  revert s. induction (N.lt_wf_0 x) as [x _ IH]; intros s Hx.
  rewrite pretty_N_go_step by done.
  destruct (decide (x < 10)%N) as [Hlt|Hge].
  - rewrite N.div_small, pretty_N_go_0 by done.
    rewrite N.mod_small by done.
    eexists _, _. split; [done|].
    assert (x = 1 ∨ x = 2 ∨ x = 3 ∨ x = 4 ∨ x = 5 ∨ x = 6
            ∨ x = 7 ∨ x = 8 ∨ x = 9)%N as Hcases by lia.
    repeat (destruct Hcases as [->|Hcases]; [done|]). by subst.
  - apply IH.
    + apply N.div_lt; lia.
    + apply N.div_str_pos; lia.
Qed.

Lemma pretty_nat_head (n : nat) :
  0 < n → ∃ c s, pretty n = String c s ∧ c ≠ "0"%char.
Proof.
  intros Hn. unfold pretty, pretty_nat, pretty, pretty_N.
  rewrite decide_False by lia. apply pretty_N_go_head. lia.
Qed.

Lemma zeros_app_inj a b c s d t :
  c ≠ "0"%char → d ≠ "0"%char →
  zeros a +:+ String c s = zeros b +:+ String d t →
  a = b ∧ String c s = String d t.
Proof.
  intros Hc Hd. revert b. induction a as [|a IH]; intros [|b] H; simpl in H.
  - done.
  - rewrite string_app_nil, string_app_cons in H. congruence.
  - rewrite string_app_nil, string_app_cons in H. congruence.
  - rewrite !string_app_cons in H. injection H as H.
    destruct (IH _ H) as [-> ?]. done.
Qed.

Lemma format_03d_inj a b : 0 < a → 0 < b → format_03d a = format_03d b → a = b.
Proof.
  intros Ha Hb. unfold format_03d.
  destruct (pretty_nat_head a Ha) as (c & s & Es & Hc).
  destruct (pretty_nat_head b Hb) as (d & t & Et & Hd).
  rewrite Es, Et. intros [_ H]%zeros_app_inj; [|done..].
  rewrite <-Es, <-Et in H. by apply (inj pretty).
Qed.

Lemma output_filename_inj i j : output_filename i = output_filename j → i = j.
Proof.
  unfold output_filename. intros H%(inj _)%string_app_inv_tail.
  apply format_03d_inj in H; lia.
Qed.

Example output_filename_first : output_filename 0 = "words_001.json".
Proof. reflexivity. Qed.

Example output_filename_thousandth : output_filename 999 = "words_1000.json".
Proof. vm_compute. reflexivity. Qed.

(** *** The loop *)

Lemma words_per_file_pos : 0 < words_per_file.
Proof. unfold words_per_file. lia. Qed.

Lemma ceil_div_bounds n b :
  0 < b → n ≤ b * ceil_div n b ∧ b * ceil_div n b < n + b.
Proof.
  intros Hb. unfold ceil_div.
  pose proof (Nat.div_mod_eq (n + (b - 1)) b) as Hdm.
  pose proof (Nat.mod_upper_bound (n + (b - 1)) b) as Hlt.
  lia.
Qed.

#[local] Opaque words_per_file.

Lemma length_renumber l : length (renumber l) = length l.
Proof. unfold renumber. apply length_imap. Qed.

Lemma length_chunk input i :
  length (chunk input i)
  = words_per_file `min` (length input - i * words_per_file).
Proof. unfold chunk. by rewrite length_take, length_drop. Qed.

Lemma slice_chunk input wd k :
  length wd = length input →
  drop (k * words_per_file) wd = drop (k * words_per_file) input →
  slice (k * words_per_file) (((k + 1) * words_per_file) `min` length input) wd
  = chunk input k.
Proof.
  intros Hlen Hdrop. unfold slice, chunk. rewrite Hdrop.
  destruct (decide ((k + 1) * words_per_file ≤ length input)) as [Hle|Hgt].
  - f_equal. lia.
  - rewrite !take_ge; [done|rewrite length_drop; lia..].
Qed.

Lemma write_batch_loop input dir k :
  k ≤ ceil_div (length input) words_per_file →
  ∃ wd,
    foldl (write_batch (length input)) {| words_data := input; out_dir := dir |}
          (seq 0 k)
    = {| words_data := wd; out_dir := dir_after input dir k |}
    ∧ length wd = length input
    ∧ drop (k * words_per_file) wd = drop (k * words_per_file) input.
Proof.
  pose proof words_per_file_pos as Hpos.
  pose proof (ceil_div_bounds (length input) words_per_file Hpos) as [_ Hub].
  induction k as [|k IH]; intros Hk.
  { by exists input. }
  destruct IH as (wd & Hfold & Hlen & Hdrop); [lia|].
  rewrite seq_S, foldl_snoc, Hfold. simpl.
  unfold write_batch; simpl. rewrite (slice_chunk input wd k) by done.
  eexists. split; [|split].
  - f_equal. unfold dir_after. by rewrite seq_S, foldl_snoc.
  - rewrite !length_app, length_take, length_drop, length_renumber, length_chunk.
    nia.
  - destruct (decide ((k + 1) * words_per_file ≤ length input)) as [Hle|Hgt].
    + rewrite Nat.min_l by done.
      rewrite app_assoc, drop_app_length'.
      * replace ((k + 1) * words_per_file)
          with (k * words_per_file + words_per_file) by lia.
        replace (words_per_file + k * words_per_file)
          with (k * words_per_file + words_per_file) by lia.
        by rewrite <-!drop_drop, Hdrop.
      * rewrite length_app, length_take, length_renumber, length_chunk. lia.
    + rewrite !drop_ge; [done|lia|].
      rewrite !length_app, length_take, length_drop, length_renumber, length_chunk.
      nia.
Qed.

Lemma split_unique_words_dir_after input dir :
  split_unique_words input dir
  = dir_after input dir (ceil_div (length input) words_per_file).
Proof.
  unfold split_unique_words.
  destruct (write_batch_loop input dir (ceil_div (length input) words_per_file))
    as (wd & -> & _); done.
Qed.

Lemma dir_after_lookup input dir k i :
  i < k → dir_after input dir k !! output_filename i = Some (renumber (chunk input i)).
Proof.
  unfold dir_after. induction k as [|k IH]; [lia|]. intros Hi.
  rewrite seq_S, foldl_snoc. simpl.
  destruct (decide (i = k)) as [->|Hne].
  - apply lookup_insert_eq.
  - rewrite lookup_insert_ne; [apply IH; lia|].
    intros ?%output_filename_inj. lia.
Qed.

Lemma dir_after_lookup_other input dir k name :
  (∀ i, i < k → name ≠ output_filename i) →
  dir_after input dir k !! name = dir !! name.
Proof.
  unfold dir_after. induction k as [|k IH]; [done|]. intros Hname.
  rewrite seq_S, foldl_snoc. simpl.
  rewrite lookup_insert_ne; [apply IH; intros; apply Hname; lia|].
  intros <-. by apply (Hname k); [lia|].
Qed.

Lemma dir_after_size input k : size (dir_after input ∅ k) = k.
Proof.
  induction k as [|k IH]; [done|].
  unfold dir_after in *. rewrite seq_S, foldl_snoc. simpl.
  rewrite map_size_insert_None, IH; [done|].
  fold (dir_after input ∅ k). rewrite dir_after_lookup_other; [done|].
  intros i Hi ?%output_filename_inj. lia.
Qed.

Lemma read_back_dir_after input dir k :
  read_back k (dir_after input dir k) = (λ i, renumber (chunk input i)) <$> seq 0 k.
Proof.
  unfold read_back.
  assert (∀ l, Forall (λ i, i < k) l →
            omap (λ i, dir_after input dir k !! output_filename i) l
            = (λ i, renumber (chunk input i)) <$> l) as Hall.
  { induction 1 as [|i l Hi _ IH]; csimpl; [done|].
    by rewrite dir_after_lookup, IH. }
  apply Hall, Forall_forall. intros i ?%elem_of_seq. lia.
Qed.

Lemma chunk_0 l : chunk l 0 = take words_per_file l.
Proof. done. Qed.

Lemma chunk_S l i : chunk l (S i) = chunk (drop words_per_file l) i.
Proof. unfold chunk. rewrite drop_drop. do 2 f_equal. Qed.

Lemma concat_chunks l t :
  length l ≤ words_per_file * t →
  concat ((λ i, renumber (chunk l i)) <$> seq 0 t)
  = imap (λ k w, set_wordRank (k `mod` words_per_file + 1) w) l.
Proof.
  pose proof words_per_file_pos as Hpos.
  revert l. induction t as [|t IH]; intros l Hl.
  { destruct l; [done|]. simpl in Hl. lia. }
  rewrite <-cons_seq, fmap_cons, <-fmap_S_seq, <-list_fmap_compose.
  rewrite (list_fmap_ext _ (λ i, renumber (chunk (drop words_per_file l) i)) (seq 0 t))
    by (intros; simpl; by rewrite chunk_S).
  simpl. rewrite IH by (rewrite length_drop; lia).
  rewrite chunk_0.
  rewrite <-(take_drop words_per_file l) at 3. rewrite imap_app. f_equal.
  - apply imap_ext. intros i w Hi%lookup_lt_Some. simpl.
    rewrite length_take in Hi. rewrite Nat.mod_small by lia. f_equal. lia.
  - destruct (decide (length l ≤ words_per_file)) as [Hle|Hgt].
    { by rewrite drop_ge. }
    apply imap_ext. intros i w _. simpl. rewrite length_take_le by lia.
    replace (words_per_file + i) with (i + 1 * words_per_file) by lia.
    by rewrite Nat.Div0.mod_add.
Qed.

Lemma length_concat_sum {A} (ls : list (list A)) :
  length (concat ls) = sum_list (length <$> ls).
Proof.
  induction ls as [|l ls IH]; [done|].
  simpl. by rewrite length_app, IH.
Qed.

Lemma joined_partitions input dir :
  concat (read_back (ceil_div (length input) words_per_file)
                    (split_unique_words input dir))
  = imap (λ k w, set_wordRank (k `mod` words_per_file + 1) w) input.
Proof.
  rewrite split_unique_words_dir_after, read_back_dir_after.
  apply concat_chunks, ceil_div_bounds, words_per_file_pos.
Qed.

Lemma set_wordRank_id i w : wordRank w = Some (Z.of_nat i) → set_wordRank i w = w.
Proof. destruct w; simpl. by intros ->. Qed.

Lemma dir_after_dom input k :
  dom (dir_after input ∅ k) = list_to_set (output_filename <$> seq 0 k).
Proof.
  induction k as [|k IH]; [done|].
  unfold dir_after in *. rewrite seq_S, foldl_snoc, fmap_app, list_to_set_app_L.
  simpl. rewrite dom_insert_L, IH. set_solver.
Qed.

(** C3.  From an array of N entries and an empty output directory the
    splitter leaves exactly ceil(N/1000) partition files, named
    [words_{index:03d}.json] for the indices 1..ceil(N/1000); the file of
    index i+1 holds the entries at positions 1000*i .. of the array, at
    most 1000 of them and exactly 1000 unless it is the last file, with
    [wordRank] renumbered 1..len(chunk) and nothing else changed; the
    files together hold N entries. *)
Theorem split_unique_words_spec (input : list word_obj) :
  let n := length input in
  let total_files := ceil_div n words_per_file in
  let out := split_unique_words input ∅ in
  size out = total_files ∧
  n ≤ words_per_file * total_files ∧
  words_per_file * total_files < n + words_per_file ∧
  (∀ name, name ∈ dom out ↔
     ∃ index, 1 ≤ index ≤ total_files
              ∧ name = "words_" +:+ format_03d index +:+ ".json") ∧
  (∀ i, i < total_files →
     ∃ batch,
       out !! output_filename i = Some batch ∧
       Forall2 (λ o w, headWord o = headWord w ∧ fields o = fields w)
               batch (take words_per_file (drop (i * words_per_file) input)) ∧
       1 ≤ length batch ≤ words_per_file ∧
       (i + 1 < total_files → length batch = words_per_file) ∧
       wordRank <$> batch = (λ r, Some (Z.of_nat r)) <$> seq 1 (length batch)) ∧
  sum_list (length <$> read_back total_files out) = n.
Proof.
  intros n total_files out.
  pose proof words_per_file_pos as Hpos.
  pose proof (ceil_div_bounds n words_per_file Hpos) as [Hlb Hub].
  fold total_files in Hlb, Hub.
  unfold out. rewrite split_unique_words_dir_after. fold n total_files.
  split_and!; [apply dir_after_size|done|done|..].
  - intros name. rewrite dir_after_dom, elem_of_list_to_set, list_elem_of_fmap.
    split.
    + intros (i & -> & Hi%elem_of_seq). exists (i + 1). split; [lia|done].
    + intros (index & Hi & ->). exists (index - 1). split.
      * unfold output_filename. do 3 f_equal. lia.
      * apply elem_of_seq. lia.
  - intros i Hi. exists (renumber (chunk input i)).
    split_and!.
    + by apply dir_after_lookup.
    + apply renumber_keeps_rest.
    + rewrite length_renumber, length_chunk. fold n. nia.
    + rewrite length_renumber, length_chunk. lia.
    + rewrite length_renumber, length_chunk. fold n. nia.
    + rewrite renumber_ranks. by rewrite length_renumber.
  - rewrite <-length_concat_sum, read_back_dir_after, concat_chunks by done.
    apply length_imap.
Qed.

(** *** The order of the names and the order of the indices *)

Lemma output_filenames_sorted k :
  k ≤ 999 → StronglySorted String.le (output_filename <$> seq 0 k).
Proof.
  intros Hk.
  assert (Sorted String.le (output_filename <$> seq 0 999)) as Hall.
  { apply (bool_decide_unpack _). vm_compute. exact I. }
  apply (Sorted_StronglySorted _) in Hall.
  replace 999 with (k + (999 - k)) in Hall by lia.
  rewrite seq_app, fmap_app in Hall.
  by apply StronglySorted_app_1_l in Hall.
Qed.

(** From the thousandth file on, the names are no longer in the order
    of the indices. *)
Lemma output_filenames_unsorted :
  String.le (output_filename 999) (output_filename 100) ∧
  ¬ String.le (output_filename 100) (output_filename 999).
Proof. split; apply (bool_decide_unpack _); vm_compute; exact I. Qed.

Lemma sorted_names_dir_after input k :
  k ≤ 999 →
  merge_sort String.le (elements (dom (dir_after input ∅ k)))
  = output_filename <$> seq 0 k.
Proof.
  intros Hk. apply (StronglySorted_unique String.le).
  - apply (StronglySorted_merge_sort _).
  - by apply output_filenames_sorted.
  - rewrite merge_sort_Permutation, dir_after_dom.
    apply elements_list_to_set, NoDup_fmap_2, NoDup_seq.
    intros i j. apply output_filename_inj.
Qed.

Lemma in_filename_order_dir_after input k :
  k ≤ 999 →
  in_filename_order (dir_after input ∅ k) = read_back k (dir_after input ∅ k).
Proof.
  intros Hk. unfold in_filename_order.
  rewrite sorted_names_dir_after, read_back_dir_after, <-list_fmap_compose by done.
  apply list_fmap_ext. intros j i [-> Hi]%lookup_seq. simpl.
  by rewrite dir_after_lookup.
Qed.

Lemma few_partitions n :
  n ≤ 999 * words_per_file → ceil_div n words_per_file ≤ 999.
Proof.
  intros Hn. pose proof words_per_file_pos as Hpos.
  pose proof (ceil_div_bounds n words_per_file Hpos) as [_ Hup]. nia.
Qed.

(** The files written into an empty directory, joined in the order of
    their names. *)
Lemma joined_in_filename_order input :
  length input ≤ 999 * words_per_file →
  concat (in_filename_order (split_unique_words input ∅))
  = imap (λ k w, set_wordRank (k `mod` words_per_file + 1) w) input.
Proof.
  intros Hlen. rewrite <-(joined_partitions input ∅).
  rewrite split_unique_words_dir_after.
  by rewrite in_filename_order_dir_after by by apply few_partitions.
Qed.

Lemma set_wordRank_fixed i w :
  set_wordRank i w = w ↔ wordRank w = Some (Z.of_nat i).
Proof.
  split; [|apply set_wordRank_id].
  intros Heq. by rewrite <-Heq.
Qed.

(** The renumbering of the splitter gives the list back exactly when
    every entry bears its position in its chunk already. *)
Lemma renumbered_fixed (input : list word_obj) :
  imap (λ k w, set_wordRank (k `mod` words_per_file + 1) w) input = input
  ↔ ∀ k w, input !! k = Some w
           → wordRank w = Some (Z.of_nat (k `mod` words_per_file + 1)).
Proof.
  split.
  - intros Heq k w Hw. apply (f_equal (λ l, l !! k)) in Heq.
    rewrite list_lookup_imap, Hw in Heq. simpl in Heq.
    injection Heq as Heq. by apply set_wordRank_fixed.
  - intros Hall. apply list_eq. intros k. rewrite list_lookup_imap.
    destruct (input !! k) as [w|] eqn:Hw; [|done]. simpl. f_equal.
    by apply set_wordRank_fixed, Hall.
Qed.

(** For a list that bears the ranks 1..N, as the outputs of the
    deduplicator do, that is the case exactly up to one partition. *)
Lemma renumbered_fixed_ranked (input : list word_obj) :
  wordRank <$> input = (λ r, Some (Z.of_nat r)) <$> seq 1 (length input) →
  imap (λ k w, set_wordRank (k `mod` words_per_file + 1) w) input = input
  ↔ length input ≤ words_per_file.
Proof.
  intros Hranks. pose proof words_per_file_pos as Hpos.
  assert (∀ k w, input !! k = Some w → wordRank w = Some (Z.of_nat (S k)))
    as Hrank.
  { intros k w Hw. pose proof (lookup_lt_Some _ _ _ Hw) as Hk.
    apply (f_equal (λ l, l !! k)) in Hranks.
    rewrite !list_lookup_fmap, Hw, lookup_seq_lt in Hranks by done.
    simpl in Hranks. by injection Hranks. }
  rewrite renumbered_fixed. split.
  - intros Hall. destruct (decide (length input ≤ words_per_file)); [done|].
    destruct (lookup_lt_is_Some_2 input words_per_file) as [w Hw]; [lia|].
    pose proof (Hall _ _ Hw) as H1. pose proof (Hrank _ _ Hw) as H2.
    rewrite Nat.Div0.mod_same in H1. rewrite H1 in H2.
    injection H2 as H2. lia.
  - intros Hlen k w Hw. pose proof (lookup_lt_Some _ _ _ Hw) as Hk.
    rewrite Nat.mod_small by lia. rewrite (Hrank _ _ Hw). do 2 f_equal. lia.
Qed.

Lemma extract_unique_words_ranks {M : str_methods} d out :
  extract_unique_words d = Some out →
  wordRank <$> out = (λ r, Some (Z.of_nat r)) <$> seq 1 (length out).
Proof.
  unfold extract_unique_words. case_bool_decide; [done|].
  intros [= <-]. rewrite renumber_ranks. by rewrite length_renumber.
Qed.

(** C2, as the code has it.  Joined in the order of their names, the
    partition files written into an empty directory from a list of at
    most 999000 entries, that is at most 999 files, give the input list
    with one change: the [wordRank] of the entry at position k (from 0)
    is its position in its chunk, [k mod 1000 + 1].  Up to 999 files the
    order of the names is the order of the indices, in which the
    verification reads the files back.  So the entries come in the
    input's order with every member other than [wordRank] as it was, and
    the concatenation is the input itself exactly when every entry bears
    its position in its chunk already; for a list that bears the ranks
    1..N, an output of the deduplicator among them, exactly when the
    list has at most 1000 entries. *)
Theorem split_concat_spec {M : str_methods} (input : list word_obj) :
  let total_files := ceil_div (length input) words_per_file in
  let dir := split_unique_words input ∅ in
  let joined := concat (in_filename_order dir) in
  length input ≤ 999 * words_per_file →
  in_filename_order dir = read_back total_files dir ∧
  joined = imap (λ k w, set_wordRank (k `mod` words_per_file + 1) w) input ∧
  Forall2 (λ o w, headWord o = headWord w ∧ fields o = fields w) joined input ∧
  (joined = input
   ↔ ∀ k w, input !! k = Some w
            → wordRank w = Some (Z.of_nat (k `mod` words_per_file + 1))) ∧
  (wordRank <$> input = (λ r, Some (Z.of_nat r)) <$> seq 1 (length input) →
   (joined = input ↔ length input ≤ words_per_file)) ∧
  ((∃ d, extract_unique_words d = Some input) →
   (joined = input ↔ length input ≤ words_per_file)).
Proof.
  intros total_files dir joined Hlen. unfold joined, dir, total_files.
  rewrite joined_in_filename_order by done.
  split_and!.
  - rewrite split_unique_words_dir_after.
    by apply in_filename_order_dir_after, few_partitions.
  - done.
  - by apply imap_keeps_rest.
  - apply renumbered_fixed.
  - apply renumbered_fixed_ranked.
  - intros [d Hd]. by eapply renumbered_fixed_ranked, extract_unique_words_ranks.
Qed.

(** *** Outputs of the deduplicator longer than one partition *)

Lemma dedup_fresh_entries {M : str_methods} st p :
  NoDup (head_word_key <$> p) →
  Forall (λ w, head_word_key w ≠ "") p →
  (∀ w, w ∈ p → head_word_key w ∉ seen_words st) →
  (∀ k, k ∈ seen_words st ↔ k ∈ (unique_words st).*1) →
  (unique_words (foldl (λ st w, visit_word st (PyDict w)) st p)).*2
  = (unique_words st).*2 ++ p.
Proof.
  revert st. induction p as [|x p IH]; intros st Hnd Hne Hfresh Hseen; simpl.
  { by rewrite app_nil_r. }
  apply NoDup_cons in Hnd as [Hx Hnd]. apply Forall_cons in Hne as [Hxne Hne].
  assert (head_word_key x ∉ seen_words st) as Hxs by (apply Hfresh; by left).
  rewrite bool_decide_eq_true_2, bool_decide_eq_true_2 by done. simpl.
  rewrite dict_set_fresh by (by rewrite <-Hseen).
  rewrite IH; simpl; [|done|done|..].
  - by rewrite fmap_app, <-app_assoc.
  - intros w Hw. rewrite elem_of_union, elem_of_singleton. intros [Heq|Hin].
    + apply Hx. rewrite <-Heq. by apply list_elem_of_fmap_2.
    + by apply (Hfresh w); [right|].
  - intros k. rewrite fmap_app, elem_of_app, elem_of_union, Hseen. simpl.
    rewrite elem_of_singleton, list_elem_of_singleton. tauto.
Qed.

Lemma omap_line_entry (ws : list word_obj) :
  omap line_entry (Dict <$> ws) = ws.
Proof. induction ws as [|w ws IH]; csimpl; [done|]. by rewrite IH. Qed.

Lemma extract_unique_words_distinct {M : str_methods} name ws :
  endswith name ".json" = true →
  NoDup (head_word_key <$> ws) →
  Forall (λ w, head_word_key w ≠ "") ws →
  extract_unique_words [(name, Some (Dict <$> ws))]
  = Some (renumber (list_sort rank_lt wordRank ws)).
Proof.
  intros Hname Hnd Hne. unfold extract_unique_words.
  assert (json_files [(name, Some (Dict <$> ws))] = [(name, Some (Dict <$> ws))])
    as ->.
  { unfold json_files. by rewrite filter_cons, decide_True. }
  cbv zeta. rewrite bool_decide_eq_false_2 by done.
  rewrite foldl_visit_file.
  assert (([(name, Some (Dict <$> ws))] : dedup_dir)
            ≫= (λ f, omap line_entry (default [] f.2)) = ws) as ->.
  { csimpl. by rewrite app_nil_r, omap_line_entry. }
  rewrite dedup_fresh_entries; [done|done|done|..].
  - intros w _. apply not_elem_of_empty.
  - intros k. simpl. rewrite elem_of_empty, elem_of_nil. tauto.
Qed.

Lemma lower_letters n : ascii_lower (letters n) = letters n.
Proof. induction n as [|n IH]; simpl; [done|]. by rewrite IH. Qed.

Lemma length_letters n : String.length (letters n) = n.
Proof. induction n as [|n IH]; simpl; [done|]. by rewrite IH. Qed.

Lemma is_ascii_letters n : is_ascii (letters n) = true.
Proof. induction n as [|n IH]; [done|]. simpl. exact IH. Qed.

Lemma extract_unique_words_big {M : str_methods} :
  extract_unique_words big_dir
  = Some (renumber (list_sort rank_lt wordRank big_words)).
Proof.
  assert (∀ i, head_word_key (entry (letters (S i)) None) = letters (S i))
    as Hkey.
  { intros i. unfold head_word_key. cbn [entry headWord default from_option id].
    by rewrite lower_ascii_text, lower_letters by apply is_ascii_letters. }
  apply extract_unique_words_distinct; [done|..].
  - unfold big_words. rewrite <-list_fmap_compose.
    apply NoDup_fmap_2; [|apply NoDup_seq].
    intros i j Hij. cbn [compose] in Hij. rewrite !Hkey in Hij.
    apply (f_equal String.length) in Hij. rewrite !length_letters in Hij. lia.
  - unfold big_words. apply Forall_fmap, Forall_forall. intros i _.
    cbn [compose]. by rewrite Hkey.
Qed.

(** An output of the deduplicator longer than a partition does not come
    back from the splitter as it was. *)
Lemma long_output_not_reproduced {M : str_methods} d out :
  extract_unique_words d = Some out →
  words_per_file < length out → length out ≤ 999 * words_per_file →
  concat (in_filename_order (split_unique_words out ∅)) ≠ out.
Proof.
  intros Hd Hlong Hlen. rewrite joined_in_filename_order by done.
  rewrite (renumbered_fixed_ranked out) by by eapply extract_unique_words_ranks.
  lia.
Qed.

#[local] Transparent words_per_file.

(** *** The scenario of the specification and the round trip *)

Example extract_unique_words_scenario {M : str_methods} :
  extract_unique_words scenario_dir = Some scenario_output.
Proof.
  rewrite (extract_unique_words_ascii_text (M' := latin1_methods));
    [by vm_compute|].
  vm_compute entries. by repeat constructor.
Qed.

Lemma extract_unique_words_spec_witness :
  json_files scenario_dir ≠ [] ∧
  ∃ out, extract_unique_words scenario_dir = Some out
         ∧ out = scenario_output
         ∧ wordRank <$> out = (λ i, Some (Z.of_nat i)) <$> seq 1 (length out)
         ∧ length out ≤ length (entries scenario_dir).
Proof.
  assert (json_files scenario_dir ≠ []) as H.
  { intros H. vm_compute in H. discriminate H. }
  split; [exact H|].
  destruct (extract_unique_words_spec scenario_dir H)
    as (pos & firsts & sorted & out & Hout & _ & _ & _ & _ & _ & _ & _ & _ & _ & Hr & Hl).
  exists out. split_and!; [exact Hout| |exact Hr|exact Hl].
  rewrite extract_unique_words_scenario in Hout. by injection Hout.
Defined.

Lemma split_unique_words_spec_witness :
  0 < ceil_div (length big_input) words_per_file ∧
  0 + 1 < ceil_div (length big_input) words_per_file ∧
  ∃ batch, split_unique_words big_input ∅ !! output_filename 0 = Some batch
           ∧ length batch = words_per_file.
Proof.
  assert (0 < ceil_div (length big_input) words_per_file) as H1.
  { vm_compute. lia. }
  assert (0 + 1 < ceil_div (length big_input) words_per_file) as H2.
  { vm_compute. lia. }
  split_and!; [exact H1|exact H2|].
  destruct (split_unique_words_spec big_input) as (_ & _ & _ & _ & Hb & _).
  destruct (Hb 0 H1) as (batch & Hlookup & _ & _ & Hfull & _).
  exists batch. auto.
Defined.

(** C2 as stated fails: a single entry of rank 5 comes back with rank
    1, and of the 1001 entries the deduplicator makes of [big_dir] the
    last, of rank 1001, comes back with rank 1.  And from the thousandth
    file on the names are not in the order of the indices:
    [words_1000.json] comes before [words_101.json]. *)
Lemma split_concat_counterexample :
  concat (in_filename_order (split_unique_words [entry "a" (Some 5%Z)] ∅))
  ≠ [entry "a" (Some 5%Z)]
  ∧ (∃ out, extract_unique_words big_dir = Some out
            ∧ concat (in_filename_order (split_unique_words out ∅)) ≠ out)
  ∧ output_filename 999 = "words_1000.json"
  ∧ output_filename 100 = "words_101.json"
  ∧ String.le (output_filename 999) (output_filename 100)
  ∧ ¬ String.le (output_filename 100) (output_filename 999).
Proof.
  assert (length (renumber (list_sort rank_lt wordRank big_words)) = 1001) as Hbig.
  { rewrite length_renumber, list_sort_perm.
    unfold big_words. by rewrite length_fmap, length_seq. }
  split_and!.
  - intros H. vm_compute in H. discriminate H.
  - eexists. split; [apply extract_unique_words_big|].
    apply (long_output_not_reproduced big_dir); [apply extract_unique_words_big|..];
      rewrite Hbig; unfold words_per_file; lia.
  - vm_compute. reflexivity.
  - vm_compute. reflexivity.
  - apply output_filenames_unsorted.
  - apply output_filenames_unsorted.
Qed.

Lemma split_concat_spec_witness :
  length scenario_output ≤ 999 * words_per_file ∧
  (∃ d, extract_unique_words d = Some scenario_output) ∧
  length scenario_output ≤ words_per_file ∧
  concat (in_filename_order (split_unique_words scenario_output ∅))
  = scenario_output.
Proof.
  assert (length scenario_output ≤ 999 * words_per_file) as H1.
  { unfold scenario_output, words_per_file. simpl length. lia. }
  assert (∃ d, extract_unique_words d = Some scenario_output) as H2.
  { exists scenario_dir. apply extract_unique_words_scenario. }
  assert (length scenario_output ≤ words_per_file) as H3.
  { vm_compute. lia. }
  split_and!; [exact H1|exact H2|exact H3|].
  destruct (split_concat_spec scenario_output H1) as (_ & _ & _ & _ & _ & Hdedup).
  exact (proj2 (Hdedup H2) H3).
Defined.

(** ** Audio fetcher *)

(** *** One word *)

Example strip_inner_space {M : str_methods} :
  strip "  ice cream " = "ice cream".
Proof. by rewrite strip_ascii_text. Qed.

Example audio_url_cat {M : str_methods} :
  audio_url "Cat" 2 = "https://dict.youdao.com/dictvoice?audio=cat&type=2".
Proof. unfold audio_url. by rewrite lower_ascii_text. Qed.

Example quote_space : quote "a b" = "a%20b".
Proof. reflexivity. Qed.

Lemma is_phrase_nonempty word : is_phrase word = true → word ≠ "".
Proof. by intros H ->. Qed.

Lemma download_audio_attempts {M : str_methods} o word audio_type w :
  attempts (download_audio o word audio_type w).2
  = attempts w ++ [(word, audio_type)].
Proof.
  unfold download_audio. repeat (case_match || case_bool_decide); done.
Qed.

Lemma download_audio_phrase {M : str_methods} o word audio_type w :
  is_phrase word = true →
  download_audio o word audio_type w
  = (false, PhraseSkipped, log_attempt word audio_type w).
Proof. unfold download_audio. by intros ->. Qed.

(** *** ASCII text

    On ASCII text the two string methods are the same in every member
    of the class, so that what is computed with one member on an ASCII
    input holds for every member. *)

Lemma is_ascii_rev_app s1 s2 :
  is_ascii (String.rev_app s1 s2) = is_ascii s1 && is_ascii s2.
Proof.
  revert s2. induction s1 as [|c s1 IH]; intros s2; simpl; [done|].
  rewrite IH. simpl. by destruct (N_of_ascii c <? 128)%N, (is_ascii s1).
Qed.

Lemma is_ascii_rev s : is_ascii (String.rev s) = is_ascii s.
Proof. unfold String.rev. rewrite is_ascii_rev_app. simpl. apply andb_true_r. Qed.

Lemma is_ascii_lstrip s : is_ascii s = true → is_ascii (ascii_lstrip s) = true.
Proof.
  induction s as [|c s IH]; simpl; [done|].
  intros [Hc Hs]%andb_true_iff. destruct (is_whitespace c); [by apply IH|].
  simpl. by rewrite Hc, Hs.
Qed.

Lemma is_ascii_strip s : is_ascii s = true → is_ascii (ascii_strip s) = true.
Proof.
  intros Hs. unfold ascii_strip.
  rewrite is_ascii_rev. apply is_ascii_lstrip.
  rewrite is_ascii_rev. by apply is_ascii_lstrip.
Qed.

Lemma download_audio_ascii_text {M M' : str_methods} o word audio_type w :
  is_ascii word = true →
  download_audio (M := M) o word audio_type w
  = download_audio (M := M') o word audio_type w.
Proof.
  intros Hword. unfold download_audio, audio_url.
  by rewrite (lower_ascii_text (str_methods := M) word Hword),
    (lower_ascii_text (str_methods := M') word Hword).
Qed.

Lemma process_word_ascii_text {M M' : str_methods} o idx ls i wobj :
  is_ascii (default "" (headWord wobj)) = true →
  process_word (M := M) o idx ls (i, wobj)
  = process_word (M := M') o idx ls (i, wobj).
Proof.
  intros Hword. unfold process_word.
  rewrite (strip_ascii_text (str_methods := M) _ Hword),
    (strip_ascii_text (str_methods := M') _ Hword).
  set (word := ascii_strip (default "" (headWord wobj))).
  assert (is_ascii word = true) as Hascii by by apply is_ascii_strip.
  case_bool_decide; [done|]. destruct (is_phrase word); [done|].
  rewrite (download_audio_ascii_text (M := M) (M' := M') o word 1 _ Hascii).
  destruct (download_audio o word 1 _) as [[success_uk msg_uk] w1].
  by rewrite (download_audio_ascii_text (M := M) (M' := M') o word 2 _ Hascii).
Qed.

Lemma process_words_ascii_text {M M' : str_methods} o idx words :
  Forall (λ w, is_ascii (default "" (headWord w)) = true) words →
  ∀ start ls,
    foldl (process_word (M := M) o idx) ls (enumerate start words)
    = foldl (process_word (M := M') o idx) ls (enumerate start words).
Proof.
  induction 1 as [|w words Hw _ IH]; intros start ls; [done|].
  cbn [enumerate foldl].
  by rewrite (process_word_ascii_text (M' := M') o idx ls start w Hw), IH.
Qed.

Lemma process_file_ascii_text {M M' : str_methods} o dir name st :
  (∀ words, read_words dir name = Some words →
            Forall (λ w, is_ascii (default "" (headWord w)) = true) words) →
  process_file (M := M) o dir name st = process_file (M := M') o dir name st.
Proof.
  intros Hwords. unfold process_file.
  destruct (list_find _ _) as [[idx r]|]; [|done].
  case_bool_decide; [done|].
  destruct (read_words dir name) as [words|]; [|done].
  simpl.
  by rewrite (process_words_ascii_text (M' := M') o idx words
                (Hwords words eq_refl)).
Qed.

(** *** Text outside ASCII

    Text outside ASCII goes through the methods of the interpreter. *)

(** As [str.lower] folds the capital E with acute accent, the request
    for [ÉCOLE] is the request for [école]. *)
Example audio_url_folds_accents {M : str_methods} :
  lower "ÉCOLE" = "école" →
  audio_url "ÉCOLE" 1
  = "https://dict.youdao.com/dictvoice?audio=%C3%A9cole&type=1".
Proof. unfold audio_url. intros ->. vm_compute. reflexivity. Qed.

(** As [str.strip] removes the ideographic space U+3000, a [headWord]
    that is nothing else is passed over as a blank one. *)
Example process_word_ideographic_space {M : str_methods} o idx ls i :
  strip "　" = "" →
  process_word o idx ls (i, entry "　" None) = ls.
Proof.
  intros Hstrip. unfold process_word. simpl. by rewrite Hstrip.
Qed.

(** As [str.strip] removes the no-break space U+00A0 with the space
    after it, the [headWord] made of the two and of [cat] is the plain
    word [cat], which is asked for twice. *)
Example process_word_no_break_space {M : str_methods} o idx ls i :
  strip "  cat" = "cat" →
  process_word o idx ls (i, entry "  cat" None)
  = process_word o idx ls (i, entry "cat" None)
  ∧ requests (world (run_state
       (process_word offline 0
          (loop_start (load_or_create_todos ∅ [] empty_world))
          (1, entry "  cat" None))))
    = [ "https://dict.youdao.com/dictvoice?audio=cat&type=1";
        "https://dict.youdao.com/dictvoice?audio=cat&type=2" ].
Proof.
  intros Hstrip.
  assert (∀ o idx ls i,
            process_word o idx ls (i, entry "  cat" None)
            = process_word o idx ls (i, entry "cat" None)) as Hsame.
  { intros. unfold process_word. simpl.
    by rewrite Hstrip, (strip_ascii_text "cat"). }
  split; [apply Hsame|].
  rewrite Hsame, (process_word_ascii_text (M' := latin1_methods))
    by reflexivity.
  vm_compute. reflexivity.
Qed.

(** The same with the member [latin1_methods], by evaluation: the
    request for [ÉCOLE], the ideographic space passed over, the
    no-break space removed. *)
Example process_word_outside_ascii :
  let ls := loop_start (load_or_create_todos ∅ [] empty_world) in
  audio_url "ÉCOLE" 1
  = "https://dict.youdao.com/dictvoice?audio=%C3%A9cole&type=1" ∧
  strip "　" = "" ∧
  process_word online 0 ls (1, entry "　" None) = ls ∧
  strip "  cat" = "cat" ∧
  requests (world (run_state (process_word offline 0 ls (1, entry "  cat" None))))
  = [ "https://dict.youdao.com/dictvoice?audio=cat&type=1";
      "https://dict.youdao.com/dictvoice?audio=cat&type=2" ].
Proof. vm_compute. by split_and!. Qed.

(** C4, as the code has it.  For a word object whose [headWord], once
    stripped of surrounding white space, contains a space or a hyphen,
    the loop body leaves the world as it is (no request, no audio file,
    no call of [download_audio]), adds exactly 1 to [skipped_phrases]
    and to the local [skipped_count], and changes neither
    [downloaded_audios], [failed_downloads] nor the two other counters.
    [download_audio] itself, called on such a word, fails without a
    request and without a file. *)
Theorem process_word_phrase {M : str_methods} o idx ls i wobj :
  let word := strip (default "" (headWord wobj)) in
  is_phrase word = true →
  let ls' := process_word o idx ls (i, wobj) in
  world (run_state ls') = world (run_state ls) ∧
  skipped_phrases (stats_of ls') = skipped_phrases (stats_of ls) + 1 ∧
  downloaded_audios (stats_of ls') = downloaded_audios (stats_of ls) ∧
  failed_downloads (stats_of ls') = failed_downloads (stats_of ls) ∧
  success_count ls' = success_count ls ∧
  fail_count ls' = fail_count ls ∧
  skipped_count ls' = skipped_count ls + 1 ∧
  saved (run_state ls') = saved (run_state ls) ∧
  ∀ audio_type w,
    (download_audio o word audio_type w).1.1 = false ∧
    requests (download_audio o word audio_type w).2 = requests w ∧
    audio_files (download_audio o word audio_type w).2 = audio_files w.
Proof.
  intros word Hphrase ls'. unfold ls', process_word. fold word.
  rewrite bool_decide_eq_false_2 by by apply is_phrase_nonempty.
  rewrite Hphrase. simpl. split_and!; try done.
  intros audio_type w. by rewrite download_audio_phrase.
Qed.

Lemma process_word_phrase_witness :
  let ls := loop_start (load_or_create_todos ∅ [] empty_world) in
  let ls' := process_word online 0 ls (1, entry " ice-cream" None) in
  is_phrase (strip (default "" (headWord (entry " ice-cream" None)))) = true ∧
  world (run_state ls') = world (run_state ls) ∧
  skipped_phrases (stats_of ls') = skipped_phrases (stats_of ls) + 1.
Proof.
  intros ls ls'.
  assert (is_phrase (strip (default "" (headWord (entry " ice-cream" None)))) = true)
    as H by reflexivity.
  split; [exact H|].
  destruct (process_word_phrase online 0 ls 1 (entry " ice-cream" None) H)
    as (Hw & Hs & _).
  by split.
Defined.

(** C4 as stated fails on white space at the ends of a [headWord]:
    [" cat"] contains a space, yet after stripping it is the plain word
    [cat], which is requested twice and counted as a failed download
    here, not as a skipped phrase; and [" "], which contains a space, is
    dropped as an empty word without being counted at all. *)
Lemma process_word_phrase_counterexample :
  let ls := loop_start (load_or_create_todos ∅ [] empty_world) in
  (let ls' := process_word offline 0 ls (1, entry " cat" None) in
   is_phrase (default "" (headWord (entry " cat" None))) = true ∧
   requests (world (run_state ls'))
   = [ "https://dict.youdao.com/dictvoice?audio=cat&type=1";
       "https://dict.youdao.com/dictvoice?audio=cat&type=2" ] ∧
   skipped_phrases (stats_of ls') = skipped_phrases (stats_of ls) ∧
   failed_downloads (stats_of ls') = failed_downloads (stats_of ls) + 1) ∧
  (let ls' := process_word offline 0 ls (1, entry " " None) in
   is_phrase (default "" (headWord (entry " " None))) = true ∧
   skipped_phrases (stats_of ls') = skipped_phrases (stats_of ls)).
Proof. vm_compute. split_and!; reflexivity. Qed.

(** C5.  For a word that is neither empty nor a phrase, the loop body
    calls [download_audio] for type 1 and then for type 2, whatever the
    first call returned.  When both calls succeed, [success_count] grows
    by 1 and [downloaded_audios] by 2 and the failure counters stay;
    otherwise [fail_count] and [failed_downloads] grow by 1 and the
    success counters stay. *)
Theorem process_word_both_variants {M : str_methods} o idx ls i wobj :
  let word := strip (default "" (headWord wobj)) in
  word ≠ "" → is_phrase word = false →
  let ls' := process_word o idx ls (i, wobj) in
  let uk := download_audio o word 1 (world (run_state ls)) in
  let us := download_audio o word 2 uk.2 in
  attempts (world (run_state ls'))
  = attempts (world (run_state ls)) ++ [(word, 1); (word, 2)] ∧
  world (run_state ls') = us.2 ∧
  skipped_phrases (stats_of ls') = skipped_phrases (stats_of ls) ∧
  skipped_count ls' = skipped_count ls ∧
  (uk.1.1 = true ∧ us.1.1 = true →
   success_count ls' = success_count ls + 1 ∧
   downloaded_audios (stats_of ls') = downloaded_audios (stats_of ls) + 2 ∧
   fail_count ls' = fail_count ls ∧
   failed_downloads (stats_of ls') = failed_downloads (stats_of ls)) ∧
  (uk.1.1 = false ∨ us.1.1 = false →
   success_count ls' = success_count ls ∧
   downloaded_audios (stats_of ls') = downloaded_audios (stats_of ls) ∧
   fail_count ls' = fail_count ls + 1 ∧
   failed_downloads (stats_of ls') = failed_downloads (stats_of ls) + 1).
Proof.
  intros word Hne Hphrase ls' uk us.
  assert (attempts us.2 = attempts (world (run_state ls)) ++ [(word, 1); (word, 2)])
    as Hatt.
  { unfold us, uk. rewrite !download_audio_attempts. by rewrite <-app_assoc. }
  unfold ls', process_word. fold word.
  rewrite bool_decide_eq_false_2 by done. rewrite Hphrase.
  fold uk. destruct uk as [[success_uk msg_uk] w1] eqn:Huk.
  simpl in us. fold us. destruct us as [[success_us msg_us] w2] eqn:Hus.
  simpl in Hatt |- *.
  unfold stats_of, update_file.
  destruct success_uk, success_us; simpl;
    repeat (case_bool_decide || case_match); simpl;
    (split_and!; [done..| |]); intros Hboth; try done;
    destruct Hboth; done.
Qed.

Lemma process_word_both_variants_witness :
  let ls := loop_start (load_or_create_todos ∅ [] empty_world) in
  let ls' := process_word flaky 0 ls (1, entry "cat" None) in
  strip (default "" (headWord (entry "cat" None))) ≠ "" ∧
  is_phrase (strip (default "" (headWord (entry "cat" None)))) = false ∧
  attempts (world (run_state ls')) = [("cat", 1); ("cat", 2)] ∧
  fail_count ls' = 1 ∧ success_count ls' = 0.
Proof.
  intros ls ls'.
  assert (strip (default "" (headWord (entry "cat" None))) ≠ "") as H1 by done.
  assert (is_phrase (strip (default "" (headWord (entry "cat" None)))) = false)
    as H2 by reflexivity.
  split_and!; [exact H1|exact H2|..];
    destruct (process_word_both_variants flaky 0 ls 1 (entry "cat" None) H1 H2)
      as (Ha & _ & _ & _ & _ & Hfail).
  - exact Ha.
  - apply Hfail. by right.
  - apply Hfail. by right.
Defined.

(** C10.  A word object whose [headWord] is missing, empty or only white
    space is passed over by the loop body, which leaves the whole loop
    state as it was: world (no download attempted), statistics and the
    three local counters.  So a file can end with fewer counted words
    than its [word_count]: processed from a new checkpoint, the file of
    the three [blank_words] is completed with [completed_words],
    [failed_words] and the skipped phrases all 0 against a [word_count]
    of 3. *)
Theorem process_word_blank {M : str_methods} :
  (∀ o idx ls i wobj,
     strip (default "" (headWord wobj)) = "" →
     process_word o idx ls (i, wobj) = ls) ∧
  (let dir := one_file blank_words in
   let st := load_or_create_todos dir [] empty_world in
   ∃ st' r,
     process_file online dir "words_001.json" st = (true, st', Some (0, 0, 0)) ∧
     files (todos st') = [r] ∧ status r = completed ∧ word_count r = 3 ∧
     completed_words r + failed_words r + 0 < word_count r ∧
     world st' = empty_world ∧
     statistics (todos st')
     = {| total_files := 1; n_completed_files := 1; total_words := 3;
          downloaded_audios := 0; failed_downloads := 0; skipped_phrases := 0 |}).
Proof.
  split.
  - intros o idx ls i wobj Hblank. unfold process_word.
    by rewrite Hblank, bool_decide_eq_true_2.
  - intros dir st. rewrite (process_file_ascii_text (M' := latin1_methods)).
    2:{ intros words Hwords. vm_compute in Hwords. injection Hwords as <-.
        by repeat constructor. }
    eexists _, _.
    split; [vm_compute; reflexivity|].
    split; [vm_compute; reflexivity|].
    vm_compute. split_and!; try reflexivity. lia.
Qed.

Lemma process_word_blank_witness :
  strip (default "" (headWord (entry "  " None))) = "" ∧
  process_word online 0 (loop_start (load_or_create_todos ∅ [] empty_world))
               (10, entry "  " None)
  = loop_start (load_or_create_todos ∅ [] empty_world).
Proof.
  assert (strip (default "" (headWord (entry "  " None))) = "") as H by reflexivity.
  split; [exact H|].
  exact (proj1 process_word_blank online 0 _ 10 (entry "  " None) H).
Defined.

(** *** The statistics through a run *)

Lemma even_add_2 n : Nat.Even n → Nat.Even (n + 2).
Proof. intros [m ->]. exists (S m). lia. Qed.

Lemma even_downloads_update_file idx f st :
  even_downloads st → even_downloads (update_file idx f st).
Proof. unfold update_file, even_downloads. by case_match. Qed.

Lemma even_downloads_save st : even_downloads st → even_downloads (save_todos st).
Proof.
  unfold even_downloads. intros [Ht Hs]. simpl. split; [done|].
  apply Forall_app. split; [done|]. by constructor.
Qed.

Lemma even_downloads_statistics f st :
  downloaded_audios (f (statistics (todos st)))
  = downloaded_audios (statistics (todos st)) →
  even_downloads st → even_downloads (update_statistics f st).
Proof. unfold even_downloads. simpl. by intros ->. Qed.

Lemma even_downloads_process_word {M : str_methods} o idx ls iw :
  even_downloads (run_state ls) →
  even_downloads (run_state (process_word o idx ls iw)).
Proof.
  intros Hinv. destruct iw as [i wobj]. unfold process_word.
  case_bool_decide; [done|].
  destruct (is_phrase _); simpl.
  { by apply even_downloads_statistics. }
  destruct (download_audio _ _ 1 _) as [[success_uk msg_uk] w1].
  destruct (download_audio _ _ 2 _) as [[success_us msg_us] w2].
  assert (even_downloads (set_world w2 (run_state ls))) as Hw by done.
  destruct (success_uk && success_us); case_bool_decide; simpl;
    try apply even_downloads_save; try apply even_downloads_update_file;
    try (by apply even_downloads_statistics).
  all: destruct Hw as [Ht Hs]; split; simpl; [by apply even_add_2|done].
Qed.

Lemma even_downloads_loop {M : str_methods} o idx ls l :
  even_downloads (run_state ls) →
  even_downloads (run_state (foldl (process_word o idx) ls l)).
Proof.
  revert ls. induction l as [|iw l IH]; intros ls Hinv; simpl; [done|].
  by apply IH, even_downloads_process_word.
Qed.

Lemma even_downloads_mark_completed name st :
  even_downloads st → even_downloads (set_todos (mark_completed name (todos st)) st).
Proof. unfold even_downloads, mark_completed. by case_bool_decide. Qed.

Lemma even_downloads_process_file {M : str_methods} o dir name st :
  even_downloads st → even_downloads (process_file o dir name st).1.2.
Proof.
  intros Hinv. unfold process_file.
  destruct (list_find _ _) as [[idx r]|]; [|done].
  case_bool_decide; [done|].
  destruct (read_words dir name) as [words|]; simpl.
  - apply even_downloads_save, even_downloads_mark_completed,
      even_downloads_update_file.
    assert (∀ st, even_downloads st → even_downloads (read_clock o st).2) as Hclock
      by done.
    apply Hclock, even_downloads_loop. simpl.
    by apply even_downloads_update_file, Hclock.
  - by apply even_downloads_save, even_downloads_update_file.
Qed.

Lemma rescan_file_downloads dir existing acc name :
  downloaded_audios (statistics (rescan_file dir existing acc name).1)
  = downloaded_audios (statistics acc.1).
Proof.
  destruct acc as [t n]. unfold rescan_file.
  case_bool_decide; [done|]. by destruct (read_words dir name).
Qed.

Lemma rescan_loop_downloads dir existing acc l :
  downloaded_audios (statistics (foldl (rescan_file dir existing) acc l).1)
  = downloaded_audios (statistics acc.1).
Proof.
  revert acc. induction l as [|name l IH]; intros acc; simpl; [done|].
  by rewrite IH, rescan_file_downloads.
Qed.

Lemma even_downloads_rescan dir st :
  even_downloads st → even_downloads (rescan_files dir st).2.
Proof.
  intros [Ht Hs]. unfold rescan_files.
  pose proof (rescan_loop_downloads dir (filename <$> files (todos st))
                (todos st, 0) (split_files dir)) as Hd.
  destruct (foldl _ _ _) as [t added]. simpl in Hd |- *.
  assert (even_downloads (set_todos t st)) as Hinv.
  { split; simpl; [by rewrite Hd|done]. }
  case_bool_decide; [by apply even_downloads_save|done].
Qed.

Lemma scan_loop_downloads dir t l :
  downloaded_audios (statistics (foldl (scan_file dir) t l))
  = downloaded_audios (statistics t).
Proof.
  revert t. induction l as [|name l IH]; intros t; simpl; [done|].
  rewrite IH. unfold scan_file. by destruct (read_words dir name).
Qed.

Lemma create_initial_todos_downloads dir :
  downloaded_audios (statistics (create_initial_todos dir)) = 0.
Proof. unfold create_initial_todos. simpl. by rewrite scan_loop_downloads. Qed.

Lemma even_downloads_load dir disk w :
  Forall (λ t, Nat.Even (downloaded_audios (statistics t))) disk →
  even_downloads (load_or_create_todos dir disk w).
Proof.
  intros Hdisk. unfold load_or_create_todos. apply even_downloads_save.
  split; simpl; [|done].
  destruct (last disk) as [t|] eqn:Hlast.
  - apply last_Some in Hlast as [l ->].
    apply Forall_app in Hdisk as [_ Ht]. by inversion Ht.
  - rewrite create_initial_todos_downloads. by exists 0.
Qed.

Lemma reachable_even_downloads {M : str_methods} st :
  reachable st → even_downloads st.
Proof.
  induction 1 as [dir w|st dir k w _ IH Hk|st dir _ IH|st o dir name _ IH].
  - by apply even_downloads_load.
  - apply even_downloads_load. destruct IH as [_ Hs]. by apply Forall_take.
  - by apply even_downloads_rescan.
  - by apply even_downloads_process_file.
Qed.

Lemma statistics_update_file idx f st :
  statistics (todos (update_file idx f st)) = statistics (todos st).
Proof. unfold update_file. by case_match. Qed.

Lemma counted_process_word {M : str_methods} o idx d f k ls iw :
  counted d f k ls → counted d f k (process_word o idx ls iw).
Proof.
  intros (Hd & Hf & Hk). destruct iw as [i wobj]. unfold process_word.
  case_bool_decide; [done|].
  destruct (is_phrase _); simpl.
  { unfold counted, stats_of in *. simpl. lia. }
  destruct (download_audio _ _ 1 _) as [[success_uk msg_uk] w1].
  destruct (download_audio _ _ 2 _) as [[success_us msg_us] w2].
  unfold counted, stats_of in *.
  destruct (success_uk && success_us); case_bool_decide; simpl;
    rewrite ?statistics_update_file; simpl; lia.
Qed.

Lemma counted_loop {M : str_methods} o idx d f k ls l :
  counted d f k ls → counted d f k (foldl (process_word o idx) ls l).
Proof.
  revert ls. induction l as [|iw l IH]; intros ls Hinv; simpl; [done|].
  by apply IH, counted_process_word.
Qed.

Lemma process_file_statistics {M : str_methods} o dir name st :
  let res := process_file o dir name st in
  match res.2 with
  | Some (s, f, k) =>
      downloaded_audios (statistics (todos res.1.2))
      = downloaded_audios (statistics (todos st)) + 2 * s ∧
      failed_downloads (statistics (todos res.1.2))
      = failed_downloads (statistics (todos st)) + f ∧
      skipped_phrases (statistics (todos res.1.2))
      = skipped_phrases (statistics (todos st)) + k
  | None => statistics (todos res.1.2) = statistics (todos st)
  end.
Proof.
  unfold process_file.
  destruct (list_find _ _) as [[idx r]|]; [|done].
  case_bool_decide; [done|].
  destruct (read_words dir name) as [words|]; simpl.
  - set (ls0 := {| run_state := _ |}).
    assert (counted (downloaded_audios (statistics (todos st)))
                    (failed_downloads (statistics (todos st)))
                    (skipped_phrases (statistics (todos st))) ls0) as Hinv.
    { unfold counted, stats_of, ls0. simpl.
      rewrite statistics_update_file. simpl. lia. }
    apply (counted_loop o idx _ _ _ _ (enumerate 1 words)) in Hinv.
    destruct Hinv as (Hd & Hf & Hk). unfold stats_of in *.
    unfold mark_completed. case_bool_decide; simpl;
      rewrite statistics_update_file; simpl; done.
  - by rewrite statistics_update_file.
Qed.

(** C9.  [downloaded_audios] is 0 in a new checkpoint.  The loop body
    adds exactly 2 to it when the word is neither empty nor a phrase and
    both calls of [download_audio] succeed, and leaves it as it is in
    every other case; a word of which exactly one variant succeeds adds
    nothing to it and 1 to [failed_downloads].  Over a whole file it
    grows by twice [success_count] and a rescan does not change it, so
    it is even in every reachable state.  It can be less than the number
    of audio files written: with a service that answers the first
    request only, the file of the single word [cat] ends with one audio
    file on disk, [downloaded_audios] 0 and [failed_downloads] 1. *)
Theorem downloaded_audios_by_two {M : str_methods} :
  (∀ dir, downloaded_audios (statistics (create_initial_todos dir)) = 0) ∧
  (∀ o idx ls i wobj,
     let word := strip (default "" (headWord wobj)) in
     let uk := download_audio o word 1 (world (run_state ls)) in
     let us := download_audio o word 2 uk.2 in
     let ls' := process_word o idx ls (i, wobj) in
     let both := bool_decide (word ≠ "") && negb (is_phrase word)
                 && uk.1.1 && us.1.1 in
     downloaded_audios (stats_of ls')
     = downloaded_audios (stats_of ls) + (if both then 2 else 0) ∧
     (word ≠ "" → is_phrase word = false → uk.1.1 ≠ us.1.1 →
      downloaded_audios (stats_of ls') = downloaded_audios (stats_of ls) ∧
      failed_downloads (stats_of ls') = failed_downloads (stats_of ls) + 1)) ∧
  (∀ o dir name st,
     let res := process_file o dir name st in
     downloaded_audios (statistics (todos res.1.2))
     = downloaded_audios (statistics (todos st))
       + 2 * from_option (λ c, c.1.1) 0 res.2) ∧
  (∀ dir st,
     downloaded_audios (statistics (todos (rescan_files dir st).2))
     = downloaded_audios (statistics (todos st))) ∧
  (∀ st, reachable st → Nat.Even (downloaded_audios (statistics (todos st)))) ∧
  (let dir := one_file [entry "cat" None] in
   let st := load_or_create_todos dir [] empty_world in
   ∃ st',
     process_file flaky dir "words_001.json" st = (true, st', Some (0, 1, 0)) ∧
     elements (audio_files (world st')) = ["cat_uk.mp3"] ∧
     downloaded_audios (statistics (todos st')) = 0 ∧
     failed_downloads (statistics (todos st')) = 1).
Proof.
  split_and!.
  - apply create_initial_todos_downloads.
  - intros o idx ls i wobj word uk us ls' both.
    unfold both, ls', process_word. fold word. unfold stats_of.
    destruct (decide (word = "")) as [Hw|Hw].
    { rewrite (bool_decide_eq_true_2 _ Hw).
      rewrite (bool_decide_eq_false_2 (word ≠ "")) by (by intros ?).
      simpl. split; [lia|done]. }
    rewrite (bool_decide_eq_false_2 _ Hw), (bool_decide_eq_true_2 (word ≠ "")) by done.
    destruct (is_phrase word) eqn:Hp; simpl.
    { split; [lia|done]. }
    fold uk. destruct uk as [[success_uk msg_uk] w1]. simpl in us. fold us.
    destruct us as [[success_us msg_us] w2]. simpl.
    destruct success_uk, success_us; case_bool_decide; simpl;
      rewrite ?statistics_update_file; simpl; split; try lia; try done.
  - intros o dir name st res.
    pose proof (process_file_statistics o dir name st) as H.
    simpl in H. fold res in H.
    destruct res.2 as [[[s f] k]|].
    + destruct H as (-> & _). simpl. lia.
    + rewrite H. simpl. lia.
  - intros dir st. unfold rescan_files.
    pose proof (rescan_loop_downloads dir (filename <$> files (todos st))
                  (todos st, 0) (split_files dir)) as Hd.
    destruct (foldl _ _ _) as [t added]. simpl in Hd |- *.
    by case_bool_decide.
  - intros st Hst. by apply reachable_even_downloads.
  - intros dir st. rewrite (process_file_ascii_text (M' := latin1_methods)).
    2:{ intros words Hwords. vm_compute in Hwords. injection Hwords as <-.
        by repeat constructor. }
    eexists. split; [vm_compute; reflexivity|].
    vm_compute. by split_and!.
Qed.

Lemma downloaded_audios_by_two_witness :
  let ls := loop_start (load_or_create_todos ∅ [] empty_world) in
  let word := strip (default "" (headWord (entry "cat" None))) in
  let uk := download_audio flaky word 1 (world (run_state ls)) in
  let us := download_audio flaky word 2 uk.2 in
  let ls' := process_word flaky 0 ls (1, entry "cat" None) in
  word ≠ "" ∧ is_phrase word = false ∧ uk.1.1 ≠ us.1.1 ∧
  reachable (run_state ls) ∧
  downloaded_audios (stats_of ls') = downloaded_audios (stats_of ls) ∧
  failed_downloads (stats_of ls') = failed_downloads (stats_of ls) + 1 ∧
  Nat.Even (downloaded_audios (statistics (todos (run_state ls)))).
Proof.
  intros ls word uk us ls'.
  assert (word ≠ "") as H1 by done.
  assert (is_phrase word = false) as H2 by reflexivity.
  assert (uk.1.1 ≠ us.1.1) as H3 by done.
  assert (reachable (run_state ls)) as H4 by apply reach_first.
  destruct downloaded_audios_by_two as (_ & Hword & _ & _ & Heven & _).
  destruct (Hword flaky 0 ls 1 (entry "cat" None)) as (_ & Hone).
  destruct (Hone H1 H2 H3) as [Hd Hf].
  split_and!; [exact H1|exact H2|exact H3|exact H4|exact Hd|exact Hf|].
  exact (Heven _ H4).
Defined.

(** *** Rescan *)

Lemma rescan_loop dir existing t a names :
  let added := new_records dir existing names in
  foldl (rescan_file dir existing) (t, a) names
  = ({| files := files t ++ added;
        completed_files := completed_files t;
        statistics :=
          {| total_files := total_files (statistics t) + length added;
             n_completed_files := n_completed_files (statistics t);
             total_words := total_words (statistics t)
                            + sum_list (word_count <$> added);
             downloaded_audios := downloaded_audios (statistics t);
             failed_downloads := failed_downloads (statistics t);
             skipped_phrases := skipped_phrases (statistics t) |} |},
     a + length added).
Proof.
  revert t a. induction names as [|name names IH]; intros t a; csimpl.
  { destruct t as [fs cs []]. simpl. rewrite app_nil_r.
    f_equal; [f_equal; f_equal; lia|lia]. }
  unfold new_records. csimpl. fold (new_records dir existing names).
  case_bool_decide.
  { apply IH. }
  destruct (read_words dir name) as [ws|]; csimpl; [|apply IH].
  rewrite IH. simpl. rewrite <-app_assoc. simpl.
  f_equal; [f_equal; f_equal; lia|lia].
Qed.

Lemma new_records_spec dir existing names :
  Forall (λ r, status r = pending ∧ completed_words r = 0 ∧ failed_words r = 0
               ∧ last_updated r = None
               ∧ (filename r ∉ existing) ∧ filename r ∈ names
               ∧ ∃ ws, read_words dir (filename r) = Some ws
                       ∧ word_count r = length ws)
         (new_records dir existing names).
Proof.
  induction names as [|name names IH]; [constructor|].
  unfold new_records. csimpl. fold (new_records dir existing names).
  assert (Forall (λ r, status r = pending ∧ completed_words r = 0 ∧ failed_words r = 0
               ∧ last_updated r = None
               ∧ (filename r ∉ existing) ∧ filename r ∈ name :: names
               ∧ ∃ ws, read_words dir (filename r) = Some ws
                       ∧ word_count r = length ws)
         (new_records dir existing names)) as IH'.
  { eapply Forall_impl; [exact IH|]. intros r (?&?&?&?&?&?&?).
    split_and!; try done. by right. }
  case_bool_decide; [done|].
  destruct (read_words dir name) as [ws|] eqn:Hws; csimpl; [|done].
  constructor; [|done]. simpl. split_and!; try done; [by left|eauto].
Qed.

Lemma new_records_complete dir existing names name :
  name ∈ names → name ∉ existing → is_Some (read_words dir name) →
  name ∈ filename <$> new_records dir existing names.
Proof.
  intros Hin Hnew [ws Hws]. induction Hin as [name names|name other names _ IH];
    unfold new_records; csimpl; fold (new_records dir existing names).
  - rewrite bool_decide_eq_false_2, Hws by done. csimpl. by left.
  - case_bool_decide; [by apply IH|].
    destruct (read_words dir other); csimpl; [right|]; by apply IH.
Qed.

(** C8.  A rescan appends to the checkpoint one [pending] record, with
    zero counters and no timestamp, for each [.json] name of the
    directory that no record bears and whose file can be read, with the
    number of words read as [word_count]; it adds their number to
    [total_files] and their word counts to [total_words].  Every record
    that was there stays at its place unchanged, whatever its file has
    become, and so do the list of completed files, the other statistics
    and the world. *)
Theorem rescan_files_frame (dir : split_dir) (st : state) :
  let res := rescan_files dir st in
  let old := todos st in
  let new := todos res.2 in
  ∃ added : list file_info,
    files new = files old ++ added ∧
    res.1 = length added ∧
    Forall (λ r, status r = pending ∧ completed_words r = 0 ∧ failed_words r = 0
                 ∧ last_updated r = None
                 ∧ (filename r ∉ filename <$> files old)
                 ∧ filename r ∈ split_files dir
                 ∧ ∃ ws, read_words dir (filename r) = Some ws
                         ∧ word_count r = length ws) added ∧
    (∀ name, name ∈ split_files dir → name ∉ filename <$> files old →
             is_Some (read_words dir name) → name ∈ filename <$> added) ∧
    (∀ i r, files old !! i = Some r → files new !! i = Some r) ∧
    total_files (statistics new) = total_files (statistics old) + length added ∧
    total_words (statistics new)
    = total_words (statistics old) + sum_list (word_count <$> added) ∧
    n_completed_files (statistics new) = n_completed_files (statistics old) ∧
    downloaded_audios (statistics new) = downloaded_audios (statistics old) ∧
    failed_downloads (statistics new) = failed_downloads (statistics old) ∧
    skipped_phrases (statistics new) = skipped_phrases (statistics old) ∧
    completed_files new = completed_files old ∧
    world res.2 = world st ∧
    file_log res.2 = file_log st.
Proof.
  intros res old new. unfold new, res, rescan_files.
  rewrite rescan_loop. fold old.
  set (added := new_records dir (filename <$> files old) (split_files dir)).
  exists added.
  assert (∀ b : bool,
            todos (if b then save_todos (set_todos
                      {| files := files old ++ added;
                         completed_files := completed_files old;
                         statistics :=
                           {| total_files := total_files (statistics old) + length added;
                              n_completed_files := n_completed_files (statistics old);
                              total_words := total_words (statistics old)
                                             + sum_list (word_count <$> added);
                              downloaded_audios := downloaded_audios (statistics old);
                              failed_downloads := failed_downloads (statistics old);
                              skipped_phrases := skipped_phrases (statistics old) |} |} st)
                   else set_todos
                      {| files := files old ++ added;
                         completed_files := completed_files old;
                         statistics :=
                           {| total_files := total_files (statistics old) + length added;
                              n_completed_files := n_completed_files (statistics old);
                              total_words := total_words (statistics old)
                                             + sum_list (word_count <$> added);
                              downloaded_audios := downloaded_audios (statistics old);
                              failed_downloads := failed_downloads (statistics old);
                              skipped_phrases := skipped_phrases (statistics old) |} |} st)
            = {| files := files old ++ added;
                 completed_files := completed_files old;
                 statistics :=
                   {| total_files := total_files (statistics old) + length added;
                      n_completed_files := n_completed_files (statistics old);
                      total_words := total_words (statistics old)
                                     + sum_list (word_count <$> added);
                      downloaded_audios := downloaded_audios (statistics old);
                      failed_downloads := failed_downloads (statistics old);
                      skipped_phrases := skipped_phrases (statistics old) |} |})
    as Htodos by (by intros []).
  simpl. rewrite Htodos. simpl.
  split_and!; try done.
  - apply new_records_spec.
  - intros name. apply new_records_complete.
  - intros i r Hr. by apply lookup_app_l_Some.
  - by case_bool_decide.
  - by case_bool_decide.
Qed.

Lemma rescan_files_frame_witness :
  let st := load_or_create_todos (one_file [entry "cat" None]) [] empty_world in
  let st' := (rescan_files rescan_dir st).2 in
  "words_002.json" ∈ split_files rescan_dir ∧
  ("words_002.json" ∉ filename <$> files (todos st)) ∧
  is_Some (read_words rescan_dir "words_002.json") ∧
  files (todos st) !! 0 = Some (new_file_info "words_001.json" 1) ∧
  files (todos st') !! 0 = Some (new_file_info "words_001.json" 1) ∧
  ∃ added, files (todos st') = files (todos st) ++ added
           ∧ "words_002.json" ∈ filename <$> added.
Proof.
  intros st st'.
  assert ("words_002.json" ∈ split_files rescan_dir) as H1.
  { apply (bool_decide_unpack _). vm_compute. exact I. }
  assert ("words_002.json" ∉ filename <$> files (todos st)) as H2.
  { apply (bool_decide_unpack _). vm_compute. exact I. }
  assert (is_Some (read_words rescan_dir "words_002.json")) as H3.
  { vm_compute. eauto. }
  assert (files (todos st) !! 0 = Some (new_file_info "words_001.json" 1)) as H4.
  { vm_compute. reflexivity. }
  destruct (rescan_files_frame rescan_dir st)
    as (added & Hfiles & _ & _ & Hall & Hold & _).
  split_and!; [exact H1|exact H2|exact H3|exact H4|exact (Hold 0 _ H4)|].
  exists added. split; [exact Hfiles|]. exact (Hall _ H1 H2 H3).
Defined.

(** *** The status and the counters of a record through [process_file] *)

Lemma update_file_found idx f st cur :
  files (todos st) !! idx = Some cur →
  update_file idx f st
  = {| todos := set_files (<[idx := f cur]> (files (todos st))) (todos st);
       saved := saved st; world := world st; ticks := ticks st;
       file_log := file_log st ++ [(idx, f cur)] |}.
Proof. unfold update_file. by intros ->. Qed.

Lemma loop_inv_weaken idx st0 r1 mids ls ls' :
  loop_inv idx st0 r1 mids ls →
  success_count ls ≤ success_count ls' → fail_count ls ≤ fail_count ls' →
  files (todos (run_state ls')) = files (todos (run_state ls)) →
  file_log (run_state ls') = file_log (run_state ls) →
  loop_inv idx st0 r1 mids ls'.
Proof.
  intros (Hlog & Hfiles & Hall & Hsorted) Hs Hf Hfiles' Hlog'.
  split_and!; [congruence|congruence| |done].
  eapply Forall_impl; [exact Hall|]. simpl. intros m (? & ? & ?).
  split_and!; [done|lia..].
Qed.

Lemma loop_inv_save idx st0 r1 mids ls st s f :
  idx < length (files (todos st0)) → status r1 = processing →
  loop_inv idx st0 r1 mids ls →
  success_count ls ≤ s → fail_count ls ≤ f →
  files (todos st) = files (todos (run_state ls)) →
  file_log st = file_log (run_state ls) →
  ∃ m, loop_inv idx st0 r1 (mids ++ [m])
         {| run_state := save_todos (update_file idx (set_counts s f) st);
            success_count := s; fail_count := f;
            skipped_count := skipped_count ls |}.
Proof.
  intros Hidx Hr1 (Hlog & Hfiles & Hall & Hsorted) Hs Hf Hfiles' Hlog'.
  set (cur := default r1 (last mids)) in *.
  assert (status cur = processing) as Hcur.
  { unfold cur. destruct (last mids) as [m|] eqn:Hlast; simpl; [|done].
    apply last_Some in Hlast as [l ->].
    apply Forall_app in Hall as [_ Hm]. inversion Hm; naive_solver. }
  assert (files (todos st) !! idx = Some cur) as Hlookup.
  { rewrite Hfiles', Hfiles. by apply list_lookup_insert_eq. }
  exists (set_counts s f cur).
  rewrite (update_file_found _ _ _ _ Hlookup).
  split_and!; simpl.
  - rewrite Hlog', Hlog, fmap_app, app_assoc. done.
  - rewrite last_snoc. simpl. rewrite Hfiles', Hfiles.
    by rewrite list_insert_insert_eq.
  - apply Forall_app. split.
    + eapply Forall_impl; [exact Hall|]. simpl. intros m (? & ? & ?).
      split_and!; [done|lia..].
    + constructor; [|constructor]. simpl. split_and!; [done|lia..].
  - apply StronglySorted_app_2; [|done|repeat constructor].
    intros a b Ha ->%list_elem_of_singleton.
    rewrite Forall_forall in Hall. destruct (Hall a Ha) as (_ & ? & ?).
    unfold counts_le. simpl. lia.
Qed.

Lemma loop_inv_process_word {M : str_methods} o idx st0 r1 mids ls iw :
  idx < length (files (todos st0)) → status r1 = processing →
  loop_inv idx st0 r1 mids ls →
  ∃ mids', loop_inv idx st0 r1 mids' (process_word o idx ls iw).
Proof.
  intros Hidx Hr1 Hinv. destruct iw as [i wobj]. unfold process_word.
  case_bool_decide; [by exists mids|].
  destruct (is_phrase _).
  { exists mids. by eapply loop_inv_weaken. }
  destruct (download_audio _ _ 1 _) as [[success_uk msg_uk] w1].
  destruct (download_audio _ _ 2 _) as [[success_us msg_us] w2].
  destruct (success_uk && success_us); case_bool_decide; simpl.
  - destruct (loop_inv_save idx st0 r1 mids ls
                (update_statistics (add_downloaded_audios 2)
                   (set_world w2 (run_state ls)))
                (success_count ls + 1) (fail_count ls)) as [m Hm];
      [done|done|done|lia|lia|done|done|].
    by exists (mids ++ [m]).
  - exists mids. eapply loop_inv_weaken; [done|simpl; lia..|done|done].
  - destruct (loop_inv_save idx st0 r1 mids ls
                (update_statistics add_failed_downloads
                   (set_world w2 (run_state ls)))
                (success_count ls) (fail_count ls + 1)) as [m Hm];
      [done|done|done|lia|lia|done|done|].
    by exists (mids ++ [m]).
  - exists mids. eapply loop_inv_weaken; [done|simpl; lia..|done|done].
Qed.

Lemma loop_inv_loop {M : str_methods} o idx st0 r1 mids ls l :
  idx < length (files (todos st0)) → status r1 = processing →
  loop_inv idx st0 r1 mids ls →
  ∃ mids', loop_inv idx st0 r1 mids' (foldl (process_word o idx) ls l).
Proof.
  intros Hidx Hr1. revert mids ls.
  induction l as [|iw l IH]; intros mids ls Hinv; simpl; [by exists mids|].
  destruct (loop_inv_process_word o idx st0 r1 mids ls iw) as [mids' Hinv'];
    [done..|].
  by eapply IH.
Qed.

Lemma transition_chain (mids : list file_info) :
  Forall (λ m, status m = processing) mids →
  Sorted (transition true) (processing :: (status <$> mids) ++ [completed]).
Proof.
  induction 1 as [|m mids Hm _ IH]; simpl.
  - repeat constructor.
  - rewrite Hm. constructor; [done|]. constructor. by constructor.
Qed.

Lemma counts_le_zero r x :
  completed_words r = 0 → failed_words r = 0 → counts_le r x.
Proof. unfold counts_le. lia. Qed.

(** C7, as the code has it.  [process_file] changes no record but the
    first one that bears the name, and leaves that one alone when it is
    [completed].  Otherwise the values it assigns to the record, in
    order, are [new]: when the partition file cannot be read, the single
    value with status [failed], reached at once from [pending], [failed]
    or a left-over [processing]; when it can be read, a value with
    status [processing], then the values of the counter saves, all
    [processing] whatever the words did, then a value with status
    [completed].  The counters written after the first assignment never
    decrease from one value to a later one, and they never decrease
    from the record's value at the start when that value has both
    counters at 0. *)
Theorem process_file_transitions {M : str_methods} o dir name st :
  let st' := (process_file o dir name st).1.2 in
  let readable := bool_decide (is_Some (read_words dir name)) in
  match list_find (λ f, filename f = name) (files (todos st)) with
  | None => st' = st
  | Some (idx, r) =>
      ∃ new : list file_info,
        file_log st' = file_log st ++ ((λ x, (idx, x)) <$> new) ∧
        files (todos st') = <[idx := default r (last new)]> (files (todos st)) ∧
        Sorted (transition readable) (status r :: (status <$> new)) ∧
        (status r = completed → new = []) ∧
        (status r ≠ completed →
         status <$> last new = Some (if readable then completed else failed)) ∧
        StronglySorted counts_le (drop 1 new) ∧
        (completed_words r = 0 → failed_words r = 0 →
         StronglySorted counts_le (r :: new))
  end.
Proof.
  intros st' readable. unfold st', process_file.
  destruct (list_find _ _) as [[idx r]|] eqn:Hfind; [|done].
  apply list_find_Some in Hfind as (Hr & _ & _).
  pose proof (lookup_lt_Some _ _ _ Hr) as Hidx.
  case_bool_decide as Hstatus.
  { exists []. simpl. rewrite app_nil_r, list_insert_id by done.
    split_and!; try done; repeat constructor. }
  destruct (read_words dir name) as [words|] eqn:Hread; unfold readable.
  - rewrite bool_decide_eq_true_2 by eauto.
    unfold read_clock. cbv beta iota zeta.
    rewrite (update_file_found idx _ {| todos := todos st; saved := saved st;
               world := world st; ticks := S (ticks st);
               file_log := file_log st |} r Hr).
    set (r1 := set_last_updated _ (set_status processing r)).
    match goal with |- context [foldl _ ?l0 _] => set (ls0 := l0) end.
    assert (idx < length (files (todos (run_state ls0)))) as Hidx0.
    { simpl. by rewrite length_insert. }
    assert (loop_inv idx (run_state ls0) r1 [] ls0) as Hinv.
    { split_and!; simpl; [by rewrite app_nil_r| |constructor|constructor].
      by rewrite list_insert_insert_eq. }
    apply (loop_inv_loop o idx _ _ _ _ (enumerate 1 words)) in Hinv
      as (mids & Hlog & Hfiles & Hall & Hsorted); [|done..].
    set (ls1 := foldl _ ls0 _) in *. simpl in Hlog, Hfiles.
    rewrite list_insert_insert_eq in Hfiles.
    clearbody ls1. clear ls0 Hidx0.
    set (cur := default r1 (last mids)) in *.
    rewrite (update_file_found idx _ _ cur)
      by (simpl; rewrite Hfiles; by apply list_lookup_insert_eq).
    set (rn := set_last_updated _ _).
    assert (Forall (λ m, counts_le m rn) mids) as Hmids.
    { eapply Forall_impl; [exact Hall|]. intros m (_ & ? & ?). by split. }
    exists (r1 :: mids ++ [rn]). csimpl. split_and!.
    + by rewrite Hlog, fmap_app, <-!app_assoc.
    + rewrite last_cons, last_snoc. simpl.
      unfold mark_completed. case_bool_decide; simpl;
        rewrite Hfiles, list_insert_insert_eq; done.
    + constructor; [|constructor; by constructor].
      rewrite fmap_app. apply transition_chain.
      eapply Forall_impl; [exact Hall|]. by intros m (? & _).
    + done.
    + intros _. by rewrite last_cons, last_snoc.
    + apply StronglySorted_app_2; [|done|repeat constructor].
      intros a b Ha ->%list_elem_of_singleton.
      rewrite Forall_forall in Hmids. by apply Hmids.
    + intros Hc Hf. constructor.
      2:{ constructor; [by apply counts_le_zero|].
          apply Forall_forall. intros; by apply counts_le_zero. }
      constructor.
      * apply StronglySorted_app_2; [|done|repeat constructor].
        intros a b Ha ->%list_elem_of_singleton.
        rewrite Forall_forall in Hmids. by apply Hmids.
      * apply Forall_forall. intros; by apply counts_le_zero.
  - rewrite bool_decide_eq_false_2 by (by intros [? ?]).
    exists [set_status failed r]. simpl.
    rewrite (update_file_found _ _ _ _ Hr). simpl.
    split_and!; try done.
    + repeat constructor. done.
    + repeat constructor.
    + intros ? ?. repeat constructor; simpl; lia.
Qed.

Lemma process_file_transitions_witness :
  let dir := one_file [entry "cat" None] in
  let st := load_or_create_todos dir [] empty_world in
  let st' := (process_file online dir "words_001.json" st).1.2 in
  let r := new_file_info "words_001.json" 1 in
  list_find (λ f, filename f = "words_001.json") (files (todos st)) = Some (0, r) ∧
  status r ≠ completed ∧ completed_words r = 0 ∧ failed_words r = 0 ∧
  ∃ new, file_log st' = file_log st ++ ((λ x, (0, x)) <$> new)
         ∧ status <$> last new = Some completed
         ∧ StronglySorted counts_le (r :: new).
Proof.
  intros dir st st' r.
  assert (list_find (λ f, filename f = "words_001.json") (files (todos st))
          = Some (0, r)) as Hfind by (vm_compute; reflexivity).
  assert (status r ≠ completed) as H1 by done.
  assert (completed_words r = 0) as H2 by reflexivity.
  assert (failed_words r = 0) as H3 by reflexivity.
  assert (bool_decide (is_Some (read_words dir "words_001.json")) = true) as Hb
    by (vm_compute; reflexivity).
  split_and!; [exact Hfind|exact H1|exact H2|exact H3|].
  pose proof (process_file_transitions online dir "words_001.json" st) as H.
  cbv zeta in H. rewrite Hfind, Hb in H.
  destruct H as (new & Hlog & _ & _ & _ & Hlast & _ & Hzero).
  exists new. split_and!; [exact Hlog|exact (Hlast H1)|exact (Hzero H2 H3)].
Defined.

(** C7 as stated fails twice.  A [pending] record whose file has become
    unreadable goes to [failed] at once, which is none of the claimed
    transitions.  And the counters can decrease within a run: a process
    killed between the 20th and the last of 25 words leaves the record
    [processing] with [completed_words] 20 in the checkpoint; processing
    the file again writes 10 at the 10th word. *)
Lemma process_file_transitions_counterexample :
  (let st := load_or_create_todos (one_file [entry "cat" None]) [] empty_world in
   let st' := (process_file online unreadable_dir "words_001.json" st).1.2 in
   reachable st ∧
   status <$> files (todos st) = [pending] ∧
   (λ e, status e.2) <$> file_log st' = [failed] ∧
   ¬ claimed_transition pending failed) ∧
  (let dir := one_file many_words in
   let st1 := load_or_create_todos dir [] empty_world in
   let st2 := (process_file online dir "words_001.json" st1).1.2 in
   let st3 := load_or_create_todos dir (take 3 (saved st2)) (world st2) in
   let st4 := (process_file online dir "words_001.json" st3).1.2 in
   reachable st3 ∧
   (λ r, (status r, completed_words r)) <$> files (todos st3) = [(processing, 20)] ∧
   (λ e, (status e.2, completed_words e.2)) <$> file_log st4
   = [(processing, 20); (processing, 10); (processing, 20); (completed, 25)]).
Proof.
  split.
  - intros st st'. split_and!.
    + apply reach_first.
    + vm_compute. reflexivity.
    + vm_compute. reflexivity.
    + inversion 1.
  - intros dir st1 st2 st3 st4. split_and!.
    + apply reach_restart; [|lia]. apply reach_process, reach_first.
    + vm_compute. reflexivity.
    + vm_compute. reflexivity.
Qed.

(** The record a killed run leaves [processing] is not among the files
    the fetcher picks by itself; it is processed again when named. *)
Example stale_processing_not_selected :
  let dir := one_file many_words in
  let st1 := load_or_create_todos dir [] empty_world in
  let st2 := (process_file online dir "words_001.json" st1).1.2 in
  let st3 := load_or_create_todos dir (take 3 (saved st2)) (world st2) in
  get_next_pending_file (todos st3) = None.
Proof. vm_compute. reflexivity. Qed.

(** *** Checkpoint writes *)

(** C6 on a file whose tenth word is a phrase: the loop leaves the body
    at the phrase test, before the test on the position, so no
    checkpoint is written after the tenth word and the only write of the
    run is the one at completion.  With a plain tenth word the run
    writes two checkpoints, after the tenth word and at completion. *)
Theorem process_file_checkpoint_after_phrase :
  (let dir := one_file eleven_words in
   let st := load_or_create_todos dir [] empty_world in
   let st' := (process_file online dir "words_001.json" st).1.2 in
   saved st' = saved st ++ [todos st'] ∧
   status <$> files (todos st') = [completed]) ∧
  (let dir := one_file eleven_plain_words in
   let st := load_or_create_todos dir [] empty_world in
   let st' := (process_file online dir "words_001.json" st).1.2 in
   ∃ after_ten, saved st' = saved st ++ [after_ten; todos st'] ∧
     (λ r, (status r, completed_words r)) <$> files after_ten = [(processing, 10)]).
Proof.
  split.
  - vm_compute. by split.
  - eexists. split; vm_compute; reflexivity.
Qed.

(** * Further properties *)

(** ** Deduplicator *)

Lemma extract_unique_words_after {M : str_methods} dir :
  json_files dir ≠ [] →
  extract_unique_words dir
  = Some (renumber (list_sort rank_lt wordRank
                      (unique_words (dedup_after (entries dir))).*2)).
Proof.
  intros Hfiles. unfold extract_unique_words.
  rewrite bool_decide_eq_false_2 by done.
  by rewrite foldl_visit_file.
Qed.

(** X1.  The deduplicator gives no output exactly when the directory
    has no [.json] name.  Otherwise its output depends on the directory
    only through the sequence of its entries: names without the suffix,
    files that cannot be read, lines that do not parse and the way the
    entries are spread over the files make no difference; and with no
    entry at all the output is the empty array. *)
Theorem extract_unique_words_entries {M : str_methods} (dir : dedup_dir) :
  (extract_unique_words dir = None ↔ json_files dir = []) ∧
  (∀ dir', json_files dir ≠ [] → json_files dir' ≠ [] →
           entries dir = entries dir' →
           extract_unique_words dir = extract_unique_words dir') ∧
  (json_files dir ≠ [] → entries dir = [] → extract_unique_words dir = Some []).
Proof.
  split_and!.
  - unfold extract_unique_words. case_bool_decide; naive_solver.
  - intros dir' H1 H2 Heq. rewrite !extract_unique_words_after by done.
    by rewrite Heq.
  - intros H1 Hnil. rewrite extract_unique_words_after by done.
    by rewrite Hnil.
Qed.

Lemma extract_unique_words_entries_witness :
  let dir := [ ("a.json", Some [Dict (entry "cat" None); Malformed]);
               ("b.json", None); ("c.txt", Some [Dict (entry "dog" None)]);
               ("d.json", Some [NonDict; Dict (entry "Cat" (Some 3%Z))]) ] in
  let dir' := [ ("all.json", Some [Dict (entry "cat" None);
                                  Dict (entry "Cat" (Some 3%Z))]) ] in
  json_files dir ≠ [] ∧ json_files dir' ≠ [] ∧ entries dir = entries dir' ∧
  extract_unique_words dir = extract_unique_words dir'.
Proof.
  intros dir dir'.
  assert (json_files dir ≠ []) as H1 by (intros H; vm_compute in H; discriminate H).
  assert (json_files dir' ≠ []) as H2 by (intros H; vm_compute in H; discriminate H).
  assert (entries dir = entries dir') as H3 by (vm_compute; reflexivity).
  split_and!; [exact H1|exact H2|exact H3|].
  exact (proj1 (proj2 (extract_unique_words_entries dir)) dir' H1 H2 H3).
Defined.

(** X2.  The report counts every object line of the readable [.json]
    files, duplicates and entries without a key included and lines that
    are not objects excluded, and the number of unique words it gives is
    the length of the output, never more than the first count. *)
Theorem report_counts_spec {M : str_methods} (dir : dedup_dir) :
  json_files dir ≠ [] →
  ∃ out,
    extract_unique_words dir = Some out ∧
    report_counts dir = Some (length (entries dir), length out) ∧
    length out ≤ length (entries dir).
Proof.
  intros Hfiles. rewrite extract_unique_words_after by done.
  eexists. split; [done|].
  unfold report_counts. rewrite bool_decide_eq_false_2 by done.
  rewrite foldl_visit_file. fold (entries dir). fold (dedup_after (entries dir)).
  destruct (dedup_inv_after (entries dir)) as [pos [_ _ _ _ _ _ Hcount Hsize]].
  rewrite length_renumber, list_sort_perm, length_fmap, Hcount.
  split; [done|lia].
Qed.

Lemma report_counts_spec_witness :
  json_files scenario_dir ≠ [] ∧
  ∃ out, extract_unique_words scenario_dir = Some out
         ∧ report_counts scenario_dir = Some (length (entries scenario_dir), length out).
Proof.
  assert (json_files scenario_dir ≠ []) as H.
  { intros H. vm_compute in H. discriminate H. }
  split; [exact H|].
  destruct (report_counts_spec scenario_dir H) as (out & Hout & Hcounts & _).
  exists out. by split.
Defined.

Lemma list_sort_sorted_id {A} (key : A → option Z) l :
  StronglySorted (λ a b, rank_lt (key b) (key a) = false) l →
  list_sort rank_lt key l = l.
Proof.
  induction 1 as [|x l Hl IH Hx]; simpl; [done|].
  rewrite IH. destruct Hx as [|y l Hy _]; simpl; [done|]. by rewrite Hy.
Qed.

Lemma imap_ranks_sorted (l : list word_obj) k :
  StronglySorted (λ a b, rank_lt (wordRank b) (wordRank a) = false)
                 (imap (λ i, set_wordRank (k + i)) l) ∧
  Forall (λ w, ∃ j, k ≤ j ∧ wordRank w = Some (Z.of_nat j))
         (imap (λ i, set_wordRank (k + i)) l).
Proof.
  revert k. induction l as [|x l IH]; intros k; simpl.
  { split; constructor. }
  rewrite (imap_ext _ (λ i, set_wordRank (S k + i))) by (intros; simpl; f_equal; lia).
  destruct (IH (S k)) as [Hs Hall]. split.
  - constructor; [done|].
    eapply Forall_impl; [exact Hall|]. simpl. intros w (j & Hj & ->).
    apply bool_decide_eq_false. lia.
  - constructor; [exists (k + 0); split; [lia|done]|].
    eapply Forall_impl; [exact Hall|]. simpl. intros w (j & Hj & ->).
    exists j. split; [lia|done].
Qed.

Lemma renumber_sorted l :
  StronglySorted (λ a b, rank_lt (wordRank b) (wordRank a) = false) (renumber l).
Proof. apply (imap_ranks_sorted l 1). Qed.

Lemma renumber_id l :
  wordRank <$> l = (λ r, Some (Z.of_nat r)) <$> seq 1 (length l) → renumber l = l.
Proof.
  intros Hranks. apply list_eq. intros i. unfold renumber.
  rewrite list_lookup_imap.
  destruct (l !! i) as [w|] eqn:Hw; [|done]. simpl. f_equal.
  pose proof (lookup_lt_Some _ _ _ Hw) as Hi.
  apply set_wordRank_id.
  apply (f_equal (λ l, l !! i)) in Hranks.
  rewrite !list_lookup_fmap, Hw, lookup_seq_lt in Hranks by done.
  simpl in Hranks. by injection Hranks as ->.
Qed.

Lemma renumber_keys {M : str_methods} l : head_word_key <$> renumber l = head_word_key <$> l.
Proof.
  unfold renumber. rewrite fmap_imap.
  rewrite (imap_ext _ (λ _, head_word_key)) by done.
  apply imap_const.
Qed.

(** X3.  Deduplicating an output of the deduplicator again, written
    one object per line into a single [.json] file, gives the same
    output: keys already distinct, already in rank order, already
    numbered 1..N. *)
Theorem extract_unique_words_idempotent {M : str_methods} (dir : dedup_dir) out name :
  extract_unique_words dir = Some out →
  endswith name ".json" = true →
  extract_unique_words [(name, Some (Dict <$> out))] = Some out.
Proof.
  intros Hout Hname.
  assert (json_files dir ≠ []) as Hfiles.
  { intros Hnil. unfold extract_unique_words in Hout.
    by rewrite bool_decide_eq_true_2 in Hout. }
  rewrite extract_unique_words_after in Hout by done. injection Hout as <-.
  destruct (dedup_inv_after (entries dir)) as [pos [_ Hnd Hkeys Hdom _ _ _ _]].
  set (firsts := (unique_words (dedup_after (entries dir))).*2) in *.
  rewrite extract_unique_words_distinct; [|done|..].
  - rewrite list_sort_sorted_id by apply renumber_sorted.
    f_equal. apply renumber_id.
    rewrite renumber_ranks. by rewrite length_renumber.
  - rewrite renumber_keys, list_sort_perm. by rewrite <-Hkeys.
  - apply Forall_forall. intros w Hw.
    assert (head_word_key w ∈ head_word_key <$> firsts) as Hk.
    { rewrite <-(list_sort_perm wordRank firsts), <-renumber_keys.
      by apply list_elem_of_fmap_2. }
    rewrite <-Hkeys in Hk. by apply Hdom in Hk as [? _].
Qed.

Lemma extract_unique_words_idempotent_witness :
  extract_unique_words scenario_dir = Some scenario_output ∧
  endswith "unique.json" ".json" = true ∧
  extract_unique_words [("unique.json", Some (Dict <$> scenario_output))]
  = Some scenario_output.
Proof.
  assert (extract_unique_words scenario_dir = Some scenario_output) as H1
    by (vm_compute; reflexivity).
  assert (endswith "unique.json" ".json" = true) as H2 by reflexivity.
  split_and!; [exact H1|exact H2|].
  exact (extract_unique_words_idempotent scenario_dir _ _ H1 H2).
Defined.

(** ** Splitter *)

#[local] Opaque words_per_file.

(** X4.  The splitter touches no file but the [ceil(N/1000)] it
    writes: every other name of the output directory keeps what it had,
    in particular the partition files of higher index that an earlier
    run on a longer list has left and, for the empty array, the whole
    directory.  The files it writes are replaced whatever they held. *)
Theorem split_unique_words_frame (input : list word_obj)
    (dir : gmap string (list word_obj)) :
  let total_files := ceil_div (length input) words_per_file in
  let out := split_unique_words input dir in
  (∀ name, (∀ i, i < total_files → name ≠ output_filename i) →
           out !! name = dir !! name) ∧
  (∀ j, total_files ≤ j → out !! output_filename j = dir !! output_filename j) ∧
  (∀ i, i < total_files →
        out !! output_filename i
        = Some (renumber (take words_per_file (drop (i * words_per_file) input)))) ∧
  (input = [] → out = dir).
Proof.
  intros total_files out. unfold out, total_files.
  rewrite split_unique_words_dir_after. split_and!.
  - intros name Hname. by apply dir_after_lookup_other.
  - intros j Hj. apply dir_after_lookup_other.
    intros i Hi ?%output_filename_inj. lia.
  - intros i Hi. by apply dir_after_lookup.
  - by intros ->.
Qed.

Lemma split_unique_words_frame_witness :
  let dir : gmap string (list word_obj) :=
    {[ "words_001.json" := []; "words_002.json" := [entry "old" None];
       "notes.txt" := [] ]} in
  let out := split_unique_words [entry "new" None] dir in
  0 < ceil_div 1 words_per_file ∧ ceil_div 1 words_per_file ≤ 1 ∧
  out !! "words_001.json" = Some [entry "new" (Some 1%Z)] ∧
  out !! output_filename 1 = Some [entry "old" None].
Proof.
  intros dir out.
  assert (0 < ceil_div 1 words_per_file) as H1 by (vm_compute; lia).
  assert (ceil_div 1 words_per_file ≤ 1) as H2 by (vm_compute; lia).
  destruct (split_unique_words_frame [entry "new" None] dir) as (_ & Hstale & Hnew & _).
  split_and!; [exact H1|exact H2|exact (Hnew 0 H1)|].
  unfold out. rewrite (Hstale 1 H2). vm_compute. reflexivity.
Defined.

(** X5.  The verification that ends the splitter always succeeds when
    the writes did: read back by index, the partition files hold as
    many entries as the array, whatever the output directory held. *)
Theorem verification_succeeds (input : list word_obj)
    (dir : gmap string (list word_obj)) :
  total_split_words (ceil_div (length input) words_per_file)
                    (split_unique_words input dir)
  = length input
  ∧ verification input dir = true.
Proof.
  assert (total_split_words (ceil_div (length input) words_per_file)
                            (split_unique_words input dir) = length input) as H.
  { unfold total_split_words.
    rewrite <-length_concat_sum, joined_partitions. apply length_imap. }
  split; [done|]. unfold verification. by rewrite H, bool_decide_eq_true_2.
Qed.

Lemma renumber_ignores_rank l l' :
  Forall2 (λ a b, headWord a = headWord b ∧ fields a = fields b) l l' →
  renumber l = renumber l'.
Proof.
  unfold renumber. generalize S. intros f Hsame. revert f.
  induction Hsame as [|a b l l' [Hh Hf] _ IH]; intros f; simpl; [done|].
  f_equal; [|apply IH].
  unfold set_wordRank. by rewrite Hh, Hf.
Qed.

Lemma dir_after_ignores_rank input input' dir k :
  Forall2 (λ a b, headWord a = headWord b ∧ fields a = fields b) input input' →
  dir_after input dir k = dir_after input' dir k.
Proof.
  intros Hsame. unfold dir_after. induction k as [|k IH]; [done|].
  rewrite seq_S, !foldl_snoc, IH. simpl. f_equal.
  apply renumber_ignores_rank. unfold chunk.
  by apply Forall2_take, Forall2_drop.
Qed.

(** X6.  The splitter does not read the [wordRank] its input comes
    with: two arrays that agree on every other member give the same
    partition files.  So splitting again the concatenation of the
    partition files of a run writes the same files. *)
Theorem split_unique_words_ignores_rank (input input' : list word_obj)
    (dir : gmap string (list word_obj)) :
  (Forall2 (λ a b, headWord a = headWord b ∧ fields a = fields b) input input' →
   split_unique_words input dir = split_unique_words input' dir) ∧
  (∀ dir0,
     split_unique_words
       (concat (read_back (ceil_div (length input) words_per_file)
                          (split_unique_words input dir0))) dir
     = split_unique_words input dir).
Proof.
  assert (∀ a b, Forall2 (λ a b, headWord a = headWord b ∧ fields a = fields b) a b →
                 split_unique_words a dir = split_unique_words b dir) as Hgen.
  { intros a b Hsame. rewrite !split_unique_words_dir_after.
    rewrite (Forall2_length _ _ _ Hsame). by apply dir_after_ignores_rank. }
  split; [apply Hgen|].
  intros dir0. apply Hgen. rewrite joined_partitions. by apply imap_keeps_rest.
Qed.

Lemma split_unique_words_ignores_rank_witness :
  let a := [entry "cat" (Some 7%Z); entry "dog" None] in
  let b := [entry "cat" None; entry "dog" (Some 1%Z)] in
  Forall2 (λ a b, headWord a = headWord b ∧ fields a = fields b) a b ∧
  split_unique_words a ∅ = split_unique_words b ∅.
Proof.
  intros a b.
  assert (Forall2 (λ a b, headWord a = headWord b ∧ fields a = fields b) a b) as H.
  { repeat constructor. }
  split; [exact H|].
  exact (proj1 (split_unique_words_ignores_rank a b ∅) H).
Defined.

#[local] Transparent words_per_file.

(** ** Audio fetcher: loading and scanning *)

Lemma ensure_fold (l : list (string * json)) (m : gmap string json) :
  foldl (λ m kd, if decide (is_Some (m !! kd.1)) then m else <[kd.1 := kd.2]> m) m l
  = m ∪ list_to_map l.
Proof.
  revert m. induction l as [|[k d] l IH]; intros m; simpl.
  { by rewrite (right_id_L ∅ (∪)). }
  rewrite IH. destruct (decide (is_Some (m !! k))) as [[v Hv]|Hnone].
  - apply map_eq. intros i.
    destruct (decide (i = k)) as [->|Hne].
    + by rewrite !(lookup_union_Some_l _ _ _ _ Hv).
    + by rewrite !lookup_union, lookup_insert_ne.
  - assert (m !! k = None) as Hk.
    { destruct (m !! k) eqn:E; [|done]. destruct Hnone. eauto. }
    by rewrite <-insert_union_l, insert_union_r.
Qed.

(** X7.  Loading an older checkpoint keeps every statistic it has,
    known to this version or not, and gives the value 0 to exactly those
    of the six statistics it lacks, so that the six are there
    afterwards; a checkpoint that has the six is not changed, and
    repairing twice is repairing once. *)
Theorem ensure_statistics_fields_spec (stats : option (gmap string json)) :
  let m := default ∅ stats in
  let m' := ensure_statistics_fields stats in
  m' = m ∪ list_to_map default_stats ∧
  (∀ k v, m !! k = Some v → m' !! k = Some v) ∧
  (∀ k, m !! k = None →
        m' !! k = if bool_decide (k ∈ default_stats.*1) then Some (JNum 0) else None) ∧
  (∀ k, k ∈ default_stats.*1 → is_Some (m' !! k)) ∧
  ((∀ k, k ∈ default_stats.*1 → is_Some (m !! k)) → m' = m) ∧
  ensure_statistics_fields (Some m') = m'.
Proof.
  intros m m'.
  assert (m' = m ∪ list_to_map default_stats) as Hm'.
  { unfold m', ensure_statistics_fields. apply ensure_fold. }
  assert (∀ k, (list_to_map default_stats : gmap string json) !! k
               = if bool_decide (k ∈ default_stats.*1) then Some (JNum 0) else None)
    as Hdef.
  { intros k. unfold default_stats. simpl.
    repeat (rewrite lookup_insert; case_decide;
            [subst; by rewrite bool_decide_eq_true_2
               by (apply (bool_decide_unpack _); vm_compute; exact I)|]).
    rewrite lookup_empty, bool_decide_eq_false_2; [done|].
    rewrite !elem_of_cons, elem_of_nil. naive_solver. }
  assert (∀ x : gmap string json,
            (∀ k, k ∈ default_stats.*1 → is_Some (x !! k)) →
            x ∪ list_to_map default_stats = x) as Hid.
  { intros x Hall. apply map_eq. intros k. rewrite lookup_union.
    destruct (x !! k) as [v|] eqn:Hk; [by rewrite union_Some_l|].
    rewrite (left_id_L None (∪)), Hdef. case_bool_decide as Hin; [|done].
    apply Hall in Hin as [v Hv]. congruence. }
  assert (∀ k, k ∈ default_stats.*1 → is_Some (m' !! k)) as Hall'.
  { intros k Hk. rewrite Hm', lookup_union_is_Some. right.
    rewrite Hdef, bool_decide_eq_true_2 by done. eauto. }
  split_and!.
  - done.
  - intros k v Hk. rewrite Hm'. by apply lookup_union_Some_l.
  - intros k Hk. by rewrite Hm', lookup_union_r, Hdef.
  - done.
  - intros Hall. rewrite Hm'. by apply Hid.
  - unfold ensure_statistics_fields at 1. rewrite ensure_fold.
    change (default ∅ (Some m')) with m'. by apply Hid.
Qed.

Lemma ensure_statistics_fields_spec_witness :
  let old : gmap string json := {[ "total_files" := JNum 3; "legacy" := JStr "x" ]} in
  let m' := ensure_statistics_fields (Some old) in
  old !! "legacy" = Some (JStr "x") ∧ old !! "skipped_phrases" = None ∧
  "skipped_phrases" ∈ default_stats.*1 ∧
  m' !! "legacy" = Some (JStr "x") ∧
  m' !! "skipped_phrases" = Some (JNum 0) ∧
  is_Some (m' !! "skipped_phrases").
Proof.
  intros old m'.
  assert (old !! "legacy" = Some (JStr "x")) as H1 by (vm_compute; reflexivity).
  assert (old !! "skipped_phrases" = None) as H2 by (vm_compute; reflexivity).
  assert ("skipped_phrases" ∈ default_stats.*1) as H3.
  { apply (bool_decide_unpack _). vm_compute. exact I. }
  destruct (ensure_statistics_fields_spec (Some old)) as (_ & Hkeep & Hfill & Hall & _).
  pose proof (Hfill _ H2) as H5.
  rewrite bool_decide_eq_true_2 in H5 by exact H3.
  split_and!; [exact H1|exact H2|exact H3|exact (Hkeep _ _ H1)|exact H5|
               exact (Hall _ H3)].
Defined.

Lemma split_files_elem dir name :
  name ∈ split_files dir ↔ endswith name ".json" = true ∧ is_Some (dir !! name).
Proof.
  unfold split_files. rewrite merge_sort_Permutation, list_elem_of_filter.
  rewrite elem_of_elements, elem_of_dom. tauto.
Qed.

Lemma split_files_nodup dir : NoDup (split_files dir).
Proof.
  unfold split_files. rewrite merge_sort_Permutation.
  apply NoDup_filter, NoDup_elements.
Qed.

Lemma split_files_sorted dir : StronglySorted String.le (split_files dir).
Proof. unfold split_files. apply (StronglySorted_merge_sort _). Qed.

Lemma strongly_sorted_filter {A} (R : relation A) (P : A → Prop)
    `{!∀ x, Decision (P x)} l :
  StronglySorted R l → StronglySorted R (filter P l).
Proof.
  induction 1 as [|x l Hl IH Hx]; [constructor|].
  rewrite filter_cons. case_decide; [|done].
  constructor; [done|]. apply Forall_forall.
  intros y [_ Hy]%list_elem_of_filter. by eapply Forall_forall in Hx.
Qed.

Lemma new_records_names dir existing names :
  filename <$> new_records dir existing names
  = filter (λ n, (n ∉ existing) ∧ is_Some (read_words dir n)) names.
Proof.
  induction names as [|name names IH]; [done|].
  unfold new_records. csimpl. fold (new_records dir existing names).
  rewrite filter_cons. case_bool_decide as Hin.
  { rewrite decide_False by tauto. done. }
  destruct (read_words dir name) as [ws|] eqn:Hws; csimpl.
  - rewrite decide_True by eauto. by rewrite IH.
  - rewrite decide_False; [done|]. by intros [_ [? ?]].
Qed.

Lemma scan_loop dir t names :
  let added := new_records dir [] names in
  foldl (scan_file dir) t names
  = {| files := files t ++ added;
       completed_files := completed_files t;
       statistics :=
         {| total_files := total_files (statistics t);
            n_completed_files := n_completed_files (statistics t);
            total_words := total_words (statistics t)
                           + sum_list (word_count <$> added);
            downloaded_audios := downloaded_audios (statistics t);
            failed_downloads := failed_downloads (statistics t);
            skipped_phrases := skipped_phrases (statistics t) |} |}.
Proof.
  cbv zeta. revert t. induction names as [|name names IH]; intros t.
  { destruct t as [fs cs []]. simpl. rewrite app_nil_r.
    do 2 f_equal. lia. }
  assert (new_records dir [] (name :: names)
          = match read_words dir name with
            | Some ws => new_file_info name (length ws) :: new_records dir [] names
            | None => new_records dir [] names
            end) as ->.
  { unfold new_records. csimpl. by destruct (read_words dir name). }
  simpl. rewrite IH. unfold scan_file.
  destruct (read_words dir name) as [ws|]; simpl; [|done].
  rewrite <-app_assoc. simpl. do 2 f_equal.
  rewrite <-Nat.add_assoc. reflexivity.
Qed.

Lemma create_initial_todos_eq dir :
  let added := new_records dir [] (split_files dir) in
  create_initial_todos dir
  = {| files := added; completed_files := [];
       statistics :=
         {| total_files := length added; n_completed_files := 0;
            total_words := sum_list (word_count <$> added);
            downloaded_audios := 0; failed_downloads := 0;
            skipped_phrases := 0 |} |}.
Proof. unfold create_initial_todos. by rewrite scan_loop. Qed.

(** X8.  A new checkpoint has one record for each [.json] name of the
    partition directory whose file can be read, and no other; the
    records are [pending] with zero counters and no timestamp, bear the
    number of words read, come in the ascending order of their names
    without repetition; no file is completed, [total_files] is the
    number of records, [total_words] the sum of their word counts and
    the other statistics are 0. *)
Theorem create_initial_todos_spec (dir : split_dir) :
  let t := create_initial_todos dir in
  Forall (λ r, status r = pending ∧ completed_words r = 0 ∧ failed_words r = 0
               ∧ last_updated r = None
               ∧ ∃ ws, read_words dir (filename r) = Some ws
                       ∧ word_count r = length ws) (files t) ∧
  (∀ name, name ∈ filename <$> files t
           ↔ endswith name ".json" = true ∧ is_Some (read_words dir name)) ∧
  StronglySorted String.le (filename <$> files t) ∧
  NoDup (filename <$> files t) ∧
  completed_files t = [] ∧
  statistics t
  = {| total_files := length (files t); n_completed_files := 0;
       total_words := sum_list (word_count <$> files t);
       downloaded_audios := 0; failed_downloads := 0; skipped_phrases := 0 |}.
Proof.
  intros t. unfold t. rewrite create_initial_todos_eq. simpl.
  split_and!; try done.
  - eapply Forall_impl; [apply new_records_spec|]. naive_solver.
  - intros name. rewrite new_records_names, list_elem_of_filter, split_files_elem.
    split.
    + intros [[_ Hread] [Hname _]]. done.
    + intros [Hname [ws Hread]]. split_and!; [apply not_elem_of_nil|eauto|done|].
      unfold read_words in Hread. destruct (dir !! name); [eauto|done].
  - rewrite new_records_names. apply strongly_sorted_filter, split_files_sorted.
  - rewrite new_records_names. apply NoDup_filter, split_files_nodup.
Qed.

(** ** Audio fetcher: one download *)

Lemma download_audio_true {M : str_methods} o word audio_type w msg w' :
  download_audio o word audio_type w = (true, msg, w') →
  is_phrase word = false ∧ audio_filename word audio_type ∈ audio_files w'.
Proof.
  unfold download_audio. intros H.
  repeat (case_match || case_bool_decide); simplify_eq; simpl;
    (split; [done|]); try done; set_solver.
Qed.



(** X10.  Once a call of [download_audio] has succeeded for a word and
    a variant, every later call for them succeeds as "already exists",
    whatever the network has become and whatever was downloaded in
    between: it issues no request and writes nothing. *)
Theorem download_audio_once {M : str_methods} o word audio_type w w1 w2 msg :
  download_audio o word audio_type w = (true, msg, w1) →
  audio_files w1 ⊆ audio_files w2 →
  ∀ o', download_audio o' word audio_type w2
        = (true, AlreadyExists, log_attempt word audio_type w2).
Proof.
  intros [Hphrase Hfile]%download_audio_true Hsub o'.
  unfold download_audio. rewrite Hphrase. simpl.
  rewrite bool_decide_eq_true_2; [done|]. set_solver.
Qed.

Lemma download_audio_once_witness :
  let w1 := (download_audio online "cat" 2 empty_world).2 in
  download_audio online "cat" 2 empty_world = (true, Downloaded, w1) ∧
  audio_files w1 ⊆ audio_files w1 ∧
  download_audio offline "cat" 2 w1 = (true, AlreadyExists, log_attempt "cat" 2 w1).
Proof.
  intros w1.
  assert (download_audio online "cat" 2 empty_world = (true, Downloaded, w1)) as H1
    by (vm_compute; reflexivity).
  assert (audio_files w1 ⊆ audio_files w1) as H2 by done.
  split_and!; [exact H1|exact H2|].
  exact (download_audio_once _ _ _ _ _ _ _ H1 H2 offline).
Defined.

(** ** Audio fetcher: one file *)

Lemma process_file_unfold {M : str_methods} o dir name st idx r words :
  list_find (λ f, filename f = name) (files (todos st)) = Some (idx, r) →
  status r ≠ completed →
  read_words dir name = Some words →
  let ls := foldl (process_word o idx) (start_file o idx st) (enumerate 1 words) in
  process_file o dir name st
  = (true, finish_file o idx name ls,
     Some (success_count ls, fail_count ls, skipped_count ls)).
Proof.
  intros Hfind Hstatus Hread. unfold process_file.
  rewrite Hfind, bool_decide_eq_false_2, Hread by done. reflexivity.
Qed.

Lemma process_loop_invariant {M : str_methods} (P : loop_state → Prop) o idx :
  (∀ ls iw, P ls → P (process_word o idx ls iw)) →
  ∀ l ls, P ls → P (foldl (process_word o idx) ls l).
Proof.
  intros Hstep l. induction l as [|iw l IH]; intros ls Hls; simpl; [done|].
  by apply IH, Hstep.
Qed.

Lemma start_file_found o idx st r :
  files (todos st) !! idx = Some r →
  let r1 := set_last_updated (strftime o (ticks st)) (set_status processing r) in
  run_state (start_file o idx st)
  = {| todos := set_files (<[idx := r1]> (files (todos st))) (todos st);
       saved := saved st; world := world st; ticks := S (ticks st);
       file_log := file_log st ++ [(idx, r1)] |}.
Proof.
  intros Hr. unfold start_file. simpl.
  by rewrite (update_file_found idx _ _ r).
Qed.

(** The record at [idx] when the loop ends, and the rest of the files. *)
Lemma loop_files {M : str_methods} o idx st r words :
  files (todos st) !! idx = Some r →
  let ls := foldl (process_word o idx) (start_file o idx st) (enumerate 1 words) in
  ∃ cur,
    files (todos (run_state ls)) = <[idx := cur]> (files (todos st)) ∧
    filename cur = filename r ∧ word_count cur = word_count r ∧
    status cur = processing.
Proof.
  intros Hr ls.
  pose proof (lookup_lt_Some _ _ _ Hr) as Hidx.
  set (r1 := set_last_updated (strftime o (ticks st)) (set_status processing r)).
  set (P := λ ls : loop_state,
         ∃ cur, files (todos (run_state ls)) = <[idx := cur]> (files (todos st))
                ∧ filename cur = filename r ∧ word_count cur = word_count r
                ∧ status cur = processing).
  apply (process_loop_invariant P o idx).
  - intros ls0 [i wobj] (cur & Hfiles & Hn & Hc & Hs). unfold P, process_word.
    assert (files (todos (run_state ls0)) !! idx = Some cur) as Hcur.
    { rewrite Hfiles. by apply list_lookup_insert_eq. }
    case_bool_decide; [by exists cur|].
    destruct (is_phrase _); [by exists cur|].
    destruct (download_audio _ _ 1 _) as [[success_uk msg_uk] w1].
    destruct (download_audio _ _ 2 _) as [[success_us msg_us] w2].
    destruct (success_uk && success_us); case_bool_decide; simpl;
      try (by exists cur).
    all: rewrite (update_file_found idx _ _ cur) by done; simpl;
      eexists; rewrite Hfiles, list_insert_insert_eq; split; [done|]; done.
  - exists r1. rewrite (start_file_found o idx st r Hr). simpl. done.
Qed.

Lemma finish_file_found o idx name ls cur :
  files (todos (run_state ls)) !! idx = Some cur →
  let rn := set_last_updated (strftime o (ticks (run_state ls)))
              (set_status completed
                 (set_counts (success_count ls) (fail_count ls) cur)) in
  let t := set_files (<[idx := rn]> (files (todos (run_state ls))))
                     (todos (run_state ls)) in
  finish_file o idx name ls
  = {| todos := mark_completed name t;
       saved := saved (run_state ls) ++ [mark_completed name t];
       world := world (run_state ls);
       ticks := S (ticks (run_state ls));
       file_log := file_log (run_state ls) ++ [(idx, rn)] |}.
Proof.
  intros Hcur. unfold finish_file. simpl.
  by rewrite (update_file_found idx _ _ cur).
Qed.

Lemma files_mark_completed name t : files (mark_completed name t) = files t.
Proof. unfold mark_completed. by case_bool_decide. Qed.

Lemma elem_of_mark_completed name t : name ∈ completed_files (mark_completed name t).
Proof.
  unfold mark_completed. case_bool_decide; [done|]. simpl.
  apply elem_of_app. right. by left.
Qed.

(** The files of the checkpoint after a file has been read and
    processed. *)
Lemma process_file_files {M : str_methods} o dir name st idx r words :
  list_find (λ f, filename f = name) (files (todos st)) = Some (idx, r) →
  status r ≠ completed →
  read_words dir name = Some words →
  let res := process_file o dir name st in
  ∃ rn s f k,
    res = (true, res.1.2, Some (s, f, k)) ∧
    files (todos res.1.2) = <[idx := rn]> (files (todos st)) ∧
    filename rn = name ∧ word_count rn = word_count r ∧ status rn = completed ∧
    completed_words rn = s ∧ failed_words rn = f ∧
    name ∈ completed_files (todos res.1.2) ∧
    last (saved res.1.2) = Some (todos res.1.2).
Proof.
  intros Hfind Hstatus Hread res. unfold res.
  rewrite (process_file_unfold o dir name st idx r words) by done.
  apply list_find_Some in Hfind as (Hr & Hname & _).
  destruct (loop_files o idx st r words Hr) as (cur & Hfiles & Hn & Hc & Hs).
  set (ls := foldl _ _ _) in *.
  assert (files (todos (run_state ls)) !! idx = Some cur) as Hcur.
  { rewrite Hfiles. apply list_lookup_insert_eq. by eapply lookup_lt_Some. }
  cbn [fst snd]. rewrite (finish_file_found o idx name ls cur Hcur).
  cbn [todos saved].
  eexists _, _, _, _. split_and!; [done| |..].
  - rewrite files_mark_completed. cbn [files set_files]. rewrite Hfiles.
    by rewrite list_insert_insert_eq.
  - simpl. congruence.
  - simpl. congruence.
  - done.
  - done.
  - done.
  - apply elem_of_mark_completed.
  - by rewrite last_snoc.
Qed.

Lemma list_find_same_names (l l' : list file_info) name idx r r' :
  list_find (λ f, filename f = name) l = Some (idx, r) →
  filename <$> l' = filename <$> l →
  l' !! idx = Some r' →
  list_find (λ f, filename f = name) l' = Some (idx, r').
Proof.
  intros (Hr & Hname & Hfirst)%list_find_Some Hnames Hr'.
  apply list_find_Some. split_and!; [done| |].
  - apply (f_equal (λ l, l !! idx)) in Hnames.
    rewrite !list_lookup_fmap, Hr, Hr' in Hnames. simpl in Hnames. congruence.
  - intros j y Hy Hj Hyname.
    apply (f_equal (λ l, l !! j)) in Hnames.
    rewrite !list_lookup_fmap, Hy in Hnames. simpl in Hnames.
    destruct (l !! j) as [y0|] eqn:Hy0; [|done]. simpl in Hnames.
    apply (Hfirst j y0); [done|done|congruence].
Qed.

(** X11.  A file that [process_file] has returned success for is never
    processed again: every later call for that name, whatever the
    partition directory and the network have become, returns success
    and leaves the whole state as it is (no request, no write of the
    checkpoint, statistics unchanged). *)
Theorem process_file_completed_once {M : str_methods} o dir name st :
  (process_file o dir name st).1.1 = true →
  ∀ o' dir',
    process_file o' dir' name (process_file o dir name st).1.2
    = (true, (process_file o dir name st).1.2, None).
Proof.
  intros Hok o' dir'.
  destruct (list_find (λ f, filename f = name) (files (todos st)))
    as [[idx r]|] eqn:Hfind.
  2:{ unfold process_file in Hok. by rewrite Hfind in Hok. }
  destruct (decide (status r = completed)) as [Hdone|Hstatus].
  { assert (process_file o dir name st = (true, st, None)) as ->.
    { unfold process_file. by rewrite Hfind, bool_decide_eq_true_2. }
    simpl. unfold process_file. by rewrite Hfind, bool_decide_eq_true_2. }
  destruct (read_words dir name) as [words|] eqn:Hread.
  2:{ unfold process_file in Hok.
      by rewrite Hfind, bool_decide_eq_false_2, Hread in Hok. }
  destruct (process_file_files o dir name st idx r words Hfind Hstatus Hread)
    as (rn & s & f & k & _ & Hfiles & Hn & _ & Hs & _).
  set (st' := (process_file o dir name st).1.2) in *.
  assert (list_find (λ f, filename f = name) (files (todos st')) = Some (idx, rn))
    as Hfind'.
  { pose proof Hfind as (Hr & Hname & _)%list_find_Some.
    apply (list_find_same_names (files (todos st)) _ _ _ r); [done| |].
    - rewrite Hfiles, list_fmap_insert, list_insert_id; [done|].
      rewrite list_lookup_fmap, Hr. simpl. congruence.
    - rewrite Hfiles. apply list_lookup_insert_eq. by eapply lookup_lt_Some. }
  unfold process_file. by rewrite Hfind', bool_decide_eq_true_2.
Qed.

Lemma process_file_completed_once_witness :
  let dir := one_file [entry "cat" None] in
  let st := load_or_create_todos dir [] empty_world in
  let st' := (process_file online dir "words_001.json" st).1.2 in
  (process_file online dir "words_001.json" st).1.1 = true ∧
  process_file offline unreadable_dir "words_001.json" st' = (true, st', None).
Proof.
  intros dir st st'.
  assert ((process_file online dir "words_001.json" st).1.1 = true) as H
    by (vm_compute; reflexivity).
  split; [exact H|].
  exact (process_file_completed_once _ _ _ _ H offline unreadable_dir).
Defined.

Lemma download_audio_grows {M : str_methods} o word audio_type w :
  let w' := (download_audio o word audio_type w).2 in
  length (requests w') ≤ length (requests w) + 1 ∧
  audio_files w ⊆ audio_files w'.
Proof.
  unfold download_audio.
  repeat (case_match || case_bool_decide); simplify_eq; simpl;
    rewrite ?length_app; simpl; (split; [lia|set_solver]).
Qed.

Lemma world_update_file idx f st : world (update_file idx f st) = world st.
Proof. unfold update_file. by case_match. Qed.

Lemma spoken_cons {M : str_methods} w words :
  spoken (w :: words) = spoken [w] ++ spoken words.
Proof.
  unfold spoken. csimpl. rewrite !filter_cons, filter_nil.
  by case_decide.
Qed.

Lemma phrases_cons {M : str_methods} w words :
  phrases (w :: words) = phrases [w] ++ phrases words.
Proof.
  unfold phrases. csimpl. rewrite !filter_cons, filter_nil.
  by case_decide.
Qed.

(** What one turn of the loop adds to the counters and to the world. *)
Lemma process_word_account {M : str_methods} o idx ls i w :
  let ls' := process_word o idx ls (i, w) in
  success_count ls' + fail_count ls'
  = success_count ls + fail_count ls + length (spoken [w]) ∧
  skipped_count ls' = skipped_count ls + length (phrases [w]) ∧
  attempts (world (run_state ls'))
  = attempts (world (run_state ls)) ++ (spoken [w] ≫= both_variants) ∧
  length (requests (world (run_state ls')))
  ≤ length (requests (world (run_state ls))) + 2 * length (spoken [w]) ∧
  audio_files (world (run_state ls)) ⊆ audio_files (world (run_state ls')).
Proof.
  unfold process_word, spoken, phrases. csimpl. fold (word_of w).
  rewrite !filter_cons, !filter_nil.
  case_bool_decide as Hblank.
  { rewrite !decide_False by tauto. simpl. rewrite app_nil_r.
    split_and!; [lia|lia|done|lia|done]. }
  destruct (is_phrase (word_of w)) eqn:Hphrase.
  { rewrite decide_False, decide_True by (try done; by intros [_ ?]). simpl.
    rewrite app_nil_r. split_and!; [lia|lia|done|lia|done]. }
  rewrite decide_True, decide_False by (try done; by intros [_ ?]).
  pose proof (download_audio_attempts o (word_of w) 1 (world (run_state ls))) as Ha1.
  pose proof (download_audio_grows o (word_of w) 1 (world (run_state ls))) as [Hr1 Hf1].
  destruct (download_audio o (word_of w) 1 _) as [[success_uk msg_uk] w1].
  pose proof (download_audio_attempts o (word_of w) 2 w1) as Ha2.
  pose proof (download_audio_grows o (word_of w) 2 w1) as [Hr2 Hf2].
  destruct (download_audio o (word_of w) 2 w1) as [[success_us msg_us] w2].
  simpl in *.
  assert (attempts w2 = attempts (world (run_state ls))
                        ++ both_variants (word_of w) ++ []) as Ha.
  { rewrite Ha2, Ha1, app_nil_r, <-app_assoc. done. }
  destruct (success_uk && success_us); case_bool_decide; simpl;
    rewrite ?world_update_file; simpl;
    (split_and!; [lia|lia|done|lia|set_solver]).
Qed.

Lemma process_loop_account {M : str_methods} o idx words :
  ∀ start ls,
    let ls' := foldl (process_word o idx) ls (enumerate start words) in
    success_count ls' + fail_count ls'
    = success_count ls + fail_count ls + length (spoken words) ∧
    skipped_count ls' = skipped_count ls + length (phrases words) ∧
    attempts (world (run_state ls'))
    = attempts (world (run_state ls)) ++ (spoken words ≫= both_variants) ∧
    length (requests (world (run_state ls')))
    ≤ length (requests (world (run_state ls))) + 2 * length (spoken words) ∧
    audio_files (world (run_state ls)) ⊆ audio_files (world (run_state ls')).
Proof.
  induction words as [|w words IH]; intros start ls.
  { simpl. rewrite app_nil_r. split_and!; [lia|lia|done|lia|done]. }
  cbn [enumerate foldl]. cbv zeta.
  specialize (IH (S start) (process_word o idx ls (start, w))).
  destruct IH as (IH1 & IH2 & IH3 & IH4 & IH5).
  destruct (process_word_account o idx ls start w) as (H1 & H2 & H3 & H4 & H5).
  rewrite (spoken_cons w words), (phrases_cons w words).
  rewrite bind_app, !length_app.
  split_and!.
  - lia.
  - lia.
  - rewrite IH3, H3, <-app_assoc. done.
  - lia.
  - set_solver.
Qed.

(** X12.  Processing a file that can be read accounts for every word of
    it: the words it counts as done or failed, which it writes in the
    record, are as many as the words that are neither blank nor
    phrases, and the skipped ones as many as the phrases.  It calls
    [download_audio] for the British and then the American variant of
    each such word, in the order of the file, and for nothing else;
    it issues at most two requests a word and removes nothing from the
    audio directory.  Only the record of the file changes, it ends
    [completed], and the checkpoint on disk is the one in memory. *)
Theorem process_file_accounting {M : str_methods} o dir name st idx r words :
  list_find (λ f, filename f = name) (files (todos st)) = Some (idx, r) →
  status r ≠ completed →
  read_words dir name = Some words →
  let res := process_file o dir name st in
  ∃ rn s f k,
    res = (true, res.1.2, Some (s, f, k)) ∧
    files (todos res.1.2) = <[idx := rn]> (files (todos st)) ∧
    filename rn = name ∧ word_count rn = word_count r ∧ status rn = completed ∧
    completed_words rn = s ∧ failed_words rn = f ∧
    s + f = length (spoken words) ∧
    k = length (phrases words) ∧
    attempts (world res.1.2)
    = attempts (world st) ++ (spoken words ≫= both_variants) ∧
    length (requests (world res.1.2))
    ≤ length (requests (world st)) + 2 * length (spoken words) ∧
    audio_files (world st) ⊆ audio_files (world res.1.2) ∧
    name ∈ completed_files (todos res.1.2) ∧
    last (saved res.1.2) = Some (todos res.1.2).
Proof.
  intros Hfind Hstatus Hread res.
  destruct (process_file_files o dir name st idx r words Hfind Hstatus Hread)
    as (rn & s & f & k & Hres & Hfiles & Hn & Hc & Hs & Hcw & Hfw & Hin & Hlast).
  fold res in Hres, Hfiles, Hin, Hlast.
  exists rn, s, f, k.
  pose proof (process_file_unfold o dir name st idx r words Hfind Hstatus Hread)
    as Hunfold.
  fold res in Hunfold. cbv zeta in Hunfold.
  destruct (process_loop_account o idx words 1 (start_file o idx st))
    as (H1 & H2 & H3 & H4 & H5).
  set (ls := foldl _ _ _) in *.
  assert (world (run_state (start_file o idx st)) = world st) as Hw0.
  { unfold start_file. simpl. by rewrite world_update_file. }
  assert (world res.1.2 = world (run_state ls)) as Hw.
  { rewrite Hunfold. cbn [fst snd]. unfold finish_file. simpl.
    by rewrite world_update_file. }
  rewrite Hunfold in Hres. injection Hres as Hs' Hf' Hk'.
  rewrite Hw0 in H3, H4, H5. simpl in H1, H2.
  rewrite Hw.
  split_and!;
    first [done | lia | rewrite Hunfold; cbn [fst snd]; by rewrite Hs', Hf', Hk'].
Qed.

Lemma process_file_accounting_witness :
  let dir := one_file eleven_words in
  let st := load_or_create_todos dir [] empty_world in
  let res := process_file flaky dir "words_001.json" st in
  ∃ rn s f k,
    res = (true, res.1.2, Some (s, f, k)) ∧
    files (todos res.1.2) = <[0 := rn]> (files (todos st)) ∧
    status rn = completed ∧ completed_words rn = s ∧ failed_words rn = f ∧
    s + f = 10 ∧ k = 1 ∧
    length (attempts (world res.1.2)) = 20.
Proof.
  intros dir st res.
  assert (list_find (λ f, filename f = "words_001.json") (files (todos st))
          = Some (0, new_file_info "words_001.json" 11)) as H1
    by (vm_compute; reflexivity).
  assert (status (new_file_info "words_001.json" 11) ≠ completed) as H2 by done.
  assert (read_words dir "words_001.json" = Some eleven_words) as H3
    by (vm_compute; reflexivity).
  destruct (process_file_accounting flaky dir "words_001.json" st 0 _ _ H1 H2 H3)
    as (rn & s & f & k & Hres & Hfiles & _ & _ & Hs & Hcw & Hfw & Hsum & Hk & Ha & _).
  exists rn, s, f, k.
  split_and!; [exact Hres|exact Hfiles|exact Hs|exact Hcw|exact Hfw
              |exact Hsum|exact Hk|].
  fold res in Ha. rewrite Ha. vm_compute. reflexivity.
Defined.

(** ** Audio fetcher: the bookkeeping of the checkpoint *)

Lemma skeleton_views t t' :
  skeleton t = skeleton t' →
  length (files t) = length (files t') ∧
  word_count <$> files t = word_count <$> files t' ∧
  filename <$> files t = filename <$> files t' ∧
  (λ r, (filename r, status r)) <$> files t
  = (λ r, (filename r, status r)) <$> files t' ∧
  completed_files t = completed_files t' ∧
  total_files (statistics t) = total_files (statistics t') ∧
  total_words (statistics t) = total_words (statistics t') ∧
  n_completed_files (statistics t) = n_completed_files (statistics t').
Proof.
  unfold skeleton. intros [= H1 H2 H3 H4 H5]. split_and!; try done.
  - apply (f_equal length) in H1. by rewrite !length_fmap in H1.
  - apply (f_equal (fmap (λ x : string * nat * status_t, x.1.2))) in H1.
    rewrite <-!list_fmap_compose in H1. exact H1.
  - apply (f_equal (fmap (λ x : string * nat * status_t, x.1.1))) in H1.
    rewrite <-!list_fmap_compose in H1. exact H1.
  - apply (f_equal (fmap (λ x : string * nat * status_t, (x.1.1, x.2)))) in H1.
    rewrite <-!list_fmap_compose in H1. exact H1.
Qed.

Lemma todos_ok_skeleton t t' :
  skeleton t = skeleton t' → todos_ok t → todos_ok t'.
Proof.
  intros (H1 & H2 & H3 & H4 & H5 & H6 & H7 & H8)%skeleton_views [].
  split; rewrite <-?H1, <-?H2, <-?H3, <-?H4, <-?H5, <-?H6, <-?H7, <-?H8; done.
Qed.

Lemma skeleton_update_file idx f st :
  (∀ r, filename (f r) = filename r ∧ word_count (f r) = word_count r
        ∧ status (f r) = status r) →
  skeleton (todos (update_file idx f st)) = skeleton (todos st).
Proof.
  intros Hf. unfold update_file.
  destruct (files (todos st) !! idx) as [r|] eqn:Hr; [|done].
  unfold skeleton. simpl. rewrite list_fmap_insert, list_insert_id; [done|].
  rewrite list_lookup_fmap, Hr. simpl.
  destruct (Hf r) as (-> & -> & ->). done.
Qed.

Lemma state_ok_save st : state_ok st → state_ok (save_todos st).
Proof.
  intros [Ht Hs]. split; [done|]. simpl. apply Forall_app. split; [done|].
  by constructor.
Qed.

Lemma state_ok_process_word {M : str_methods} o idx ls iw :
  state_ok (run_state ls) → state_ok (run_state (process_word o idx ls iw)).
Proof.
  intros Hok. destruct iw as [i w]. unfold process_word.
  case_bool_decide; [done|].
  destruct (is_phrase _).
  { destruct Hok as [Ht Hs]. split; [|done]. simpl.
    by apply (todos_ok_skeleton (todos (run_state ls))). }
  destruct (download_audio _ _ 1 _) as [[success_uk msg_uk] w1].
  destruct (download_audio _ _ 2 _) as [[success_us msg_us] w2].
  assert (∀ g, (∀ s, total_files (g s) = total_files s
                     ∧ total_words (g s) = total_words s
                     ∧ n_completed_files (g s) = n_completed_files s) →
               state_ok (update_statistics g (set_world w2 (run_state ls))))
    as Hstat.
  { intros g Hg. destruct Hok as [Ht Hs]. split; [|done]. simpl.
    apply (todos_ok_skeleton (todos (run_state ls))); [|done].
    unfold skeleton. simpl.
    destruct (Hg (statistics (todos (run_state ls)))) as (-> & -> & ->). done. }
  assert (∀ st c k, state_ok st →
                    state_ok (save_todos (update_file idx (set_counts c k) st)))
    as Hsave.
  { intros st c k [Ht Hs]. apply state_ok_save. split.
    - apply (todos_ok_skeleton (todos st)); [|done].
      symmetry. by apply skeleton_update_file.
    - unfold update_file. by case_match. }
  destruct (success_uk && success_us); case_bool_decide; simpl;
    try apply Hsave; by apply Hstat.
Qed.

Lemma list_elem_of_insert_iff {A} (l : list A) i x y :
  y ∈ <[i := x]> l
  ↔ (y = x ∧ i < length l) ∨ ∃ j, j ≠ i ∧ l !! j = Some y.
Proof.
  rewrite list_elem_of_lookup. split.
  - intros [j [(-> & -> & ?)|[? ?]]%list_lookup_insert_Some]; [by left|].
    right. by exists j.
  - intros [[-> ?]|(j & ? & ?)].
    + exists i. by apply list_lookup_insert_eq.
    + exists j. by rewrite list_lookup_insert_ne.
Qed.

(** A record that changes its status, none of the two being
    [completed]. *)
Lemma todos_ok_restatus t idx r r' :
  todos_ok t → files t !! idx = Some r →
  filename r' = filename r → word_count r' = word_count r →
  status r ≠ completed → status r' ≠ completed →
  todos_ok (set_files (<[idx := r']> (files t)) t).
Proof.
  intros [H1 H2 H3 H4 H5 H6] Hr Hn Hc Hs Hs'. split; simpl; try done.
  - by rewrite length_insert.
  - rewrite list_fmap_insert, list_insert_id; [done|].
    rewrite list_lookup_fmap, Hr. simpl. congruence.
  - rewrite list_fmap_insert, list_insert_id; [done|].
    rewrite list_lookup_fmap, Hr. simpl. congruence.
  - intros name. rewrite H6, list_fmap_insert, list_elem_of_insert_iff.
    rewrite list_elem_of_lookup. split.
    + intros [j Hj]. right. exists j. split; [|done]. intros ->.
      rewrite list_lookup_fmap, Hr in Hj. simpl in Hj. congruence.
    + intros [[[= ? ?] _]|(j & _ & Hj)]; [congruence|by exists j].
Qed.

(** A record that becomes [completed], its name entered in the list of
    completed files. *)
Lemma todos_ok_complete t idx r r' :
  todos_ok t → files t !! idx = Some r →
  filename r' = filename r → word_count r' = word_count r →
  status r' = completed →
  todos_ok (mark_completed (filename r)
              (set_files (<[idx := r']> (files t)) t)).
Proof.
  intros [H1 H2 H3 H4 H5 H6] Hr Hn Hc Hs.
  assert (∀ name, name ∈ completed_files t ∨ name = filename r
                  ↔ (name, completed)
                    ∈ (λ r, (filename r, status r)) <$> <[idx := r']> (files t))
    as H6'.
  { intros name. rewrite H6, list_fmap_insert, list_elem_of_insert_iff.
    rewrite list_elem_of_lookup, length_fmap.
    pose proof (lookup_lt_Some _ _ _ Hr) as Hidx. split.
    - intros [[j Hj]| ->].
      + destruct (decide (j = idx)) as [->|Hne]; [|right; by exists j].
        left. split; [|done].
        rewrite list_lookup_fmap, Hr in Hj. simpl in Hj. congruence.
      + left. split; [|done]. congruence.
    - intros [[[= ? ?] _]|(j & _ & Hj)]; [right; congruence|left; by exists j]. }
  assert (length (<[idx := r']> (files t)) = length (files t)) as Hlen
    by apply length_insert.
  assert (word_count <$> <[idx := r']> (files t) = word_count <$> files t) as Hwc.
  { rewrite list_fmap_insert, list_insert_id; [done|].
    rewrite list_lookup_fmap, Hr. simpl. congruence. }
  assert (filename <$> <[idx := r']> (files t) = filename <$> files t) as Hfn.
  { rewrite list_fmap_insert, list_insert_id; [done|].
    rewrite list_lookup_fmap, Hr. simpl. congruence. }
  unfold mark_completed. simpl. case_bool_decide as Hin.
  - split; simpl; try done; try congruence.
    intros name. rewrite <-H6'. split; [tauto|]. by intros [?| ->].
  - split; simpl; try done; try congruence.
    + rewrite length_app. simpl. lia.
    + apply NoDup_app. split_and!; [done| |apply NoDup_singleton].
      intros x Hx ->%list_elem_of_singleton. done.
    + intros name. rewrite <-H6', elem_of_app, list_elem_of_singleton. done.
Qed.

(** Pending records appended, with names that are new. *)
Lemma todos_ok_append t added s :
  todos_ok t →
  NoDup (filename <$> added) →
  Forall (λ r, status r = pending ∧ filename r ∉ filename <$> files t) added →
  total_files s = total_files (statistics t) + length added →
  total_words s = total_words (statistics t) + sum_list (word_count <$> added) →
  n_completed_files s = n_completed_files (statistics t) →
  todos_ok {| files := files t ++ added; completed_files := completed_files t;
              statistics := s |}.
Proof.
  intros [H1 H2 H3 H4 H5 H6] Hnodup Hadded Hs1 Hs2 Hs3.
  rewrite Forall_forall in Hadded. split; simpl; try done.
  - rewrite length_app. lia.
  - rewrite fmap_app, sum_list_with_app. lia.
  - rewrite fmap_app. apply NoDup_app. split_and!; [done| |done].
    intros name Hname (r & -> & Hr)%list_elem_of_fmap.
    by destruct (Hadded r Hr).
  - congruence.
  - intros name. rewrite H6, fmap_app, elem_of_app. split; [by left|].
    intros [?|(r & [= ? Hs] & Hr)%list_elem_of_fmap]; [done|].
    destruct (Hadded r Hr). congruence.
Qed.

Lemma new_records_append_ok dir t s :
  todos_ok t →
  let added := new_records dir (filename <$> files t) (split_files dir) in
  total_files s = total_files (statistics t) + length added →
  total_words s = total_words (statistics t) + sum_list (word_count <$> added) →
  n_completed_files s = n_completed_files (statistics t) →
  todos_ok {| files := files t ++ added; completed_files := completed_files t;
              statistics := s |}.
Proof.
  intros Hok added. apply todos_ok_append; [done| |].
  - unfold added. rewrite new_records_names.
    apply NoDup_filter, split_files_nodup.
  - eapply Forall_impl; [apply new_records_spec|]. simpl. tauto.
Qed.

Lemma todos_ok_create dir : todos_ok (create_initial_todos dir).
Proof.
  rewrite create_initial_todos_eq.
  apply (new_records_append_ok dir
           {| files := []; completed_files := []; statistics := empty_statistics |});
    [|done..].
  split; simpl; try done; try apply NoDup_nil_2.
  intros name. split; by intros ?%elem_of_nil.
Qed.

Lemma state_ok_load dir disk w :
  Forall todos_ok disk → state_ok (load_or_create_todos dir disk w).
Proof.
  intros Hdisk. apply state_ok_save. split; [|done]. simpl.
  destruct (last disk) as [t|] eqn:Hlast; [|apply todos_ok_create].
  rewrite Forall_forall in Hdisk. apply Hdisk.
  apply last_Some in Hlast as [l' ->]. apply elem_of_app. right. by left.
Qed.

Lemma state_ok_rescan dir st :
  state_ok st → state_ok (rescan_files dir st).2.
Proof.
  intros [Ht Hs]. unfold rescan_files. rewrite rescan_loop.
  set (t' := {| files := _ |}).
  assert (todos_ok t') as Ht' by (by apply new_records_append_ok).
  case_bool_decide; [apply state_ok_save|]; by split.
Qed.

Lemma state_ok_process_file {M : str_methods} o dir name st :
  state_ok st → state_ok (process_file o dir name st).1.2.
Proof.
  intros Hok.
  destruct (list_find (λ f, filename f = name) (files (todos st)))
    as [[idx r]|] eqn:Hfind.
  2:{ unfold process_file. by rewrite Hfind. }
  destruct (decide (status r = completed)) as [Hdone|Hstatus].
  { unfold process_file. by rewrite Hfind, bool_decide_eq_true_2. }
  pose proof Hfind as (Hr & Hname & _)%list_find_Some.
  destruct (read_words dir name) as [words|] eqn:Hread.
  2:{ unfold process_file. rewrite Hfind, bool_decide_eq_false_2, Hread by done.
      cbn [fst snd]. apply state_ok_save.
      rewrite (update_file_found idx _ _ r Hr). destruct Hok as [Ht Hs].
      split; [|done]. simpl. by apply (todos_ok_restatus _ _ r). }
  rewrite (process_file_unfold o dir name st idx r words) by done.
  cbn [fst snd].
  destruct (loop_files o idx st r words Hr) as (cur & Hfiles & Hn & Hc & Hs).
  assert (state_ok (run_state (start_file o idx st))) as Hstart.
  { rewrite (start_file_found o idx st r Hr). destruct Hok as [Ht Hsv].
    split; [|done]. simpl. by apply (todos_ok_restatus _ _ r). }
  pose proof (process_loop_invariant (λ ls, state_ok (run_state ls)) o idx
                (state_ok_process_word o idx) (enumerate 1 words) _ Hstart)
    as Hend.
  set (ls := foldl _ _ _) in *. simpl in Hend.
  assert (files (todos (run_state ls)) !! idx = Some cur) as Hcur.
  { rewrite Hfiles. apply list_lookup_insert_eq. by eapply lookup_lt_Some. }
  rewrite (finish_file_found o idx name ls cur Hcur).
  destruct Hend as [Ht Hsv].
  assert (todos_ok
            (mark_completed name
               (set_files
                  (<[idx := set_last_updated (strftime o (ticks (run_state ls)))
                              (set_status completed
                                 (set_counts (success_count ls) (fail_count ls) cur))]>
                     (files (todos (run_state ls))))
                  (todos (run_state ls))))) as Hfin.
  { replace name with (filename cur) by congruence.
    by apply todos_ok_complete. }
  split; [done|]. simpl. apply Forall_app. split; [done|]. by constructor.
Qed.

Lemma state_ok_reachable {M : str_methods} st : reachable st → state_ok st.
Proof.
  induction 1 as [dir w|st dir k w _ IH Hk|st dir _ IH|st o dir name _ IH].
  - by apply state_ok_load.
  - apply state_ok_load. destruct IH as [_ Hs]. by apply Forall_take.
  - by apply state_ok_rescan.
  - by apply state_ok_process_file.
Qed.

(** X13.  In every state the fetcher reaches, by starting (on no
    checkpoint, or on one that a run killed at any moment has left),
    rescanning and processing files, the checkpoint in memory and every
    checkpoint written so far keep their books: the totals of files and
    of words are those of the records, no two records have the same
    name, [completed_files] has no name twice and as many names as the
    statistics say, and a name is in it exactly when a record of that
    name has the status [completed]. *)
Theorem reachable_bookkeeping {M : str_methods} st t :
  reachable st → t = todos st ∨ t ∈ saved st → todos_ok t.
Proof.
  intros [Ht Hs]%state_ok_reachable [->|Hin]; [done|].
  rewrite Forall_forall in Hs. by apply Hs.
Qed.

Lemma reachable_bookkeeping_witness :
  let dir := one_file many_words in
  let st1 := (process_file online dir "words_001.json"
                (load_or_create_todos dir [] empty_world)).1.2 in
  let st := load_or_create_todos dir (take 2 (saved st1)) empty_world in
  reachable st ∧ todos_ok (todos st).
Proof.
  intros dir st1 st.
  assert (reachable st) as H1.
  { apply reach_restart; [|lia]. apply reach_process, reach_first. }
  assert (todos st = todos st ∨ todos st ∈ saved st) as H2 by (left; reflexivity).
  split; [exact H1|]. exact (reachable_bookkeeping st (todos st) H1 H2).
Defined.

Lemma rescan_files_eq dir st :
  let added := new_records dir (filename <$> files (todos st)) (split_files dir) in
  rescan_files dir st
  = match added with
    | [] => (0, st)
    | _ :: _ =>
        (length added,
         save_todos
           (set_todos
              {| files := files (todos st) ++ added;
                 completed_files := completed_files (todos st);
                 statistics :=
                   add_file_totals (length added) (sum_list (word_count <$> added))
                                   (statistics (todos st)) |} st))
    end.
Proof.
  intros added. unfold rescan_files. rewrite rescan_loop. fold added.
  destruct added as [|r added]; simpl.
  - destruct st as [[fs cs []] sv w tk lg]. unfold set_todos. simpl.
    rewrite app_nil_r, !Nat.add_0_r. done.
  - done.
Qed.

Lemma last_saved_process_file {M : str_methods} o dir name st :
  last (saved st) = Some (todos st) →
  let st' := (process_file o dir name st).1.2 in
  last (saved st') = Some (todos st').
Proof.
  intros Hlast. unfold process_file.
  destruct (list_find _ _) as [[idx r]|]; [|done].
  case_bool_decide; [done|].
  destruct (read_words dir name); cbn [fst snd]; simpl; by rewrite last_snoc.
Qed.

(** X14.  Between two operations the checkpoint file holds what is in
    memory: in every state the fetcher reaches by starting, rescanning
    and processing files, the last checkpoint written is the one in
    memory. *)
Theorem reachable_saved {M : str_methods} st :
  reachable st → last (saved st) = Some (todos st).
Proof.
  induction 1 as [dir w|st dir k w _ IH Hk|st dir _ IH|st o dir name _ IH].
  - apply last_snoc.
  - apply last_snoc.
  - rewrite rescan_files_eq. destruct (new_records _ _ _); [done|].
    simpl. by rewrite last_snoc.
  - by apply last_saved_process_file.
Qed.

Lemma reachable_saved_witness :
  let st := (rescan_files rescan_dir
               (load_or_create_todos (one_file []) [] empty_world)).2 in
  reachable st ∧ last (saved st) = Some (todos st).
Proof.
  intros st.
  assert (reachable st) as H1 by apply reach_rescan, reach_first.
  split; [exact H1|]. exact (reachable_saved st H1).
Defined.

(** ** Audio fetcher: rescanning twice *)

Lemma new_records_nil dir existing names :
  (∀ name, name ∈ names → name ∈ existing ∨ read_words dir name = None) →
  new_records dir existing names = [].
Proof.
  induction names as [|name names IH]; intros Hall; [done|].
  unfold new_records. csimpl. fold (new_records dir existing names).
  rewrite IH by (intros n Hn; apply Hall; by right).
  destruct (Hall name) as [Hin| ->]; [by left| |].
  - by rewrite bool_decide_eq_true_2.
  - by case_bool_decide.
Qed.

(** X15.  A rescan of a directory that was just rescanned finds nothing:
    it adds no record, writes no checkpoint and leaves the state as it
    is. *)
Theorem rescan_files_idempotent dir st :
  rescan_files dir (rescan_files dir st).2 = (0, (rescan_files dir st).2).
Proof.
  pose proof (rescan_files_eq dir st) as Hfirst. cbv zeta in Hfirst.
  destruct (new_records dir (filename <$> files (todos st)) (split_files dir))
    as [|r added] eqn:Hadded.
  { rewrite Hfirst. simpl. rewrite rescan_files_eq. by rewrite Hadded. }
  rewrite Hfirst. cbn [snd]. rewrite rescan_files_eq.
  rewrite new_records_nil; [done|].
  intros name Hname. simpl. rewrite fmap_app, elem_of_app.
  destruct (decide (name ∈ filename <$> files (todos st))) as [Hin|Hnew];
    [by left; left|].
  destruct (read_words dir name) as [ws|] eqn:Hws; [|by right].
  left. right. rewrite <-Hadded. by apply new_records_complete.
Qed.

(** ** Audio fetcher: a run *)

Lemma run_pending_reachable {M : str_methods} o dir num_files :
  ∀ st, reachable st → reachable (run_pending o dir num_files st).
Proof.
  induction num_files as [|n IH]; intros st Hst; simpl; [done|].
  destruct (get_next_pending_file (todos st)); [|done].
  case_bool_decide; [done|]. by apply IH, reach_process.
Qed.

Lemma run_targets_reachable {M : str_methods} o dir target_files :
  ∀ st, reachable st → reachable (run_targets o dir target_files st).
Proof.
  unfold run_targets.
  induction target_files as [|name l IH]; intros st Hst; simpl; [done|].
  apply IH. case_bool_decide; [by apply reach_process|done].
Qed.

(** X16.  A run, with or without a rescan, over the files named or over
    the next [num_files] waiting ones, is a sequence of the operations
    that define the reachable states: what holds of every reachable
    state holds after a run. *)
Theorem run_reachable {M : str_methods} o dir target_files num_files rescan st :
  reachable st → reachable (run o dir target_files num_files rescan st).
Proof.
  intros Hst. unfold run.
  assert (reachable (if rescan then (rescan_files dir st).2 else st)) as Hst'.
  { destruct rescan; [by apply reach_rescan|done]. }
  destruct target_files.
  - by apply run_pending_reachable.
  - by apply run_targets_reachable.
Qed.

Lemma run_reachable_witness :
  let st := load_or_create_todos rescan_dir [] empty_world in
  reachable st ∧ reachable (run online rescan_dir [] 2 true st).
Proof.
  intros st.
  assert (reachable st) as H1 by apply reach_first.
  split; [exact H1|]. exact (run_reachable online rescan_dir [] 2 true st H1).
Defined.

Lemma get_next_pending_file_None t :
  get_next_pending_file t = None ↔ Forall (λ r, ¬ waiting r) (files t).
Proof.
  unfold get_next_pending_file.
  rewrite !fmap_None. apply list_find_None.
Qed.

Lemma run_pending_none {M : str_methods} o dir num_files st :
  get_next_pending_file (todos st) = None →
  run_pending o dir num_files st = st.
Proof. intros Hnone. destruct num_files; simpl; [done|]. by rewrite Hnone. Qed.

(** X17.  A file that a killed run has left in the status [processing]
    is not taken up again: when every record is [completed] or
    [processing], a run over the next waiting files processes nothing
    and leaves the state as it is, however many files it is asked
    for. *)
Theorem run_skips_processing {M : str_methods} o dir num_files st :
  Forall (λ r, status r = completed ∨ status r = processing) (files (todos st)) →
  run o dir [] num_files false st = st.
Proof.
  intros Hall. unfold run. apply run_pending_none.
  apply get_next_pending_file_None.
  eapply Forall_impl; [exact Hall|]. unfold waiting.
  intros r [Hs|Hs] [Hw|Hw]; congruence.
Qed.

Lemma run_skips_processing_witness :
  let dir := one_file many_words in
  let st1 := (process_file online dir "words_001.json"
                (load_or_create_todos dir [] empty_world)).1.2 in
  let st := load_or_create_todos dir (take 2 (saved st1)) empty_world in
  (status <$> files (todos st)) = [processing] ∧
  run online dir [] 3 false st = st.
Proof.
  intros dir st1 st.
  assert (Forall (λ r, status r = completed ∨ status r = processing)
                 (files (todos st))) as H1.
  { apply (bool_decide_unpack _). vm_compute. exact I. }
  split; [vm_compute; reflexivity|].
  exact (run_skips_processing online dir 3 st H1).
Defined.

Lemma get_next_pending_file_Some t name :
  get_next_pending_file t = Some name
  ↔ ∃ i r, list_find (λ f, status f = pending ∨ status f = failed) (files t)
           = Some (i, r) ∧ filename r = name.
Proof.
  unfold get_next_pending_file. split.
  - intros (r & (ir & Hfind & ->)%fmap_Some & ->)%fmap_Some.
    destruct ir as [i r]. by exists i, r.
  - intros (i & r & Hfind & <-). by rewrite Hfind.
Qed.

(** The next waiting file cannot be read: it stays the next one. *)
Lemma process_file_unreadable_next {M : str_methods} o dir name st :
  get_next_pending_file (todos st) = Some name →
  read_words dir name = None →
  let st' := (process_file o dir name st).1.2 in
  get_next_pending_file (todos st') = Some name ∧
  world st' = world st ∧
  ∀ j r, files (todos st) !! j = Some r → filename r ≠ name →
         files (todos st') !! j = Some r.
Proof.
  intros Hnext Hread.
  pose proof Hnext as (i0 & r0 & Hwait & Hname0)%get_next_pending_file_Some.
  apply list_find_Some in Hwait as (Hr0 & Hw0 & Hfirst0).
  destruct (list_find (λ f, filename f = name) (files (todos st)))
    as [[idx r]|] eqn:Hfind.
  2:{ unfold process_file. by rewrite Hfind. }
  pose proof Hfind as (Hr & Hname & Hfirst)%list_find_Some.
  assert (idx ≤ i0) as Hle.
  { destruct (decide (idx ≤ i0)); [done|]. exfalso.
    apply (Hfirst i0 r0); [done|lia|done]. }
  unfold process_file. rewrite Hfind, Hread.
  case_bool_decide as Hdone; [done|]. cbn [fst snd].
  rewrite (update_file_found idx _ _ r Hr). simpl.
  split_and!; [|done|].
  - apply get_next_pending_file_Some. exists idx, (set_status failed r).
    split; [|done]. apply list_find_Some. simpl. split_and!.
    + apply list_lookup_insert_eq. by eapply lookup_lt_Some.
    + by right.
    + intros j y Hy Hj. rewrite list_lookup_insert_ne in Hy by lia.
      apply (Hfirst0 j y Hy). lia.
  - intros j y Hy Hne. rewrite list_lookup_insert_ne; [done|].
    intros ->. congruence.
Qed.

(** X18.  A waiting file that cannot be read blocks the queue: a run
    over the next [num_files] waiting files never gets past it.  It is
    still the next one afterwards, nothing is requested or downloaded,
    and the records of the other files, the waiting ones behind it
    among them, are left as they are. *)
Theorem run_blocked_by_unreadable {M : str_methods} o dir num_files st name :
  get_next_pending_file (todos st) = Some name →
  read_words dir name = None →
  let st' := run o dir [] num_files false st in
  get_next_pending_file (todos st') = Some name ∧
  world st' = world st ∧
  ∀ j r, files (todos st) !! j = Some r → filename r ≠ name →
         files (todos st') !! j = Some r.
Proof.
  intros Hnext Hread. unfold run. revert st Hnext.
  induction num_files as [|n IH]; intros st Hnext; simpl; [done|].
  rewrite Hnext. case_bool_decide; [done|].
  destruct (process_file_unreadable_next o dir name st Hnext Hread)
    as (Hnext1 & Hworld1 & Hrest1).
  destruct (IH _ Hnext1) as (Hnext' & Hworld' & Hrest').
  split_and!; [done|congruence|].
  intros j r Hr Hne. apply Hrest'; [by apply Hrest1|done].
Qed.

Lemma run_blocked_by_unreadable_witness :
  let st := load_or_create_todos rescan_dir [] empty_world in
  let st' := run online blocked_dir [] 5 false st in
  get_next_pending_file (todos st) = Some "words_001.json" ∧
  read_words blocked_dir "words_001.json" = None ∧
  get_next_pending_file (todos st') = Some "words_001.json" ∧
  world st' = empty_world ∧
  files (todos st') !! 1 = Some (new_file_info "words_002.json" 2).
Proof.
  intros st st'.
  assert (get_next_pending_file (todos st) = Some "words_001.json") as H1
    by (vm_compute; reflexivity).
  assert (read_words blocked_dir "words_001.json" = None) as H2
    by (vm_compute; reflexivity).
  assert (files (todos st) !! 1 = Some (new_file_info "words_002.json" 2)) as H3
    by (vm_compute; reflexivity).
  assert (filename (new_file_info "words_002.json" 2) ≠ "words_001.json") as H4
    by done.
  destruct (run_blocked_by_unreadable online blocked_dir 5 st _ H1 H2)
    as (Hnext & Hworld & Hrest).
  split_and!; [exact H1|exact H2|exact Hnext|exact Hworld|exact (Hrest _ _ H3 H4)].
Defined.

(** The first waiting record replaced by one that is not waiting. *)
Lemma waiting_files_insert t i r r' :
  list_find (λ f, status f = pending ∨ status f = failed) (files t) = Some (i, r) →
  ¬ waiting r' →
  waiting_files (set_files (<[i := r']> (files t)) t) = drop 1 (waiting_files t).
Proof.
  intros (Hr & Hw & Hfirst)%list_find_Some Hw'. unfold waiting_files. simpl.
  rewrite insert_take_drop by (by eapply lookup_lt_Some).
  rewrite <-(take_drop_middle (files t) i r Hr) at 3.
  rewrite !filter_app, !filter_cons.
  rewrite (decide_True _ _ Hw), (decide_False _ _ Hw').
  rewrite filter_none; [done|].
  apply Forall_lookup. intros j y [Hy Hj]%lookup_take_Some. by eapply Hfirst.
Qed.

(** The next waiting file can be read: it leaves the queue, which is
    otherwise as before. *)
Lemma process_next_file {M : str_methods} o dir st name words :
  NoDup (filename <$> files (todos st)) →
  get_next_pending_file (todos st) = Some name →
  read_words dir name = Some words →
  let st' := (process_file o dir name st).1.2 in
  waiting_files (todos st') = drop 1 (waiting_files (todos st)) ∧
  filename <$> files (todos st') = filename <$> files (todos st) ∧
  ∀ j r, files (todos st) !! j = Some r → ¬ waiting r →
         files (todos st') !! j = Some r.
Proof.
  intros Hnodup (i0 & r0 & Hwait & Hname0)%get_next_pending_file_Some Hread.
  pose proof Hwait as (Hr0 & Hw0 & _)%list_find_Some.
  assert (list_find (λ f, filename f = name) (files (todos st)) = Some (i0, r0))
    as Hfind.
  { destruct (list_find_elem_of (λ f, filename f = name) (files (todos st)) r0)
      as [[idx r] Hfind]; [by eapply list_elem_of_lookup_2|done|].
    pose proof Hfind as (Hr & Hname & _)%list_find_Some.
    assert (idx = i0) as ->.
    { apply (NoDup_lookup (filename <$> files (todos st)) idx i0 name Hnodup);
        rewrite list_lookup_fmap; [rewrite Hr|rewrite Hr0]; simpl; congruence. }
    congruence. }
  assert (status r0 ≠ completed) as Hstatus by (destruct Hw0; congruence).
  destruct (process_file_files o dir name st i0 r0 words Hfind Hstatus Hread)
    as (rn & s & f & k & _ & Hfiles & Hn & _ & Hs & _).
  set (st' := (process_file o dir name st).1.2) in *.
  assert (¬ waiting rn) as Hwn by (intros [?|?]; congruence).
  split_and!.
  - rewrite <-(waiting_files_insert (todos st) i0 r0 rn Hwait Hwn).
    unfold waiting_files. simpl. by rewrite Hfiles.
  - rewrite Hfiles, list_fmap_insert, list_insert_id; [done|].
    rewrite list_lookup_fmap, Hr0. simpl. congruence.
  - intros j r Hr Hnw. rewrite Hfiles, list_lookup_insert_ne; [done|].
    intros ->. apply Hnw. unfold waiting. congruence.
Qed.

(** X19.  When no two records have the same name and every waiting file
    has a name and can be read, a run over the next [num_files] waiting
    files takes them in the order of the checkpoint: the files still
    waiting afterwards are the waiting ones after the first
    [num_files], with their records as they were, and the records that
    were not waiting are as they were too. *)
Theorem run_takes_next_files {M : str_methods} o dir num_files st :
  NoDup (filename <$> files (todos st)) →
  Forall (λ r, filename r ≠ "" ∧ is_Some (read_words dir (filename r)))
         (waiting_files (todos st)) →
  let st' := run o dir [] num_files false st in
  waiting_files (todos st') = drop num_files (waiting_files (todos st)) ∧
  filename <$> files (todos st') = filename <$> files (todos st) ∧
  ∀ j r, files (todos st) !! j = Some r → ¬ waiting r →
         files (todos st') !! j = Some r.
Proof.
  unfold run. revert st.
  induction num_files as [|n IH]; intros st Hnodup Hread; simpl; [done|].
  destruct (get_next_pending_file (todos st)) as [name|] eqn:Hnext.
  2:{ apply get_next_pending_file_None in Hnext.
      unfold waiting_files. rewrite filter_none by done. done. }
  pose proof Hnext as (i0 & r0 & Hwait & Hname0)%get_next_pending_file_Some.
  assert (r0 ∈ waiting_files (todos st)) as Hin.
  { apply list_find_Some in Hwait as (Hr0 & Hw0 & _).
    apply list_elem_of_filter. split; [done|]. by eapply list_elem_of_lookup_2. }
  rewrite Forall_forall in Hread.
  destruct (Hread r0 Hin) as [Hne [words Hwords]].
  rewrite Hname0 in Hne, Hwords.
  rewrite bool_decide_eq_false_2 by done.
  destruct (process_next_file o dir st name words Hnodup Hnext Hwords)
    as (Hqueue1 & Hnames1 & Hrest1).
  destruct (IH (process_file o dir name st).1.2) as (Hqueue' & Hnames' & Hrest').
  { by rewrite Hnames1. }
  { rewrite Hqueue1. apply Forall_drop. by apply Forall_forall. }
  split_and!.
  - by rewrite Hqueue', Hqueue1, drop_drop.
  - by rewrite Hnames', Hnames1.
  - intros j r Hr Hnw. apply Hrest'; [by apply Hrest1|done].
Qed.

Lemma run_takes_next_files_witness :
  let st := load_or_create_todos rescan_dir [] empty_world in
  let st' := run online rescan_dir [] 1 false st in
  filename <$> waiting_files (todos st) = ["words_001.json"; "words_002.json"] ∧
  waiting_files (todos st') = [new_file_info "words_002.json" 2].
Proof.
  intros st st'.
  assert (NoDup (filename <$> files (todos st))) as H1.
  { apply (bool_decide_unpack _). vm_compute. exact I. }
  assert (Forall (λ r, filename r ≠ "" ∧ is_Some (read_words rescan_dir (filename r)))
                 (waiting_files (todos st))) as H2.
  { apply (bool_decide_unpack _). vm_compute. exact I. }
  destruct (run_takes_next_files online rescan_dir 1 st H1 H2) as (Hqueue & _).
  split; [vm_compute; reflexivity|].
  unfold st'. rewrite Hqueue. vm_compute. reflexivity.
Defined.

(** ** Audio fetcher: the names in the audio directory *)

Lemma string_app_inj_suffix (s1 s2 a b : string) :
  String.length a = String.length b →
  s1 +:+ a = s2 +:+ b → s1 = s2 ∧ a = b.
Proof.
  intros Hlen. revert s2.
  induction s1 as [|c s1 IH]; intros [|c' s2] Heq;
    rewrite ?string_app_cons, ?string_app_nil in Heq.
  - done.
  - apply (f_equal String.length) in Heq. simpl in Heq.
    rewrite string_length_app in Heq. lia.
  - apply (f_equal String.length) in Heq. simpl in Heq.
    rewrite string_length_app in Heq. lia.
  - injection Heq as -> Heq. destruct (IH s2 Heq) as [-> ->]. done.
Qed.

(** X20.  No two words share a file of the audio directory, and the two
    variants of a word have different files: the name of the file
    determines the word, as it is written, and whether the variant is
    the British one.  (Every variant other than 1 is stored as [us].) *)
Theorem audio_filename_inj word1 type1 word2 type2 :
  audio_filename word1 type1 = audio_filename word2 type2 →
  word1 = word2 ∧ (type1 = 1 ↔ type2 = 1).
Proof.
  unfold audio_filename. intros Heq.
  destruct (decide (type1 = 1)), (decide (type2 = 1));
    apply string_app_inj_suffix in Heq as [-> Hsuffix]; try done.
Qed.

Lemma audio_filename_inj_witness :
  audio_filename "cat" 2 = audio_filename "cat" 3 ∧ (2 = 1 ↔ 3 = 1).
Proof.
  assert (audio_filename "cat" 2 = audio_filename "cat" 3) as H1
    by (vm_compute; reflexivity).
  split; [exact H1|]. exact (proj2 (audio_filename_inj "cat" 2 "cat" 3 H1)).
Defined.
